(** * Verification of [zip.py]: progressive image recompression

    The script walks a folder, and recompresses every oversized picture so
    that it fits a byte budget: it first lowers the encoder quality, then
    shrinks the picture, and converts PNG files to JPEG or WebP when that
    helps.  The image library (PIL) and the operating system are external:
    they appear here as an environment record, the script itself as
    functions in a small state-and-exception monad over a finite-map file
    system and a log of observable events. *)

From stdpp Require Import gmap strings list sorting.
From Stdlib Require Import ZArith Lia Ascii String.
From Stdlib Require Import Floats.SpecFloat.

Open Scope string_scope.
Open Scope Z_scope.
Open Scope list_scope.

(** ** Python values used by the script *)

(** A [bytes] object: [nbytes] octets whose content, read as one big-endian
    number, is [payload].  [len] is all the script ever asks of it. *)
Record bytes := Bytes { nbytes : N; payload : N }.

Definition len (data : bytes) : Z := Z.of_N (nbytes data).

#[global] Instance bytes_eq_dec : EqDecision bytes.
Proof. solve_decision. Defined.

(** Keyword arguments handed to [Image.save]. *)
Inductive pyval := PyBool (b : bool) | PyInt (z : Z).

#[global] Instance pyval_eq_dec : EqDecision pyval.
Proof. solve_decision. Defined.

Definition kwargs := list (string * pyval).

(** Exceptions are identified by their class name. *)
Inductive exn := Exn (name : string).

#[global] Instance exn_eq_dec : EqDecision exn.
Proof. solve_decision. Defined.

Inductive result (A : Type) := Ok (a : A) | Err (e : exn).
Arguments Ok {A} a.
Arguments Err {A} e.

(** *** Strings: [str.lower], [str.upper], [str.endswith] (ASCII) *)

Definition ascii_lower (c : ascii) : ascii :=
  let n := N_of_ascii c in
  if ((65 <=? n) && (n <=? 90))%N then ascii_of_N (n + 32) else c.

Definition ascii_upper (c : ascii) : ascii :=
  let n := N_of_ascii c in
  if ((97 <=? n) && (n <=? 122))%N then ascii_of_N (n - 32) else c.

Fixpoint str_map (f : ascii -> ascii) (s : string) : string :=
  match s with
  | EmptyString => EmptyString
  | String c s' => String (f c) (str_map f s')
  end.

Definition lower (s : string) : string := str_map ascii_lower s.
Definition upper (s : string) : string := str_map ascii_upper s.

Fixpoint str_take (n : nat) (s : string) : string :=
  match n, s with
  | S n', String c s' => String c (str_take n' s')
  | _, _ => EmptyString
  end.

Fixpoint str_drop (n : nat) (s : string) : string :=
  match n, s with
  | S n', String _ s' => str_drop n' s'
  | _, _ => s
  end.

Definition endswith (s suffix : string) : bool :=
  String.eqb (str_drop (String.length s - String.length suffix) s) suffix
  && (String.length suffix <=? String.length s)%nat.

Definition str_in (s : string) (l : list string) : bool :=
  existsb (String.eqb s) l.

(** *** [os.path.splitext] and [os.path.join] (POSIX flavour)

    [splitext] follows [genericpath._splitext]: the extension starts at the
    last dot of the last path component, unless that component has nothing
    but dots before it. *)

Fixpoint rfind_from (c : ascii) (s : string) (i last : Z) : Z :=
  match s with
  | EmptyString => last
  | String a s' => rfind_from c s' (i + 1) (if Ascii.eqb a c then i else last)
  end.

Definition rfind (c : ascii) (s : string) : Z := rfind_from c s 0 (-1).

(** Is some character of [s] at an index in [[i, j)] different from [c]? *)
Fixpoint other_char_between (c : ascii) (s : string) (i j : nat) : bool :=
  match s with
  | EmptyString => false
  | String a s' =>
      match j with
      | O => false
      | S j' =>
          match i with
          | O => negb (Ascii.eqb a c) || other_char_between c s' O j'
          | S i' => other_char_between c s' i' j'
          end
      end
  end.

Definition splitext (p : string) : string * string :=
  let sepIndex := rfind "/" p in
  let dotIndex := rfind "." p in
  if (sepIndex <? dotIndex)
     && other_char_between "." p (Z.to_nat (sepIndex + 1)) (Z.to_nat dotIndex)
  then (str_take (Z.to_nat dotIndex) p, str_drop (Z.to_nat dotIndex) p)
  else (p, "").

Definition path_join (root f : string) : string :=
  if String.prefix "/" f then f
  else if (String.eqb root "") || endswith root "/" then root +:+ f
  else root +:+ "/" +:+ f.

(** ** Images and the external environment *)

Record Image := {
  size : Z * Z;                 (* (width, height) *)
  mode : string;                (* "RGB", "RGBA", "P", ... *)
  format : option string;       (* source format, [None] for derived images *)
  pixels : bytes;               (* the raster, opaque to the script *)
}.

#[global] Instance Image_eq_dec : EqDecision Image.
Proof. solve_decision. Defined.

(** What the script imports: the [PIL.Image] module and [os.walk].  Encoding,
    decoding and the capability registry may raise; [resize] and [convert]
    always return an image. *)
Record Env := {
  (** [hasattr(Image, "SAVE")] *)
  hasattr_SAVE : bool;
  (** [Image.SAVE.keys(arg)], evaluated only when the attribute exists *)
  SAVE_keys : string -> result (list string);
  (** [Image.open(path)] applied to the content of the file *)
  Image_open : string -> bytes -> result Image;
  (** [img.save(buf, format=fmt, **kw)] followed by [buf.getvalue()] *)
  Image_save : Image -> string -> kwargs -> result bytes;
  (** [img.getbands()] *)
  getbands : Image -> list string;
  (** raster of [img.resize(new_size, Image.LANCZOS)] *)
  lanczos : Image -> Z * Z -> bytes;
  (** raster of [img.convert(mode)] *)
  convert_pixels : Image -> string -> bytes;
  (** what [os.walk(folder)] yields: [(root, files)] per directory *)
  os_walk : gmap string bytes -> string -> list (string * list string);
}.

(** ** Observable events, world, monad *)

Inductive message :=
| MsgFailed (path : string) (e : exn)            (* "压缩 {path} 失败: {e}" *)
| MsgToWebp (path : string)                      (* converted to WebP *)
| MsgToJpeg (path : string)                      (* opaque PNG converted to JPEG *)
| MsgCompressing (path : string) (sz : Z)        (* before size *)
| MsgAfter (sz : Z)                              (* after size, same path *)
| MsgAfterFile (path : string) (sz : Z).         (* after size, new path *)

Inductive event :=
| EvSave (img : Image) (fmt : string) (kw : kwargs)   (* encode into a BytesIO *)
| EvWrite (path : string) (data : bytes)              (* open(path,"wb").write *)
| EvRemove (path : string)                            (* os.remove *)
| EvPrint (msg : message).

Record World := { fs : gmap string bytes; log : list event }.

Inductive outcome (A : Type) :=
| Val (a : A)          (* normal completion *)
| Raise (e : exn)      (* a Python exception propagates *)
| Diverge.             (* the loop bound of the model was exhausted *)
Arguments Val {A} a.
Arguments Raise {A} e.
Arguments Diverge {A}.

Definition M (A : Type) : Type := World -> outcome A * World.

Definition ret {A} (a : A) : M A := fun w => (Val a, w).
Definition raise {A} (e : exn) : M A := fun w => (Raise e, w).
Definition diverge {A} : M A := fun w => (Diverge, w).

Definition bind {A B} (m : M A) (k : A -> M B) : M B :=
  fun w =>
    match m w with
    | (Val a, w') => k a w'
    | (Raise e, w') => (Raise e, w')
    | (Diverge, w') => (Diverge, w')
    end.

(** [try: m  except Exception as e: h e] *)
Definition try_except {A} (m : M A) (h : exn -> M A) : M A :=
  fun w =>
    match m w with
    | (Raise e, w') => h e w'
    | r => r
    end.

Definition lift {A} (r : result A) : M A :=
  match r with Ok a => ret a | Err e => raise e end.

Definition emit (e : event) : M unit :=
  fun w => (Val tt, {| fs := fs w; log := log w ++ [e] |}).

Notation "'let*' x := m 'in' k" := (bind m (fun x => k))
  (at level 10, x name, m at level 100, k at level 200, only parsing).

(** *** File system primitives

    The file system is a finite map from paths to contents.  Writing always
    succeeds; the only file-system error is a missing file. *)

Definition print (msg : message) : M unit := emit (EvPrint msg).

(** [with open(path, "wb") as f: f.write(data)] *)
Definition write_file (path : string) (data : bytes) : M unit :=
  fun w => (Val tt, {| fs := <[path := data]> (fs w);
                       log := log w ++ [EvWrite path data] |}).

(** [os.remove(path)] *)
Definition os_remove (path : string) : M unit :=
  fun w =>
    match fs w !! path with
    | Some _ => (Val tt, {| fs := delete path (fs w);
                            log := log w ++ [EvRemove path] |})
    | None => (Raise (Exn "FileNotFoundError"), w)
    end.

Definition os_path_exists (path : string) : M bool :=
  fun w => (Val (bool_decide (is_Some (fs w !! path))), w).

Definition os_path_getsize (path : string) : M Z :=
  fun w =>
    match fs w !! path with
    | Some data => (Val (len data), w)
    | None => (Raise (Exn "FileNotFoundError"), w)
    end.

(** ** The script *)

Definition TARGET_SIZE : Z := 1 * 1024 * 512.
Definition MIN_QUALITY : Z := 20.
Definition QUALITY_STEP : Z := 5.
Definition ALLOW_PNG_TO_WEBP : bool := true.

(** [DOWNSCALE_RATIO = 0.9] is the binary64 number nearest to nine tenths,
    [8106479329266893 * 2^-53]; [int(w * DOWNSCALE_RATIO)] converts [w] to
    binary64, multiplies with rounding to nearest even, and truncates toward
    zero. *)
Definition DOWNSCALE_RATIO : spec_float :=
  S754_finite false 8106479329266893 (-53).

Definition float_of_int (z : Z) : spec_float := binary_normalize 53 1024 z 0 false.

Definition int_of_float (x : spec_float) : Z :=
  match x with
  | S754_finite s m e =>
      let v := if 0 <=? e then Zpos m * 2 ^ e else Z.quot (Zpos m) (2 ^ (- e)) in
      if s then - v else v
  | _ => 0
  end.

Definition scale_dim_binary64 (w : Z) : Z :=
  int_of_float (SFmul 53 1024 (float_of_int w) DOWNSCALE_RATIO).

(** The double nearest to 0.9 exceeds it by less than 3e-17, so for every
    dimension an image can have (below 2^45) the truncated product is the
    truncated exact quotient [9w/10]; the development works with the latter
    ([scale_dim_agrees] compares the two on all dimensions up to 4096). *)
Definition scale_dim (w : Z) : Z := Z.quot (9 * w) 10.

Definition new_size_of (sz : Z * Z) : Z * Z :=
  (Z.max 1 (scale_dim (fst sz)), Z.max 1 (scale_dim (snd sz))).

(** One dimension after a shrink step. *)
Definition shrunk_dim (w : Z) : Z := Z.max 1 (scale_dim w).

Section Script.

Context (env : Env).

Definition copy (img : Image) : Image :=
  {| size := size img; mode := mode img; format := None; pixels := pixels img |}.

Definition resize (img : Image) (new_size : Z * Z) : Image :=
  {| size := new_size; mode := mode img; format := None;
     pixels := lanczos env img new_size |}.

Definition convert (img : Image) (m : string) : Image :=
  {| size := size img; mode := m; format := None;
     pixels := convert_pixels env img m |}.

Definition Image_open_path (path : string) : M Image :=
  fun w =>
    match fs w !! path with
    | Some content => lift (Image_open env path content) w
    | None => (Raise (Exn "FileNotFoundError"), w)
    end.

Definition has_alpha (img : Image) : bool :=
  str_in "A" (getbands env img) || str_in (mode img) ["LA"; "RGBA"; "PA"].

Definition _try_save_to_bytes (img : Image) (fmt : string) (save_kwargs : kwargs)
  : M bytes :=
  let* _ := emit (EvSave img fmt save_kwargs) in
  lift (Image_save env img fmt save_kwargs).

(** The condition of the inner [while]:
    ["quality" in Image.SAVE.keys(fmt.upper()) if hasattr(Image, "SAVE")
     else fmt.lower() in ("jpeg", "webp")]. *)
Definition supports_quality (fmt : string) : result bool :=
  if hasattr_SAVE env then
    match SAVE_keys env (upper fmt) with
    | Ok ks => Ok (str_in "quality" ks)
    | Err e => Err e
    end
  else Ok (str_in (lower fmt) ["jpeg"; "webp"]).

(** Passing [quality=q] next to [**kwargs] is a [TypeError] when [kwargs]
    already has that key. *)
Definition with_quality (q : Z) (kw : kwargs) : result kwargs :=
  if str_in "quality" (map fst kw) then Err (Exn "TypeError")
  else Ok (("quality", PyInt q) :: kw).

(** How the inner [while] ends: by [return data] or by leaving the loop. *)
Inductive quality_exit := QReturn (data : bytes) | QBreak (q_iter : Z).

Fixpoint quality_loop (n : nat) (work : Image) (fmt : string) (kw : kwargs)
    (q_iter : Z) : M quality_exit :=
  match n with
  | O => diverge
  | S n' =>
      let* cond := lift (supports_quality fmt) in
      if cond then
        let* kwq := lift (with_quality q_iter kw) in
        let* data := _try_save_to_bytes work fmt kwq in
        if (len data <=? TARGET_SIZE) || (q_iter <=? MIN_QUALITY) then
          if len data <=? TARGET_SIZE then ret (QReturn data)
          else ret (QBreak q_iter)
        else quality_loop n' work fmt kw (q_iter - QUALITY_STEP)
      else ret (QBreak q_iter)
  end.

Definition quality_fuel (q : Z) : nat := S (Z.to_nat (q - MIN_QUALITY)).

Fixpoint scale_loop (n : nat) (work : Image) (fmt : string) (kw : kwargs)
    (quality : Z) : M bytes :=
  match n with
  | O => diverge
  | S n' =>
      (* 1) lower the quality *)
      let* r := quality_loop (quality_fuel quality) work fmt kw quality in
      match r with
      | QReturn data => ret data
      | QBreak q_iter =>
          (* 2) shrink *)
          let new_size := new_size_of (size work) in
          if bool_decide (new_size = size work) then
            let* kwq := lift (with_quality (Z.max MIN_QUALITY q_iter) kw) in
            _try_save_to_bytes work fmt kwq
          else scale_loop n' (resize work new_size) fmt kw quality
      end
  end.

Definition scale_fuel (sz : Z * Z) : nat :=
  (3 + Z.to_nat (fst sz) + Z.to_nat (snd sz))%nat.

Definition pyval_int (v : pyval) : Z :=
  match v with PyInt z => z | PyBool b => Z.b2z b end.

(** [kwargs.pop(key, default)] *)
Fixpoint kwargs_pop (key : string) (default : Z) (kw : kwargs) : Z * kwargs :=
  match kw with
  | [] => (default, [])
  | (k, v) :: kw' =>
      if String.eqb k key then (pyval_int v, kw')
      else let '(q, rest) := kwargs_pop key default kw' in (q, (k, v) :: rest)
  end.

Definition _progressive_compress (img : Image) (fmt : string)
    (quality_first : bool) (kw : kwargs) : M bytes :=
  let work := copy img in
  let '(quality, kw) :=
    if quality_first then (95, kw) else kwargs_pop "quality" 95 kw in
  scale_loop (scale_fuel (size work)) work fmt kw quality.

(** *** [compress_image] *)

Definition kw_optimize : kwargs := [("optimize", PyBool true)].
Definition kw_png : kwargs :=
  [("optimize", PyBool true); ("compress_level", PyInt 9)].
Definition kw_webp_lossy : kwargs :=
  [("method", PyInt 6); ("lossless", PyBool false)].
Definition kw_webp : kwargs := [("method", PyInt 6)].

(** How the PNG shrink loop of the transparent branch ends: it wrote the
    file and returned, or it left the loop with the last encoding. *)
Inductive png_exit := PngWritten | PngBreak (data : bytes).

Fixpoint png_loop (n : nat) (file_path : string) (work : Image) (data : bytes)
  : M png_exit :=
  match n with
  | O => diverge
  | S n' =>
      let new_size := new_size_of (size work) in
      if bool_decide (new_size = size work) then ret (PngBreak data)
      else
        let work := resize work new_size in
        let* data := _try_save_to_bytes work "PNG" kw_png in
        if len data <=? TARGET_SIZE then
          let* _ := write_file file_path data in
          ret PngWritten
        else png_loop n' file_path work data
  end.

(** [img.format or "PNG"] *)
Definition format_or_png (img : Image) : string :=
  match format img with
  | Some f => if String.eqb f "" then "PNG" else f
  | None => "PNG"
  end.

(** The body of the outer [try] of [compress_image]. *)
Definition compress_body (file_path : string) : M unit :=
  let* img := Image_open_path file_path in
  let ext := lower (snd (splitext file_path)) in
  if str_in ext [".jpg"; ".jpeg"] then
    let* data := _progressive_compress (convert img "RGB") "JPEG" true kw_optimize in
    write_file file_path data
  else if String.eqb ext ".png" then
    if has_alpha img then
      let work := copy img in
      let* data := _try_save_to_bytes work "PNG" kw_png in
      if len data <=? TARGET_SIZE then write_file file_path data
      else
        let* r := png_loop (scale_fuel (size work)) file_path work data in
        match r with
        | PngWritten => ret tt
        | PngBreak data =>
            if ALLOW_PNG_TO_WEBP then
              let webp_path := fst (splitext file_path) +:+ ".webp" in
              let* data := _progressive_compress img "WEBP" true kw_webp_lossy in
              let* _ := write_file webp_path data in
              let* _ := os_remove file_path in
              print (MsgToWebp webp_path)
            else write_file file_path data
        end
    else
      let* data := _progressive_compress (convert img "RGB") "JPEG" true kw_optimize in
      let new_path := fst (splitext file_path) +:+ ".jpg" in
      let* _ := write_file new_path data in
      let* _ := os_remove file_path in
      print (MsgToJpeg new_path)
  else if String.eqb ext ".webp" then
    let* data := _progressive_compress img "WEBP" true kw_webp in
    write_file file_path data
  else
    try_except
      (let* data := _progressive_compress img (format_or_png img) true kw_optimize in
       write_file file_path data)
      (fun _ =>
         let* data := _progressive_compress (convert img "RGB") "JPEG" true kw_optimize in
         write_file (fst (splitext file_path) +:+ ".jpg") data).

Definition compress_image (file_path : string) : M unit :=
  try_except (compress_body file_path)
             (fun e => print (MsgFailed file_path e)).

(** *** [process_folder] *)

Definition is_candidate (f : string) : bool :=
  existsb (endswith (lower f)) [".jpg"; ".jpeg"; ".png"; ".webp"].

(** The [for ext in (...)] loop that looks for the converted file. *)
Fixpoint report_converted (base : string) (exts : list string) : M unit :=
  match exts with
  | [] => ret tt
  | ext :: rest =>
      let p := base +:+ ext in
      let* found := os_path_exists p in
      if found then
        let* new_size := os_path_getsize p in
        print (MsgAfterFile p new_size)
      else report_converted base rest
  end.

Definition process_file (root f : string) : M unit :=
  if is_candidate f then
    let file_path := path_join root f in
    let* sz := os_path_getsize file_path in
    if TARGET_SIZE <? sz then
      let* _ := print (MsgCompressing file_path sz) in
      let* _ := compress_image file_path in
      let* found := os_path_exists file_path in
      if found then
        let* new_size := os_path_getsize file_path in
        print (MsgAfter new_size)
      else
        report_converted (fst (splitext file_path))
                         [".webp"; ".jpg"; ".jpeg"; ".png"]
    else ret tt
  else ret tt.

Fixpoint process_files (root : string) (files : list string) : M unit :=
  match files with
  | [] => ret tt
  | f :: rest =>
      let* _ := process_file root f in
      process_files root rest
  end.

Fixpoint process_dirs (dirs : list (string * list string)) : M unit :=
  match dirs with
  | [] => ret tt
  | (root, files) :: rest =>
      let* _ := process_files root files in
      process_dirs rest
  end.

Definition process_folder (folder : string) : M unit :=
  fun w => process_dirs (os_walk env (fs w) folder) w.

End Script.

(** ** Reading a run *)

Definition add_log (w : World) (tr : list event) : World :=
  {| fs := fs w; log := log w ++ tr |}.

Fixpoint kw_get (key : string) (kw : kwargs) : option pyval :=
  match kw with
  | [] => None
  | (k, v) :: kw' => if String.eqb k key then Some v else kw_get key kw'
  end.

(** The [quality] an encoding was asked for. *)
Definition quality_of (kw : kwargs) : option Z :=
  match kw_get "quality" kw with
  | Some v => Some (pyval_int v)
  | None => None
  end.

(** The encodings a search at quality [q], [q - QUALITY_STEP], ... asks for. *)
Definition save_at (work : Image) (fmt : string) (kw : kwargs) (q : Z) : event :=
  EvSave work fmt (("quality", PyInt q) :: kw).

Definition qseq (q : Z) (k : nat) : list Z :=
  map (fun i => q - QUALITY_STEP * Z.of_nat i) (seq 0 k).

(** A candidate: the dimensions and the quality of one encoding. *)
Definition candidate (e : event) : option (Z * Z * Z) :=
  match e with
  | EvSave img _ kw =>
      match quality_of kw with
      | Some q => Some (size img, q)
      | None => None
      end
  | _ => None
  end.

Definition candidates (tr : list event) : list (Z * Z * Z) := omap candidate tr.

Definition saved_size (e : event) : option (Z * Z) :=
  match e with
  | EvSave img _ _ => Some (size img)
  | _ => None
  end.

Definition saved_sizes (tr : list event) : list (Z * Z) := omap saved_size tr.

Definition is_write (e : event) : bool :=
  match e with EvWrite _ _ => true | _ => false end.

Definition is_remove (e : event) : bool :=
  match e with EvRemove _ => true | _ => false end.

Definition count_writes (tr : list event) : nat :=
  List.length (List.filter is_write tr).

(** ** A small concrete environment, to run the script on examples

    Files carry their picture in [payload]: bit 0 says whether there is an
    alpha channel, the next twelve bits give the width, the twelve after
    them the height, the bits above them the format the file was stored in
    (0 PNG, 1 JPEG, 2 WebP, anything else BMP).  The encoder knows JPEG, PNG
    and WebP; its output has [overhead + width * height * quality] octets
    (PNG ignores [quality]). *)

Definition demo_file_of (kind w h : N) (alpha : bool) (n : N) : bytes :=
  Bytes n (N.b2n alpha + 2 * w + 8192 * h + 33554432 * kind).

Definition demo_file (w h : N) (alpha : bool) (n : N) : bytes :=
  demo_file_of 0 w h alpha n.

Definition demo_format (kind : N) : string :=
  match kind with
  | 0%N => "PNG"
  | 1%N => "JPEG"
  | 2%N => "WEBP"
  | _ => "BMP"
  end.

Definition demo_open (path : string) (content : bytes) : result Image :=
  if (payload content =? 0)%N then Err (Exn "UnidentifiedImageError")
  else Ok {| size := (Z.of_N ((payload content / 2) mod 4096),
                      Z.of_N ((payload content / 8192) mod 4096));
             mode := if N.odd (payload content) then "RGBA" else "RGB";
             format := Some (demo_format (payload content / 33554432));
             pixels := content |}.

Definition demo_save (overhead : N) (img : Image) (fmt : string) (kw : kwargs)
  : result bytes :=
  if str_in (upper fmt) ["JPEG"; "PNG"; "WEBP"] then
    let q := if String.eqb (upper fmt) "PNG" then 100
             else match quality_of kw with Some q => q | None => 100 end in
    Ok (Bytes (overhead + Z.to_N (fst (size img) * snd (size img) * q)) 0)
  else Err (Exn "KeyError").

Definition demo_getbands (img : Image) : list string :=
  if String.eqb (mode img) "RGBA" then ["R"; "G"; "B"; "A"]
  else if String.eqb (mode img) "RGB" then ["R"; "G"; "B"]
  else [mode img].

Definition strip_prefix (pre s : string) : option string :=
  if String.prefix pre s then Some (str_drop (String.length pre) s) else None.

Definition demo_walk (files : gmap string bytes) (folder : string)
  : list (string * list string) :=
  [(folder, omap (strip_prefix (folder +:+ "/")) (map fst (map_to_list files)))].

(** [registry] says whether [Image.SAVE] exists; when it does, it is a plain
    [dict], whose [keys] method takes no argument. *)
Definition demo_env (overhead : N) (registry : bool) : Env :=
  {| hasattr_SAVE := registry;
     SAVE_keys := fun _ => Err (Exn "TypeError");
     Image_open := demo_open;
     Image_save := demo_save overhead;
     getbands := demo_getbands;
     lanczos := fun img _ => pixels img;
     convert_pixels := fun img _ => pixels img;
     os_walk := demo_walk |}.

Definition demo_image (w h : Z) (m : string) : Image :=
  {| size := (w, h); mode := m; format := None; pixels := Bytes 0 0 |}.

Definition empty_world : World := {| fs := ∅; log := [] |}.

Definition demo_world (path : string) (content : bytes) : World :=
  {| fs := {[ path := content ]}; log := [] |}.

(** ** Vocabulary of the statements *)

Definition over_budget (env : Env) (work : Image) (fmt : string) (kw : kwargs)
    (q : Z) : bool :=
  match Image_save env work fmt (("quality", PyInt q) :: kw) with
  | Ok d => TARGET_SIZE <? len d
  | Err _ => false
  end.

Definition level (work : Image) (fmt : string) (kw : kwargs) (q : Z) (k : nat)
  : list event :=
  map (save_at work fmt kw) (qseq q k).

Definition klevel (b : bool) : nat := if b then 16%nat else 0%nat.
Definition final_quality (b : bool) : Z := if b then MIN_QUALITY else 95.

(** Rank of a dimension: how many shrink steps it can still take. *)
Definition dim_rank (x : Z) : nat := if x <? 1 then 1%nat else Z.to_nat (x - 1).
Definition size_rank (sz : Z * Z) : nat :=
  (dim_rank (fst sz) + dim_rank (snd sz))%nat.

(** From one candidate to the next: at the same dimensions the quality does
    not go up; at new dimensions it is 95 again. *)
Definition quality_step_ok (c1 c2 : Z * Z * Z) : Prop :=
  if decide (fst c2 = fst c1) then snd c2 <= snd c1 else snd c2 = 95.

Definition no_larger (s1 s2 : Z * Z) : Prop :=
  fst s2 <= fst s1 /\ snd s2 <= snd s1.

Definition at_least_1x1 (s : Z * Z) : Prop := 1 <= fst s /\ 1 <= snd s.

(** [s] is what [j] shrink steps make of [s0]. *)
Definition shrunk_from (s0 s : Z * Z) : Prop :=
  exists j : nat, s = Nat.iter j new_size_of s0.

Definition floor_to_95 (c : Z * Z * Z) : Prop := MIN_QUALITY <= snd c <= 95.

Definition png_save (im : Image) : event := EvSave im "PNG" kw_png.

(** One shrink step in the words of the specification: both dimensions times
    nine tenths, rounded down, but never below one pixel. *)
Definition scaled_down (s : Z * Z) : Z * Z :=
  (Z.max 1 (9 * fst s / 10), Z.max 1 (9 * snd s / 10)).

Definition scaled_from (s0 s : Z * Z) : Prop :=
  exists j : nat, s = Nat.iter j scaled_down s0.

(** What a run on a transparent PNG may do: encode as PNG or WebP, write in
    place or under the [.webp] name. *)
Definition keeps_alpha (p : string) (e : event) : Prop :=
  match e with
  | EvSave _ fmt _ => fmt = "PNG" \/ fmt = "WEBP"
  | EvWrite path _ => path = p \/ path = fst (splitext p) +:+ ".webp"
  | _ => True
  end.

Definition saves_as (fmt : string) (e : event) : Prop :=
  exists im kw, e = EvSave im fmt kw.

(** The outcome of processing one file is tidy: at most one write, no write
    at all when an exception comes out, and the loop bounds suffice. *)
Definition tidy (w : World) (res : outcome unit * World) : Prop :=
  exists tr,
    log (snd res) = log w ++ tr
    /\ (count_writes tr <= 1)%nat
    /\ fst res <> Diverge
    /\ (forall e, fst res = Raise e ->
          fs (snd res) = fs w /\ count_writes tr = 0%nat).

(** Every event a run adds satisfies [Q]. *)
Definition within {A} (Q : event -> Prop) (w : World)
    (res : outcome A * World) : Prop :=
  exists tr, log (snd res) = log w ++ tr /\ Forall Q tr.

(** Writing the converted file, removing the original, reporting. *)
Definition replace_by (new_path p : string) (data : bytes) (msg : message)
  : M unit :=
  let* _ := write_file new_path data in
  let* _ := os_remove p in
  print msg.

(** Did this encoding raise? *)
Definition encode_failed (env : Env) (e : event) : bool :=
  match e with
  | EvSave im fmt kw =>
      match Image_save env im fmt kw with Ok _ => false | Err _ => true end
  | _ => false
  end.

Definition is_failure_report (e : event) : bool :=
  match e with EvPrint (MsgFailed _ _) => true | _ => false end.

(** The events a run added to the log of [w]. *)
Definition new_events {A} (w : World) (res : outcome A * World) : list event :=
  drop (List.length (log w)) (log (snd res)).

(** A computation that, when it completes normally, has only logged
    encodings that succeeded. *)
Definition cleanly {A} (env : Env) (m : M A) : Prop :=
  forall w a w', m w = (Val a, w') ->
    exists tr, log w' = log w ++ tr /\ existsb (encode_failed env) tr = false.

Section Shapes.

Context (env : Env).

Definition supported (fmt : string) : bool :=
  match supports_quality env fmt with Ok b => b | Err _ => false end.

(** The shape of the events of a search that starts at [work]. *)
Inductive search_trace (fmt : string) (kw : kwargs) (b : bool)
  : Image -> list event -> Prop :=
| ST_stop work k :
    (k <= klevel b)%nat ->
    search_trace fmt kw b work (level work fmt kw 95 k)
| ST_final work :
    new_size_of (size work) = size work ->
    search_trace fmt kw b work
      (level work fmt kw 95 (klevel b)
       ++ [save_at work fmt kw (final_quality b)])
| ST_next work tr :
    new_size_of (size work) <> size work ->
    search_trace fmt kw b (resize env work (new_size_of (size work))) tr ->
    search_trace fmt kw b work (level work fmt kw 95 (klevel b) ++ tr).

End Shapes.

(** ** Vocabulary of the further properties *)

(** What an event does to the files. *)
Definition apply_event (files : gmap string bytes) (e : event)
  : gmap string bytes :=
  match e with
  | EvWrite path data => <[path := data]> files
  | EvRemove path => delete path files
  | _ => files
  end.

Definition replay (tr : list event) (files : gmap string bytes)
  : gmap string bytes :=
  fold_left apply_event tr files.

(** Every run of [m] logs what it does to the files, and logs only events
    that satisfy [Q]. *)
Definition journal {A} (Q : event -> Prop) (m : M A) : Prop :=
  forall w r w', m w = (r, w') ->
    exists tr, log w' = log w ++ tr
               /\ fs w' = replay tr (fs w)
               /\ Forall Q tr.

(** The paths [compress_image] may write for the file [p]. *)
Definition own_paths (p : string) : list string :=
  [p; fst (splitext p) +:+ ".jpg"; fst (splitext p) +:+ ".webp"].

(** Events that stay with the file [p]: writes go to its own paths, only
    [p] itself is removed. *)
Definition stays_with (p : string) (e : event) : Prop :=
  match e with
  | EvWrite path _ => In path (own_paths p)
  | EvRemove path => path = p
  | _ => True
  end.

(** Does [base +:+ ext] name a file? *)
Definition has_file (files : gmap string bytes) (base ext : string) : bool :=
  bool_decide (is_Some (files !! (base +:+ ext))).

Definition size_of (files : gmap string bytes) (path : string) : Z :=
  match files !! path with Some d => len d | None => 0 end.

(** The paths of the files [process_folder] picks from a walk. *)
Definition selected (dirs : list (string * list string)) : list string :=
  flat_map (fun d => map (path_join (fst d)) (List.filter is_candidate (snd d)))
           dirs.

(** The report [process_folder] prints after [compress_image]: the new size
    of the file when it is still there, else the first of [.webp], [.jpg],
    [.jpeg], [.png] that exists beside it, else nothing. *)
Definition report_after (files : gmap string bytes) (p : string) : list event :=
  if bool_decide (is_Some (files !! p)) then [EvPrint (MsgAfter (size_of files p))]
  else
    match List.find (has_file files (fst (splitext p)))
                    [".webp"; ".jpg"; ".jpeg"; ".png"] with
    | Some ext =>
        [EvPrint (MsgAfterFile (fst (splitext p) +:+ ext)
                    (size_of files (fst (splitext p) +:+ ext)))]
    | None => []
    end.

Definition demo_folder : World :=
  {| fs := <["./a.png" := demo_file 80 72 false 600000]>
             (<["./b.jpg" := demo_file_of 1 80 72 false 500000]> ∅);
     log := [] |}.

(** Events that never put an oversized file at [p]. *)
Definition writes_within_budget (p : string) (e : event) : Prop :=
  match e with
  | EvWrite path d => path = p -> len d <= TARGET_SIZE
  | _ => True
  end.

Definition small_folder : World :=
  {| fs := <["./a.png" := demo_file 8 8 false 1000]>
             (<["./notes.txt" := Bytes 900000 0]> ∅);
     log := [] |}.

(** A computation that does not look at the world: it only appends to the
    log, and what it returns and appends is the same in every world. *)
Definition blind {A} (m : M A) : Prop :=
  forall w, m w = (fst (m empty_world),
                   add_log w (log (snd (m empty_world)))).

(** Do all characters of [s] satisfy [P]? *)
Fixpoint str_forall (P : ascii -> bool) (s : string) : bool :=
  match s with
  | EmptyString => true
  | String a s' => P a && str_forall P s'
  end.

Definition is_char (c a : ascii) : bool := Ascii.eqb a c.
Definition not_char (c a : ascii) : bool := negb (Ascii.eqb a c).

(** What [os.path.join] puts before the file name. *)
Definition join_prefix (root : string) : string :=
  if (String.eqb root "") || endswith root "/" then root else root +:+ "/".

(** ** Vocabulary of the registry, the sizes and the outcomes *)

(** [Image.SAVE] exists and is a dictionary, as in every release of the
    imaging library: its [keys] method takes no argument, so the call of
    line 32, [Image.SAVE.keys(fmt.upper())], raises [e] ([TypeError]). *)
Definition dict_registry (env : Env) (e : exn) : Prop :=
  hasattr_SAVE env = true /\ forall s, SAVE_keys env s = Err e.

(** One actual downscale: both dimensions times nine tenths, rounded down,
    at least one pixel, and the size has changed. *)
Definition one_step (s1 s2 : Z * Z) : Prop :=
  s2 = scaled_down s1 /\ s2 <> s1.

Definition same_or_step (s1 s2 : Z * Z) : Prop := s2 = s1 \/ one_step s1 s2.

(** The sizes of the encodings of one run that starts at size [s0]. *)
Definition shrinking_run (s0 : Z * Z) (l : list (Z * Z)) : Prop :=
  Sorted same_or_step l
  /\ Sorted no_larger (s0 :: l)
  /\ Forall at_least_1x1 l
  /\ Forall (scaled_from s0) l.



(** Every run of [m] adds events whose encodings have sizes satisfying [P]. *)
Definition encodes {A} (P : list (Z * Z) -> Prop) (m : M A) : Prop :=
  forall w r w', m w = (r, w') ->
    exists tr, log w' = log w ++ tr /\ P (saved_sizes tr).

(** The sizes of one run of the search on an image of size [s0]; with the
    dictionary registry there are none. *)
Definition search_sizes (env : Env) (s0 : Z * Z) (l : list (Z * Z)) : Prop :=
  shrinking_run s0 l /\ (forall e, dict_registry env e -> l = []).

(** The sizes the PNG loop encodes after an image of size [s0]: each one is
    an actual downscale of the one before. *)
Definition png_sizes (s0 : Z * Z) (l : list (Z * Z)) : Prop :=
  Sorted one_step (s0 :: l)
  /\ Forall at_least_1x1 l
  /\ Forall (shrunk_from s0) l.

(** The sizes of all encodings made for one file: at most two runs, each
    starting again at the size of the image; with the dictionary registry
    there is no second run. *)
Definition two_runs (env : Env) (s0 : Z * Z) (l : list (Z * Z)) : Prop :=
  exists l1 l2,
    l = l1 ++ l2
    /\ shrinking_run s0 l1
    /\ shrinking_run s0 l2
    /\ (forall e, dict_registry env e -> l2 = []).

Definition is_save (e : event) : bool :=
  match e with EvSave _ _ _ => true | _ => false end.

(** The three ways [compress_image] can end on the path [p], seen from the
    world [w] it started in: a failure report after encodings only; one
    write over [p] itself; or a new file beside [p], [p] removed and the
    conversion announced. *)
Inductive file_outcome (p : string) (w : World)
  : outcome unit * World -> Prop :=
| ended_in_failure t e :
    forallb is_save t = true ->
    file_outcome p w
      (Val tt, {| fs := fs w;
                  log := log w ++ t ++ [EvPrint (MsgFailed p e)] |})
| written_in_place t d :
    forallb is_save t = true ->
    file_outcome p w
      (Val tt, {| fs := <[p := d]> (fs w);
                  log := log w ++ t ++ [EvWrite p d] |})
| converted t new d msg :
    forallb is_save t = true ->
    new <> p ->
    (new = fst (splitext p) +:+ ".jpg" /\ msg = MsgToJpeg new)
    \/ (new = fst (splitext p) +:+ ".webp" /\ msg = MsgToWebp new) ->
    file_outcome p w
      (Val tt, {| fs := delete p (<[new := d]> (fs w));
                  log := log w ++ t ++ [EvWrite new d; EvRemove p;
                                        EvPrint msg] |}).

(** * Properties *)

(** ** The state monad *)

Lemma add_log_nil w : add_log w [] = w.
Proof. destruct w; unfold add_log; simpl. by rewrite app_nil_r. Qed.

Lemma add_log_app w t1 t2 : add_log (add_log w t1) t2 = add_log w (t1 ++ t2).
Proof. unfold add_log; simpl. by rewrite app_assoc. Qed.

Lemma fs_add_log w tr : fs (add_log w tr) = fs w.
Proof. reflexivity. Qed.

Lemma log_add_log w tr : log (add_log w tr) = log w ++ tr.
Proof. reflexivity. Qed.

Lemma bind_inv {A B} (m : M A) (k : A -> M B) w r w' :
  bind m k w = (r, w') ->
  (exists a w1, m w = (Val a, w1) /\ k a w1 = (r, w'))
  \/ (exists e, m w = (Raise e, w') /\ r = Raise e)
  \/ (m w = (Diverge, w') /\ r = Diverge).
Proof.
  unfold bind. destruct (m w) as [[a|e|] w1]; intros H.
  - left. eauto.
  - right; left. inversion H; subst. eauto.
  - right; right. inversion H; subst. eauto.
Qed.

Lemma bind_val {A B} (m : M A) (k : A -> M B) w a w1 :
  m w = (Val a, w1) -> bind m k w = k a w1.
Proof. unfold bind. by intros ->. Qed.

Lemma bind_raise {A B} (m : M A) (k : A -> M B) w e w1 :
  m w = (Raise e, w1) -> bind m k w = (Raise e, w1).
Proof. unfold bind. by intros ->. Qed.

(** ** Arithmetic of one shrink step *)

(** The integer quotient is what the binary64 computation of the script
    yields, checked here on every dimension from 0 to 4096. *)
Lemma scale_dim_agrees :
  forallb (fun w => scale_dim_binary64 w =? scale_dim w)
          (map Z.of_nat (seq 0 4097)) = true.
Proof. vm_compute. reflexivity. Qed.

Lemma scale_dim_lt w : 1 <= w -> 0 <= scale_dim w < w.
Proof.
  intros Hw. unfold scale_dim.
  rewrite Z.quot_div_nonneg by lia.
  split.
  - apply Z.div_pos; lia.
  - apply Z.div_lt_upper_bound; lia.
Qed.

Lemma scale_dim_nonpos w : w <= 0 -> scale_dim w <= 0.
Proof.
  intros Hw. unfold scale_dim.
  replace (9 * w) with (- (9 * - w)) by lia.
  rewrite Z.quot_opp_l by lia.
  assert (0 <= Z.quot (9 * - w) 10) by (apply Z.quot_pos; lia). lia.
Qed.

Lemma shrunk_dim_ge1 w : 1 <= shrunk_dim w.
Proof. unfold shrunk_dim. lia. Qed.

Lemma shrunk_dim_le w : 1 <= w -> shrunk_dim w <= w.
Proof. intros Hw. unfold shrunk_dim. pose proof (scale_dim_lt w Hw). lia. Qed.

Lemma shrunk_dim_lt w : 2 <= w -> shrunk_dim w < w.
Proof. intros Hw. unfold shrunk_dim. pose proof (scale_dim_lt w). lia. Qed.

Lemma shrunk_dim_fix w : shrunk_dim w = w <-> w = 1.
Proof.
  unfold shrunk_dim. split.
  - intros H. destruct (Z_lt_le_dec w 1) as [Hlt|Hge].
    + lia.
    + pose proof (scale_dim_lt w Hge). lia.
  - intros ->. reflexivity.
Qed.

Lemma new_size_of_eq sz :
  new_size_of sz = (shrunk_dim (fst sz), shrunk_dim (snd sz)).
Proof. reflexivity. Qed.

Lemma new_size_fix sz : new_size_of sz = sz <-> sz = (1, 1).
Proof.
  destruct sz as [w h]. rewrite new_size_of_eq. simpl. split.
  - intros H. injection H as Hw Hh.
    apply shrunk_dim_fix in Hw. apply shrunk_dim_fix in Hh. by subst.
  - intros H. injection H as -> ->. reflexivity.
Qed.

(** ** The inner loop: lowering the quality *)

Section Loops.

Context (env : Env).

Lemma try_save_run img fmt kw w :
  _try_save_to_bytes env img fmt kw w =
  (match Image_save env img fmt kw with Ok d => Val d | Err e => Raise e end,
   add_log w [EvSave img fmt kw]).
Proof.
  unfold _try_save_to_bytes, bind, emit, add_log. simpl.
  by destruct (Image_save env img fmt kw).
Qed.

Lemma qseq_S q k : qseq q (S k) = q :: qseq (q - QUALITY_STEP) k.
Proof.
  unfold qseq. simpl. f_equal; [lia|].
  rewrite <- seq_shift, map_map. apply map_ext. intros i. lia.
Qed.

Lemma with_quality_ok q kw :
  str_in "quality" (map fst kw) = false ->
  with_quality q kw = Ok (("quality", PyInt q) :: kw).
Proof. unfold with_quality. by intros ->. Qed.

Lemma quality_loop_unsupported n work fmt kw q w :
  supports_quality env fmt = Ok false ->
  quality_loop env (S n) work fmt kw q w = (Val (QBreak q), w).
Proof. intros H. simpl. unfold bind. by rewrite H. Qed.

Lemma quality_loop_query_raises n work fmt kw q w e :
  supports_quality env fmt = Err e ->
  quality_loop env (S n) work fmt kw q w = (Raise e, w).
Proof. intros H. simpl. unfold bind. by rewrite H. Qed.

Lemma quality_loop_duplicate n work fmt kw q w :
  supports_quality env fmt = Ok true ->
  str_in "quality" (map fst kw) = true ->
  quality_loop env (S n) work fmt kw q w = (Raise (Exn "TypeError"), w).
Proof.
  intros Hs Hk. simpl. unfold bind at 1. rewrite Hs. simpl.
  unfold bind at 1. unfold with_quality. by rewrite Hk.
Qed.

Lemma quality_loop_step n work fmt kw q w :
  supports_quality env fmt = Ok true ->
  str_in "quality" (map fst kw) = false ->
  quality_loop env (S n) work fmt kw q w =
  match Image_save env work fmt (("quality", PyInt q) :: kw) with
  | Err e => (Raise e, add_log w [save_at work fmt kw q])
  | Ok data =>
      if len data <=? TARGET_SIZE
      then (Val (QReturn data), add_log w [save_at work fmt kw q])
      else if q <=? MIN_QUALITY
           then (Val (QBreak q), add_log w [save_at work fmt kw q])
           else quality_loop env n work fmt kw (q - QUALITY_STEP)
                             (add_log w [save_at work fmt kw q])
  end.
Proof.
  intros Hs Hk. simpl. unfold bind at 1. rewrite Hs. simpl.
  unfold bind at 1. rewrite (with_quality_ok _ _ Hk). simpl.
  unfold bind at 1. rewrite try_save_run. unfold save_at.
  destruct (Image_save env work fmt _) as [data|e]; [|done].
  destruct (len data <=? TARGET_SIZE); simpl; [done|].
  by destruct (q <=? MIN_QUALITY).
Qed.

Lemma level_S work fmt kw q k :
  level work fmt kw q (S k) =
  save_at work fmt kw q :: level work fmt kw (q - QUALITY_STEP) k.
Proof. unfold level. by rewrite qseq_S. Qed.

Lemma level_0 work fmt kw q : level work fmt kw q 0 = [].
Proof. reflexivity. Qed.

Lemma level_1 work fmt kw q : level work fmt kw q 1 = [save_at work fmt kw q].
Proof. by rewrite level_S. Qed.

Lemma add_log_level_S w work fmt kw q k :
  add_log (add_log w [save_at work fmt kw q])
          (level work fmt kw (q - QUALITY_STEP) k)
  = add_log w (level work fmt kw q (S k)).
Proof. by rewrite add_log_app, level_S. Qed.

(** What one run of the inner loop looks like, whatever the encoder does. *)
Lemma quality_loop_run n work fmt kw q w r w' :
  supports_quality env fmt = Ok true ->
  str_in "quality" (map fst kw) = false ->
  quality_loop env n work fmt kw q w = (r, w') ->
  exists k : nat,
    w' = add_log w (level work fmt kw q k)
    /\ (forall i, (S i < k)%nat -> MIN_QUALITY < q - QUALITY_STEP * Z.of_nat i)
    /\ (forall q', r = Val (QBreak q') ->
          (1 <= k)%nat /\ q' = q - QUALITY_STEP * Z.of_nat (k - 1)
          /\ q' <= MIN_QUALITY).
Proof.
  intros Hs Hk. revert q w. induction n as [|n IH]; intros q w Hrun.
  - inversion Hrun; subst. exists 0%nat. rewrite level_0, add_log_nil.
    split; [done|]. split; [lia|]. discriminate.
  - rewrite quality_loop_step in Hrun by done.
    destruct (Image_save env work fmt _) as [data|e].
    + destruct (len data <=? TARGET_SIZE).
      * inversion Hrun; subst. exists 1%nat. rewrite level_1.
        split; [done|]. split; [lia|]. discriminate.
      * destruct (q <=? MIN_QUALITY) eqn:Hq.
        -- inversion Hrun; subst. exists 1%nat. rewrite level_1.
           split; [done|]. split; [lia|].
           intros q' [= <-]. simpl. split; [lia|]. split; lia.
        -- apply IH in Hrun as (k & -> & Hcont & Hbr).
           exists (S k). split; [by rewrite add_log_level_S|]. split.
           ++ intros [|i] Hi; [lia|].
              specialize (Hcont i ltac:(lia)). unfold QUALITY_STEP in *. lia.
           ++ intros q' Hq'. destruct (Hbr q' Hq') as (Hk1 & -> & Hle).
              split; [lia|]. split; [|done].
              replace (S k - 1)%nat with (S (k - 1)) by lia.
              unfold QUALITY_STEP. lia.
    + inversion Hrun; subst. exists 1%nat. rewrite level_1.
      split; [done|]. split; [lia|]. discriminate.
Qed.

(** The inner loop never exhausts its bound. *)
Lemma quality_loop_total n work fmt kw q w :
  (Z.to_nat (q - MIN_QUALITY) < n)%nat ->
  fst (quality_loop env n work fmt kw q w) <> Diverge.
Proof.
  revert q w. induction n as [|n IH]; intros q w Hn; [lia|].
  destruct (supports_quality env fmt) as [[|]|e] eqn:Hs.
  - destruct (str_in "quality" (map fst kw)) eqn:Hk.
    + by rewrite quality_loop_duplicate.
    + rewrite quality_loop_step by done.
      destruct (Image_save env work fmt _) as [data|e]; [|done].
      destruct (len data <=? TARGET_SIZE); [done|].
      destruct (q <=? MIN_QUALITY) eqn:Hq; [done|].
      apply IH. unfold QUALITY_STEP, MIN_QUALITY in *. lia.
  - by rewrite quality_loop_unsupported.
  - by erewrite quality_loop_query_raises by eassumption.
Qed.

(** More fuel does not change a run that did not need it. *)
Lemma quality_loop_fuel n m work fmt kw q w :
  (Z.to_nat (q - MIN_QUALITY) < n)%nat ->
  (Z.to_nat (q - MIN_QUALITY) < m)%nat ->
  quality_loop env n work fmt kw q w = quality_loop env m work fmt kw q w.
Proof.
  revert m q w. induction n as [|n IH]; intros m q w Hn Hm; [lia|].
  destruct m as [|m]; [lia|].
  destruct (supports_quality env fmt) as [[|]|e] eqn:Hs.
  - destruct (str_in "quality" (map fst kw)) eqn:Hk.
    + by rewrite !quality_loop_duplicate.
    + rewrite !quality_loop_step by done.
      destruct (Image_save env work fmt _) as [data|e]; [|done].
      destruct (len data <=? TARGET_SIZE); [done|].
      destruct (q <=? MIN_QUALITY) eqn:Hq; [done|].
      apply IH; unfold QUALITY_STEP, MIN_QUALITY in *; lia.
  - by rewrite !quality_loop_unsupported.
  - by erewrite !quality_loop_query_raises by eassumption.
Qed.

Lemma over_budget_step work fmt kw q :
  over_budget env work fmt kw q = true ->
  exists d, Image_save env work fmt (("quality", PyInt q) :: kw) = Ok d
            /\ (len d <=? TARGET_SIZE) = false.
Proof.
  unfold over_budget. destruct (Image_save env work fmt _) as [d|]; [|done].
  intros H. exists d. split; [done|]. lia.
Qed.

(** First fit: the first encoding within budget is returned at once. *)
Lemma quality_loop_first_fit k : forall n work fmt kw q w data,
  supports_quality env fmt = Ok true ->
  str_in "quality" (map fst kw) = false ->
  (k < n)%nat ->
  (forall i, (i < k)%nat ->
     over_budget env work fmt kw (q - QUALITY_STEP * Z.of_nat i) = true
     /\ MIN_QUALITY < q - QUALITY_STEP * Z.of_nat i) ->
  Image_save env work fmt
    (("quality", PyInt (q - QUALITY_STEP * Z.of_nat k)) :: kw) = Ok data ->
  len data <= TARGET_SIZE ->
  quality_loop env n work fmt kw q w =
  (Val (QReturn data), add_log w (level work fmt kw q (S k))).
Proof.
  induction k as [|k IH]; intros n work fmt kw q w data Hs Hk Hn Hover Hfit Hlen;
    (destruct n as [|n]; [lia|]); rewrite quality_loop_step by done.
  - replace (q - QUALITY_STEP * Z.of_nat 0) with q in Hfit by lia.
    rewrite Hfit, level_1. by rewrite (proj2 (Z.leb_le _ _) Hlen).
  - destruct (Hover 0%nat ltac:(lia)) as [Ho Hq].
    replace (q - QUALITY_STEP * Z.of_nat 0) with q in * by lia.
    apply over_budget_step in Ho as (d & -> & ->).
    rewrite (proj2 (Z.leb_gt _ _) Hq).
    rewrite (IH n work fmt kw (q - QUALITY_STEP) _ data); try done; try lia.
    + by rewrite add_log_level_S.
    + intros i Hi. specialize (Hover (S i) ltac:(lia)).
      replace (q - QUALITY_STEP - QUALITY_STEP * Z.of_nat i)
        with (q - QUALITY_STEP * Z.of_nat (S i)) by lia. done.
    + replace (q - QUALITY_STEP - QUALITY_STEP * Z.of_nat k)
        with (q - QUALITY_STEP * Z.of_nat (S k)) by lia. done.
Qed.

(** Exhaustion: when nothing fits, the loop leaves at the floor. *)
Lemma quality_loop_exhaust k : forall n work fmt kw q w,
  supports_quality env fmt = Ok true ->
  str_in "quality" (map fst kw) = false ->
  (k < n)%nat ->
  (forall i, (i <= k)%nat ->
     over_budget env work fmt kw (q - QUALITY_STEP * Z.of_nat i) = true) ->
  (forall i, (i < k)%nat -> MIN_QUALITY < q - QUALITY_STEP * Z.of_nat i) ->
  q - QUALITY_STEP * Z.of_nat k <= MIN_QUALITY ->
  quality_loop env n work fmt kw q w =
  (Val (QBreak (q - QUALITY_STEP * Z.of_nat k)),
   add_log w (level work fmt kw q (S k))).
Proof.
  induction k as [|k IH]; intros n work fmt kw q w Hs Hk Hn Hover Hcont Hfloor;
    (destruct n as [|n]; [lia|]); rewrite quality_loop_step by done;
    pose proof (Hover 0%nat ltac:(lia)) as Ho;
    replace (q - QUALITY_STEP * Z.of_nat 0) with q in * by lia;
    apply over_budget_step in Ho as (d & -> & ->).
  - rewrite level_1. by rewrite (proj2 (Z.leb_le _ _) Hfloor).
  - specialize (Hcont 0%nat ltac:(lia)) as Hq.
    replace (q - QUALITY_STEP * Z.of_nat 0) with q in * by lia.
    rewrite (proj2 (Z.leb_gt _ _) Hq).
    rewrite (IH n work fmt kw (q - QUALITY_STEP)); try done; try lia.
    + rewrite add_log_level_S. do 2 f_equal. f_equal. lia.
    + intros i Hi. specialize (Hover (S i) ltac:(lia)).
      replace (q - QUALITY_STEP - QUALITY_STEP * Z.of_nat i)
        with (q - QUALITY_STEP * Z.of_nat (S i)) by lia. done.
    + intros i Hi. specialize (Hcont (S i) ltac:(lia)). lia.
Qed.

(** *** The outer loop *)

Lemma scale_loop_step n work fmt kw q w :
  scale_loop env (S n) work fmt kw q w =
  match quality_loop env (quality_fuel q) work fmt kw q w with
  | (Val (QReturn data), w1) => (Val data, w1)
  | (Val (QBreak q_iter), w1) =>
      if bool_decide (new_size_of (size work) = size work) then
        match with_quality (Z.max MIN_QUALITY q_iter) kw with
        | Ok kwq => _try_save_to_bytes env work fmt kwq w1
        | Err e => (Raise e, w1)
        end
      else scale_loop env n (resize env work (new_size_of (size work)))
                      fmt kw q w1
  | (Raise e, w1) => (Raise e, w1)
  | (Diverge, w1) => (Diverge, w1)
  end.
Proof.
  cbn [scale_loop]. unfold bind at 1.
  destruct (quality_loop env (quality_fuel q) work fmt kw q w)
    as [[[d|q']|e|] w1]; try done.
  case_bool_decide; [|done].
  unfold bind. by destruct (with_quality _ kw).
Qed.

Lemma dim_rank_shrunk x : (dim_rank (shrunk_dim x) <= dim_rank x)%nat.
Proof.
  unfold dim_rank. pose proof (shrunk_dim_ge1 x).
  destruct (shrunk_dim x <? 1) eqn:H1; [lia|].
  destruct (x <? 1) eqn:H2.
  - unfold shrunk_dim in *. pose proof (scale_dim_nonpos x). lia.
  - pose proof (shrunk_dim_le x). lia.
Qed.

Lemma dim_rank_shrunk_lt x :
  shrunk_dim x <> x -> (dim_rank (shrunk_dim x) < dim_rank x)%nat.
Proof.
  intros Hne. unfold dim_rank. pose proof (shrunk_dim_ge1 x).
  destruct (shrunk_dim x <? 1) eqn:H1; [lia|].
  destruct (x <? 1) eqn:H2.
  - unfold shrunk_dim in *. pose proof (scale_dim_nonpos x). lia.
  - pose proof (shrunk_dim_le x). lia.
Qed.

Lemma size_rank_new sz :
  new_size_of sz <> sz -> (size_rank (new_size_of sz) < size_rank sz)%nat.
Proof.
  destruct sz as [w h]. rewrite new_size_of_eq. unfold size_rank. simpl.
  intros Hne.
  pose proof (dim_rank_shrunk w). pose proof (dim_rank_shrunk h).
  destruct (decide (shrunk_dim w = w)) as [Hw|Hw].
  - destruct (decide (shrunk_dim h = h)) as [Hh|Hh]; [congruence|].
    pose proof (dim_rank_shrunk_lt h Hh). lia.
  - pose proof (dim_rank_shrunk_lt w Hw). lia.
Qed.

Lemma size_rank_fuel sz : (size_rank sz < scale_fuel sz)%nat.
Proof.
  destruct sz as [w h]. unfold size_rank, scale_fuel, dim_rank. simpl.
  destruct (w <? 1) eqn:Hw; destruct (h <? 1) eqn:Hh; lia.
Qed.

Lemma quality_fuel_enough q : (Z.to_nat (q - MIN_QUALITY) < quality_fuel q)%nat.
Proof. unfold quality_fuel. lia. Qed.

(** The search never exhausts its bound. *)
Lemma scale_loop_total n work fmt kw q w :
  (size_rank (size work) < n)%nat ->
  fst (scale_loop env n work fmt kw q w) <> Diverge.
Proof.
  revert work w. induction n as [|n IH]; intros work w Hn; [lia|].
  rewrite scale_loop_step.
  pose proof (quality_loop_total (quality_fuel q) work fmt kw q w
                (quality_fuel_enough q)) as Hq.
  destruct (quality_loop env _ work fmt kw q w) as [[[d|q']|e|] w1];
    try done.
  case_bool_decide as Hfix.
  - destruct (with_quality _ kw); [|done].
    rewrite try_save_run. by destruct (Image_save env work fmt _).
  - apply IH. simpl. apply size_rank_new in Hfix. lia.
Qed.

Lemma scale_loop_fuel n m work fmt kw q w :
  (size_rank (size work) < n)%nat ->
  (size_rank (size work) < m)%nat ->
  scale_loop env n work fmt kw q w = scale_loop env m work fmt kw q w.
Proof.
  revert m work w. induction n as [|n IH]; intros m work w Hn Hm; [lia|].
  destruct m as [|m]; [lia|]. rewrite !scale_loop_step.
  destruct (quality_loop env _ work fmt kw q w) as [[[d|q']|e|] w1];
    try done.
  case_bool_decide as Hfix; [done|].
  apply size_rank_new in Hfix. apply IH; simpl; lia.
Qed.

Lemma level_bound k :
  (forall i, (S i < k)%nat -> MIN_QUALITY < 95 - QUALITY_STEP * Z.of_nat i) ->
  (k <= 16)%nat.
Proof.
  intros H. destruct (le_lt_dec k 16) as [|Hk]; [done|].
  specialize (H 15%nat ltac:(lia)). unfold MIN_QUALITY, QUALITY_STEP in H. lia.
Qed.

(** Every run of the search, whatever its outcome, has the shape above. *)
Lemma scale_loop_trace n : forall work fmt kw w r w',
  scale_loop env n work fmt kw 95 w = (r, w') ->
  exists tr, w' = add_log w tr /\ search_trace env fmt kw (supported env fmt) work tr.
Proof.
  induction n as [|n IH]; intros work fmt kw w r w' Hrun.
  - inversion Hrun; subst. exists []. rewrite add_log_nil. split; [done|].
    apply (ST_stop env fmt kw _ work 0). lia.
  - rewrite scale_loop_step in Hrun. unfold supported.
    destruct (supports_quality env fmt) as [[|]|e] eqn:Hs.
    + (* the format has a quality parameter *)
      destruct (str_in "quality" (map fst kw)) eqn:Hk.
      { unfold quality_fuel in Hrun.
        rewrite quality_loop_duplicate in Hrun by done.
        inversion Hrun; subst. exists []. rewrite add_log_nil.
        split; [done|]. apply (ST_stop env fmt kw _ work 0). simpl. lia. }
      destruct (quality_loop env _ work fmt kw 95 w) as [r1 w1] eqn:Hq.
      apply quality_loop_run in Hq as (k & -> & Hcont & Hbr); try done.
      pose proof (level_bound k Hcont) as Hk16.
      destruct r1 as [[d|q']|e|].
      * inversion Hrun; subst. eexists. split; [done|]. by apply ST_stop.
      * destruct (Hbr q' eq_refl) as (Hk1 & Hq' & Hle).
        assert (k = 16%nat) as ->
            by (unfold MIN_QUALITY, QUALITY_STEP in *; lia).
        assert (q' = MIN_QUALITY) as ->
            by (unfold MIN_QUALITY, QUALITY_STEP in *; lia).
        case_bool_decide as Hfix.
        -- rewrite with_quality_ok in Hrun by done.
           rewrite try_save_run in Hrun. inversion Hrun; subst.
           eexists. split; [by rewrite add_log_app|].
           by apply (ST_final env fmt kw true).
        -- apply IH in Hrun as (tr & -> & Htr).
           eexists. split; [by rewrite add_log_app|].
           apply (ST_next env fmt kw true); [done|].
           unfold supported in Htr. by rewrite Hs in Htr.
      * inversion Hrun; subst. eexists. split; [done|]. by apply ST_stop.
      * inversion Hrun; subst. eexists. split; [done|]. by apply ST_stop.
    + (* no quality parameter: the inner loop is skipped *)
      unfold quality_fuel in Hrun.
      rewrite quality_loop_unsupported in Hrun by done.
      case_bool_decide as Hfix.
      * unfold with_quality in Hrun.
        destruct (str_in "quality" (map fst kw)).
        -- inversion Hrun; subst. exists []. rewrite add_log_nil.
           split; [done|]. apply (ST_stop env fmt kw _ work 0). simpl. lia.
        -- rewrite try_save_run in Hrun. inversion Hrun; subst.
           eexists. split; [done|]. by apply (ST_final env fmt kw false).
      * apply IH in Hrun as (tr & -> & Htr).
        exists tr. split; [done|].
        apply (ST_next env fmt kw false work tr); [done|].
        unfold supported in Htr. by rewrite Hs in Htr.
    + unfold quality_fuel in Hrun.
      erewrite quality_loop_query_raises in Hrun by eassumption.
      inversion Hrun; subst. exists []. rewrite add_log_nil.
      split; [done|]. apply (ST_stop env fmt kw _ work 0). lia.
Qed.


End Loops.

(** ** Shapes of the runs *)

Section Traces.
Context (env : Env).

Lemma Sorted_app_link {A} (R : A -> A -> Prop) (l1 l2 : list A) :
  Sorted R l1 -> Sorted R l2 ->
  (forall x y, last l1 = Some x -> head l2 = Some y -> R x y) ->
  Sorted R (l1 ++ l2).
Proof.
  intros H1 H2 Hlink. induction l1 as [|a l1 IH]; [done|].
  simpl. apply Sorted_inv in H1 as [H1 Hhd]. constructor.
  - apply IH; [done|]. intros x y Hx Hy. apply Hlink; [|done].
    destruct l1; [done|]. done.
  - destruct l1 as [|b l1]; simpl.
    + destruct l2 as [|y l2]; constructor. by apply Hlink.
    + constructor. by inversion Hhd.
Qed.

Lemma candidates_app t1 t2 :
  candidates (t1 ++ t2) = candidates t1 ++ candidates t2.
Proof. unfold candidates. apply omap_app. Qed.

Lemma candidate_save_at work fmt kw q :
  candidate (save_at work fmt kw q) = Some (size work, q).
Proof. reflexivity. Qed.

Lemma candidates_single work fmt kw q :
  candidates [save_at work fmt kw q] = [(size work, q)].
Proof. reflexivity. Qed.

Lemma candidates_level work fmt kw q k :
  candidates (level work fmt kw q k) = map (pair (size work)) (qseq q k).
Proof.
  unfold level, candidates. induction (qseq q k) as [|x l IH]; [done|].
  simpl. f_equal. exact IH.
Qed.

Lemma qseq_elem q k x :
  In x (qseq q k) -> exists i, (i < k)%nat /\ x = q - QUALITY_STEP * Z.of_nat i.
Proof.
  unfold qseq. rewrite in_map_iff. intros (i & <- & Hi).
  apply in_seq in Hi. exists i. split; [lia|done].
Qed.

Lemma qseq_sorted (sz : Z * Z) q k : Sorted quality_step_ok (map (pair sz) (qseq q k)).
Proof.
  revert q. induction k as [|k IH]; intros q; [constructor|].
  rewrite qseq_S. simpl. constructor; [apply IH|].
  destruct k as [|k]; [constructor|]. rewrite qseq_S. simpl. constructor.
  unfold quality_step_ok. simpl. rewrite decide_True by done.
  unfold QUALITY_STEP. lia.
Qed.

Lemma qseq_bounds k :
  (k <= 16)%nat -> Forall (fun q => MIN_QUALITY <= q <= 95) (qseq 95 k).
Proof.
  intros Hk. apply List.Forall_forall. intros x Hx.
  apply qseq_elem in Hx as (i & Hi & ->).
  unfold MIN_QUALITY, QUALITY_STEP. lia.
Qed.

Lemma head_level (sz : Z * Z) q k c :
  head (map (pair sz) (qseq q k)) = Some c -> c = (sz, q).
Proof. destruct k; [done|]. rewrite qseq_S. simpl. congruence. Qed.

Lemma last_level16 (sz : Z * Z) : last (map (pair sz) (qseq 95 16)) = Some (sz, MIN_QUALITY).
Proof. reflexivity. Qed.

(** Candidates of a search in a format with a quality parameter. *)
Lemma search_trace_quality fmt kw work tr :
  search_trace env fmt kw true work tr ->
  Sorted quality_step_ok (candidates tr)
  /\ Forall floor_to_95 (candidates tr)
  /\ (forall c, head (candidates tr) = Some c -> c = (size work, 95))
  /\ List.length (candidates tr) = List.length tr.
Proof.
  induction 1 as [work k Hk | work Hfix | work tr Hne Htr (IHs & IHb & IHh & IHl)].
  - rewrite candidates_level. split; [apply qseq_sorted|]. split.
    + apply Forall_map. eapply Forall_impl; [apply qseq_bounds; done|].
      intros q Hq. exact Hq.
    + split; [apply head_level|]. unfold level. by rewrite !length_map.
  - rewrite candidates_app, candidates_level, candidates_single.
    change (klevel true) with 16%nat.
    change (final_quality true) with MIN_QUALITY. split.
    + apply Sorted_app_link; [apply qseq_sorted|repeat constructor|].
      intros x y Hx [= <-]. rewrite last_level16 in Hx. injection Hx as <-.
      unfold quality_step_ok. simpl. by rewrite decide_True.
    + split.
      * apply Forall_app. split.
        -- apply Forall_map. eapply Forall_impl; [apply qseq_bounds; done|].
           intros q Hq. exact Hq.
        -- repeat constructor; simpl; unfold MIN_QUALITY; lia.
      * split; [intros c Hc; by injection Hc as <-|].
        unfold level. by rewrite !length_app, !length_map.
  - rewrite candidates_app, candidates_level.
    change (klevel true) with 16%nat. split.
    + apply Sorted_app_link; [apply qseq_sorted|done|].
      intros x y Hx Hy. rewrite last_level16 in Hx. injection Hx as <-.
      apply IHh in Hy as ->. unfold quality_step_ok. simpl.
      by rewrite decide_False.
    + split.
      * apply Forall_app. split; [|done].
        apply Forall_map. eapply Forall_impl; [apply qseq_bounds; done|].
        intros q Hq. exact Hq.
      * split; [intros c Hc; by injection Hc as <-|].
        unfold level. rewrite !length_app, !length_map. unfold level in IHl.
        by rewrite IHl.
Qed.

(** Without a quality parameter there is at most one encoding, asked at 95. *)
Lemma search_trace_plain fmt kw work tr :
  search_trace env fmt kw false work tr ->
  tr = [] \/ exists final, tr = [save_at final fmt kw 95].
Proof.
  induction 1 as [work k Hk | work Hfix | work tr Hne Htr IH].
  - left. simpl in Hk. by replace k with 0%nat by lia.
  - right. by exists work.
  - done.
Qed.

(** *** Dimensions *)

Lemma no_larger_refl s : no_larger s s.
Proof. unfold no_larger. lia. Qed.

Lemma no_larger_trans s1 s2 s3 :
  no_larger s1 s2 -> no_larger s2 s3 -> no_larger s1 s3.
Proof. unfold no_larger. lia. Qed.

Lemma new_size_no_larger s : at_least_1x1 s -> no_larger s (new_size_of s).
Proof.
  destruct s as [w h]. intros [Hw Hh]. rewrite new_size_of_eq.
  split; simpl in *; by apply shrunk_dim_le.
Qed.

Lemma new_size_at_least s : at_least_1x1 (new_size_of s).
Proof. rewrite new_size_of_eq. split; simpl; apply shrunk_dim_ge1. Qed.

Lemma shrunk_from_refl s : shrunk_from s s.
Proof. by exists 0%nat. Qed.

Lemma shrunk_from_step s0 s : shrunk_from (new_size_of s0) s -> shrunk_from s0 s.
Proof. intros [j ->]. exists (S j). by rewrite Nat.iter_succ_r. Qed.

Lemma Sorted_weaken_head (a b : Z * Z) l :
  no_larger b a -> Sorted no_larger (a :: l) -> Sorted no_larger (b :: l).
Proof.
  intros Hba Hs. apply Sorted_inv in Hs as [Hs Hhd]. constructor; [done|].
  destruct l as [|x l]; constructor. inversion Hhd; subst.
  by eapply no_larger_trans.
Qed.

Lemma Sorted_replicate_head (a : Z * Z) k l :
  Sorted no_larger (a :: l) -> Sorted no_larger (a :: replicate k a ++ l).
Proof.
  intros Hs. induction k as [|k IH]; [done|]. simpl.
  constructor; [done|]. constructor. apply no_larger_refl.
Qed.

Lemma Sorted_pair (a b : Z * Z) : no_larger a b -> Sorted no_larger [a; b].
Proof. intros H. constructor; [repeat constructor|by constructor]. Qed.

Lemma Sorted_one (a : Z * Z) : Sorted no_larger [a].
Proof. repeat constructor. Qed.

Lemma saved_sizes_app t1 t2 :
  saved_sizes (t1 ++ t2) = saved_sizes t1 ++ saved_sizes t2.
Proof. unfold saved_sizes. apply omap_app. Qed.

Lemma saved_sizes_level work fmt kw q k :
  saved_sizes (level work fmt kw q k) = replicate k (size work).
Proof.
  revert q. induction k as [|k IH]; intros q; [done|].
  rewrite level_S. simpl. f_equal. apply IH.
Qed.

Lemma Forall_replicate_same {A} (P : A -> Prop) k a :
  P a -> Forall P (replicate k a).
Proof. intros Ha. induction k; constructor; done. Qed.

(** Dimensions along a search. *)
Lemma search_trace_sizes fmt kw b work tr :
  search_trace env fmt kw b work tr ->
  at_least_1x1 (size work) ->
  Sorted no_larger (size work :: saved_sizes tr)
  /\ Forall at_least_1x1 (saved_sizes tr)
  /\ Forall (shrunk_from (size work)) (saved_sizes tr).
Proof.
  induction 1 as [work k Hk | work Hfix | work tr Hne Htr IH]; intros H1.
  - rewrite saved_sizes_level. split.
    + rewrite <- (app_nil_r (replicate _ _)).
      apply Sorted_replicate_head, Sorted_one.
    + split; apply Forall_replicate_same; [done|apply shrunk_from_refl].
  - rewrite saved_sizes_app, saved_sizes_level.
    change (saved_sizes [save_at work fmt kw (final_quality b)])
      with [size work]. split.
    + apply Sorted_replicate_head, Sorted_pair, no_larger_refl.
    + split; apply Forall_app; split;
        try apply Forall_replicate_same; try done;
        try apply shrunk_from_refl.
      * by constructor.
      * constructor; [apply shrunk_from_refl|constructor].
  - rewrite saved_sizes_app, saved_sizes_level.
    destruct IH as (IHs & IH1 & IHr); [apply new_size_at_least|].
    simpl in IHs. split.
    + apply Sorted_replicate_head.
      eapply Sorted_weaken_head; [|exact IHs]. by apply new_size_no_larger.
    + split; apply Forall_app; split;
        try apply Forall_replicate_same; try done; try apply shrunk_from_refl.
      eapply Forall_impl; [exact IHr|]. intros s. apply shrunk_from_step.
Qed.

(** Every run of the PNG shrink loop. *)
Lemma png_loop_run n : forall path work data w r w',
  png_loop env n path work data w = (r, w') ->
  exists ims,
    (at_least_1x1 (size work) -> Sorted no_larger (size work :: map size ims))
    /\ Forall (fun im => at_least_1x1 (size im)
                         /\ shrunk_from (size work) (size im)) ims
    /\ match r with
       | Val PngWritten =>
           exists d, w' = {| fs := <[path := d]> (fs w);
                             log := log w ++ map png_save ims ++ [EvWrite path d] |}
       | _ => w' = add_log w (map png_save ims)
       end.
Proof.
  induction n as [|n IH]; intros path work data w r w' Hrun.
  - inversion Hrun; subst. exists []. rewrite add_log_nil.
    split; [intros _; apply Sorted_one|]. split; [constructor|done].
  - simpl in Hrun. case_bool_decide as Hfix.
    + inversion Hrun; subst. exists []. rewrite add_log_nil.
      split; [intros _; apply Sorted_one|]. split; [constructor|done].
    + unfold bind at 1 in Hrun. rewrite try_save_run in Hrun.
      set (work' := resize env work (new_size_of (size work))) in *.
      assert (Hhere : at_least_1x1 (size work')
                      /\ shrunk_from (size work) (size work')).
      { split; [apply new_size_at_least|]. apply shrunk_from_step.
        apply shrunk_from_refl. }
      destruct (Image_save env work' "PNG" kw_png) as [d|e].
      * destruct (len d <=? TARGET_SIZE).
        -- inversion Hrun; subst. exists [work']. split.
           { intros H1. by apply Sorted_pair, new_size_no_larger. }
           split; [by constructor|]. exists d. simpl.
           by rewrite <- app_assoc.
        -- apply IH in Hrun as (ims & Hs & Hall & Hr). exists (work' :: ims).
           split.
           { intros H1. simpl. constructor.
             - apply Hs, new_size_at_least.
             - constructor. by apply new_size_no_larger. }
           split.
           { constructor; [done|]. eapply Forall_impl; [exact Hall|].
             intros im [? ?]. split; [done|]. by apply shrunk_from_step. }
           destruct r as [[|d']|e|]; simpl.
           ++ destruct Hr as [d' ->]. exists d'. simpl.
              by rewrite <- app_assoc.
           ++ by rewrite Hr, add_log_app.
           ++ by rewrite Hr, add_log_app.
           ++ by rewrite Hr, add_log_app.
      * inversion Hrun; subst. exists [work']. split.
        { intros H1. by apply Sorted_pair, new_size_no_larger. }
        split; [by constructor|done].
Qed.

End Traces.

(** ** The search: claims *)

Section Claims.
Context (env : Env).

Lemma progressive_compress_unfold img fmt kw w :
  _progressive_compress env img fmt true kw w
  = scale_loop env (scale_fuel (size img)) (copy img) fmt kw 95 w.
Proof. reflexivity. Qed.

Lemma new_size_scaled_down s :
  at_least_1x1 s -> new_size_of s = scaled_down s.
Proof.
  destruct s as [w h]. intros [Hw Hh]. simpl in *.
  unfold new_size_of, scaled_down, scale_dim. simpl.
  by rewrite !Z.quot_div_nonneg by lia.
Qed.

Lemma shrunk_from_scaled s0 s :
  at_least_1x1 s0 -> shrunk_from s0 s -> scaled_from s0 s.
Proof.
  intros H0 [j ->]. exists j.
  assert (Nat.iter j new_size_of s0 = Nat.iter j scaled_down s0
          /\ at_least_1x1 (Nat.iter j new_size_of s0)) as [H _]; [|done].
  induction j as [|j [IH1 IH2]]; [done|]. simpl. split.
  - rewrite <- IH1. by apply new_size_scaled_down.
  - apply new_size_at_least.
Qed.

End Claims.

(** C5: within one resolution level the qualities tried never go up and stay
    at or above the floor; the first encoding after a downscale is asked at
    95 again. *)
Theorem quality_sequence_per_level env img fmt kw w :
  exists tr,
    snd (_progressive_compress env img fmt true kw w) = add_log w tr
    /\ List.length (candidates tr) = List.length tr
    /\ Sorted quality_step_ok (candidates tr)
    /\ Forall floor_to_95 (candidates tr)
    /\ (forall c, head (candidates tr) = Some c -> snd c = 95).
Proof.
  rewrite progressive_compress_unfold.
  destruct (scale_loop env _ (copy img) fmt kw 95 w) as [r w'] eqn:Hrun.
  apply scale_loop_trace in Hrun as (tr & -> & Htr).
  exists tr. split; [done|].
  destruct (supported env fmt).
  - apply search_trace_quality in Htr as (Hs & Hb & Hh & Hl).
    repeat split; try done. intros c Hc. by rewrite (Hh c Hc).
  - apply search_trace_plain in Htr as [->|[final ->]].
    + repeat split; try constructor. done.
    + rewrite candidates_single. repeat split.
      * repeat constructor.
      * repeat constructor; simpl; unfold MIN_QUALITY; lia.
      * intros c [= <-]. done.
Qed.

Lemma saved_sizes_png ims : saved_sizes (map png_save ims) = map size ims.
Proof. induction ims as [|im ims IH]; [done|]. simpl. f_equal. exact IH. Qed.

Lemma saved_sizes_length_level env fmt kw b work tr :
  search_trace env fmt kw b work tr ->
  List.length (saved_sizes tr) = List.length tr.
Proof.
  induction 1 as [work k Hk | work Hfix | work tr Hne Htr IH];
    rewrite ?saved_sizes_app, ?saved_sizes_level, ?length_app,
            ?length_replicate; unfold level; rewrite ?length_map;
    unfold qseq; rewrite ?length_map, ?length_seq; try done.
  by rewrite IH.
Qed.

(** C9: on an image of at least 1x1 the search loop terminates; a shrink
    step that changes the size makes neither dimension larger and one of them
    strictly smaller, and the only size a step leaves alone is 1x1. *)
Theorem search_terminates env img fmt quality_first kw w :
  at_least_1x1 (size img) ->
  fst (_progressive_compress env img fmt quality_first kw w) <> Diverge
  /\ (forall n q kw',
        (scale_fuel (size img) <= n)%nat ->
        scale_loop env n (copy img) fmt kw' q w
        = scale_loop env (scale_fuel (size img)) (copy img) fmt kw' q w)
  /\ (forall s, at_least_1x1 s -> new_size_of s <> s ->
        no_larger s (new_size_of s)
        /\ (fst (new_size_of s) < fst s \/ snd (new_size_of s) < snd s))
  /\ (forall s, new_size_of s = s <-> s = (1, 1)).
Proof.
  intros H1. split; [|split; [|split]].
  - unfold _progressive_compress.
    destruct (if quality_first then _ else _) as [q kw'].
    apply scale_loop_total. apply size_rank_fuel.
  - intros n q kw' Hn. apply scale_loop_fuel.
    + pose proof (size_rank_fuel (size img)). simpl. lia.
    + apply size_rank_fuel.
  - intros s Hs Hne. pose proof (new_size_no_larger s Hs) as Hle.
    split; [done|]. destruct s as [a b]. destruct Hle as [Ha Hb].
    rewrite new_size_of_eq in *. simpl in *.
    destruct (decide (shrunk_dim a = a)) as [Ea|Ea];
      destruct (decide (shrunk_dim b = b)) as [Eb|Eb]; try lia.
    congruence.
  - apply new_size_fix.
Qed.

Lemma search_terminates_witness :
  at_least_1x1 (size (demo_image 80 72 "RGB"))
  /\ fst (_progressive_compress (demo_env 600000 false)
            (demo_image 80 72 "RGB") "JPEG" true kw_optimize empty_world)
     <> Diverge.
Proof.
  assert (H : at_least_1x1 (size (demo_image 80 72 "RGB")))
    by (unfold at_least_1x1; simpl; lia).
  split; [exact H|].
  exact (proj1 (search_terminates (demo_env 600000 false)
                  (demo_image 80 72 "RGB") "JPEG" true kw_optimize
                  empty_world H)).
Defined.

(** Where the capability test answers that the format has a quality
    parameter (the second branch of line 32, or a registry that accepts the
    query): the search starts at quality 95 on the unscaled image and lowers
    the quality by [QUALITY_STEP] after every encoding that is over budget;
    the first encoding within budget is returned at once, with nothing
    encoded after it; when none fits, the inner loop is left at
    [MIN_QUALITY], after 95, 90, ..., 20. *)
Theorem quality_search_first_fit env img fmt kw w :
  supports_quality env fmt = Ok true ->
  str_in "quality" (map fst kw) = false ->
  (forall (k : nat) data,
      (k <= 15)%nat ->
      (forall i, (i < k)%nat ->
         over_budget env (copy img) fmt kw (95 - QUALITY_STEP * Z.of_nat i)
         = true) ->
      Image_save env (copy img) fmt
        (("quality", PyInt (95 - QUALITY_STEP * Z.of_nat k)) :: kw) = Ok data ->
      len data <= TARGET_SIZE ->
      _progressive_compress env img fmt true kw w
      = (Val data, add_log w (level (copy img) fmt kw 95 (S k))))
  /\ ((forall i, (i <= 15)%nat ->
         over_budget env (copy img) fmt kw (95 - QUALITY_STEP * Z.of_nat i)
         = true) ->
      quality_loop env (quality_fuel 95) (copy img) fmt kw 95 w
      = (Val (QBreak MIN_QUALITY), add_log w (level (copy img) fmt kw 95 16))).
Proof.
  intros Hs Hk. split.
  - intros k data Hk15 Hover Hfit Hlen.
    rewrite progressive_compress_unfold.
    destruct (scale_fuel (size img)) as [|n] eqn:Hn;
      [unfold scale_fuel in Hn; lia|].
    rewrite scale_loop_step.
    rewrite (quality_loop_first_fit env k _ _ _ _ _ _ data); try done.
    + unfold quality_fuel, MIN_QUALITY. lia.
    + intros i Hi. split; [by apply Hover|].
      unfold MIN_QUALITY, QUALITY_STEP. lia.
  - intros Hover.
    rewrite (quality_loop_exhaust env 15); try done.
    + unfold quality_fuel, MIN_QUALITY. lia.
    + intros i Hi. unfold MIN_QUALITY, QUALITY_STEP. lia.
Qed.

Lemma quality_search_first_fit_witness :
  supports_quality (demo_env 0 false) "JPEG" = Ok true
  /\ str_in "quality" (map fst kw_optimize) = false
  /\ _progressive_compress (demo_env 0 false) (demo_image 80 72 "RGB") "JPEG"
       true kw_optimize empty_world
     = (Val (Bytes 518400 0),
        add_log empty_world
          (level (copy (demo_image 80 72 "RGB")) "JPEG" kw_optimize 95 2)).
Proof.
  assert (Hs : supports_quality (demo_env 0 false) "JPEG" = Ok true)
    by reflexivity.
  assert (Hk : str_in "quality" (map fst kw_optimize) = false) by reflexivity.
  split; [exact Hs|]. split; [exact Hk|].
  apply (proj1 (quality_search_first_fit (demo_env 0 false)
                  (demo_image 80 72 "RGB") "JPEG" kw_optimize empty_world
                  Hs Hk) 1%nat).
  - lia.
  - intros i Hi. assert (i = 0%nat) as -> by lia. reflexivity.
  - reflexivity.
  - vm_compute. discriminate.
Defined.

(** ** Files *)

Section Files.
Context (env : Env).

(** *** Paths *)

Lemma str_take_drop n s : str_take n s +:+ str_drop n s = s.
Proof.
  revert s. induction n as [|n IH]; intros [|c s]; simpl; try done.
  change (String c (str_take n s +:+ str_drop n s) = String c s).
  by rewrite IH.
Qed.

Lemma append_empty_r s : s +:+ "" = s.
Proof.
  induction s as [|c s IH]; [done|].
  change (String c (s +:+ "") = String c s). by rewrite IH.
Qed.

Lemma splitext_concat p : fst (splitext p) +:+ snd (splitext p) = p.
Proof.
  unfold splitext. destruct (_ && _); simpl.
  - apply str_take_drop.
  - apply append_empty_r.
Qed.

Lemma append_inj_r s t1 t2 : s +:+ t1 = s +:+ t2 -> t1 = t2.
Proof.
  induction s as [|c s IH]; [done|].
  change (String c (s +:+ t1) = String c (s +:+ t2) -> t1 = t2).
  intros [= H]. by apply IH.
Qed.

Lemma new_extension_differs p ext new_ext :
  lower (snd (splitext p)) = ext ->
  lower new_ext <> ext ->
  fst (splitext p) +:+ new_ext <> p.
Proof.
  intros Hext Hne Heq. rewrite <- (splitext_concat p) in Heq at 2.
  apply append_inj_r in Heq. congruence.
Qed.

(** *** Events of a search *)

Lemma count_writes_app t1 t2 :
  count_writes (t1 ++ t2) = (count_writes t1 + count_writes t2)%nat.
Proof. unfold count_writes. by rewrite List.filter_app, length_app. Qed.

Lemma search_trace_saves fmt kw b work tr :
  search_trace env fmt kw b work tr -> Forall (saves_as fmt) tr.
Proof.
  assert (Hlevel : forall im q k, Forall (saves_as fmt) (level im fmt kw q k)).
  { intros im q k. unfold level. apply Forall_map, Forall_forall.
    intros x _. unfold save_at. by eexists _, _. }
  induction 1 as [work k Hk | work Hfix | work tr Hne Htr IH].
  - apply Hlevel.
  - apply Forall_app. split; [apply Hlevel|].
    constructor; [|constructor]. unfold save_at. by eexists _, _.
  - apply Forall_app. split; [apply Hlevel|done].
Qed.

Lemma saves_no_write fmt tr : Forall (saves_as fmt) tr -> count_writes tr = 0%nat.
Proof.
  induction 1 as [|e tr (im & kw & ->) _ IH]; [done|]. exact IH.
Qed.

(** A search only encodes: it returns or raises, and the world changes by
    the encodings logged. *)
Lemma search_cases img fmt kw w :
  exists tr,
    Forall (saves_as fmt) tr
    /\ ((exists data, _progressive_compress env img fmt true kw w
                      = (Val data, add_log w tr))
        \/ (exists e, _progressive_compress env img fmt true kw w
                      = (Raise e, add_log w tr))).
Proof.
  pose proof (scale_loop_total env (scale_fuel (size img)) (copy img) fmt kw
                95 w (size_rank_fuel (size img))) as Htot.
  rewrite progressive_compress_unfold.
  destruct (scale_loop env _ (copy img) fmt kw 95 w) as [r w'] eqn:Hrun.
  apply scale_loop_trace in Hrun as (tr & -> & Htr).
  exists tr. split; [by eapply search_trace_saves|].
  destruct r as [d|e|]; [left|right|done]; by eexists.
Qed.

(** Reasoning rule for a search followed by more code. *)
Lemma bind_search {B} img fmt kw (k : bytes -> M B) w
    (P : outcome B * World -> Prop) :
  (forall tr data, Forall (saves_as fmt) tr -> P (k data (add_log w tr))) ->
  (forall tr e, Forall (saves_as fmt) tr -> P (Raise e, add_log w tr)) ->
  P (bind (_progressive_compress env img fmt true kw) k w).
Proof.
  intros Hval Hexc.
  destruct (search_cases img fmt kw w) as (tr & Htr & [[d Hrun]|[e Hrun]]).
  - rewrite (bind_val _ _ _ _ _ Hrun). by apply Hval.
  - rewrite (bind_raise _ _ _ _ _ Hrun). by apply Hexc.
Qed.

(** *** One file *)

Lemma png_loop_total n : forall path work data w,
  (size_rank (size work) < n)%nat ->
  fst (png_loop env n path work data w) <> Diverge.
Proof.
  induction n as [|n IH]; intros path work data w Hn; [lia|].
  simpl. case_bool_decide as Hfix; [done|].
  unfold bind at 1. rewrite try_save_run.
  destruct (Image_save env _ "PNG" kw_png) as [d|e]; [|done].
  destruct (len d <=? TARGET_SIZE); [done|].
  apply IH. simpl. apply size_rank_new in Hfix. lia.
Qed.

Lemma png_saves_no_write ims : count_writes (map png_save ims) = 0%nat.
Proof. induction ims as [|im ims IH]; [done|]. exact IH. Qed.

Lemma tidy_raise w tr e :
  count_writes tr = 0%nat -> tidy w (Raise e, add_log w tr).
Proof.
  intros Htr. exists tr. simpl. split; [done|]. split; [lia|].
  split; [done|]. by intros _ _.
Qed.

Lemma tidy_write w tr path data :
  count_writes tr = 0%nat -> tidy w (write_file path data (add_log w tr)).
Proof.
  intros Htr. exists (tr ++ [EvWrite path data]). simpl.
  split; [by rewrite app_assoc|].
  split; [rewrite count_writes_app, Htr; unfold count_writes; simpl; lia|].
  split; [done|]. by intros e.
Qed.

Lemma replace_by_run new_path p data msg w :
  is_Some (fs w !! p) ->
  replace_by new_path p data msg w
  = (Val tt, {| fs := delete p (<[new_path := data]> (fs w));
                log := log w ++ [EvWrite new_path data; EvRemove p;
                                 EvPrint msg] |}).
Proof.
  intros Hp. unfold replace_by, bind, write_file, os_remove, print, emit.
  simpl.
  assert (is_Some (<[new_path := data]> (fs w) !! p)) as [x Hx].
  { destruct (decide (new_path = p)) as [->|Hne].
    - rewrite lookup_insert_eq. by eexists.
    - by rewrite lookup_insert_ne. }
  rewrite Hx. simpl. f_equal. f_equal.
  by rewrite <- !app_assoc.
Qed.

Lemma tidy_replace w tr new_path p data msg :
  is_Some (fs w !! p) -> count_writes tr = 0%nat ->
  tidy w (replace_by new_path p data msg (add_log w tr)).
Proof.
  intros Hp Htr. rewrite replace_by_run by done.
  exists (tr ++ [EvWrite new_path data; EvRemove p; EvPrint msg]). simpl.
  split; [by rewrite app_assoc|].
  split; [rewrite count_writes_app, Htr; unfold count_writes; simpl; lia|].
  split; [done|]. by intros e.
Qed.

Lemma compress_body_tidy p w : tidy w (compress_body env p w).
Proof.
  unfold compress_body. unfold bind at 1. unfold Image_open_path.
  destruct (fs w !! p) as [content|] eqn:Hp;
    [|rewrite <- (add_log_nil w) at 2; by apply tidy_raise].
  destruct (Image_open env p content) as [img|e];
    unfold lift, ret, raise; cbv beta iota zeta;
    [|rewrite <- (add_log_nil w) at 2; by apply tidy_raise].
  destruct (str_in (lower (snd (splitext p))) [".jpg"; ".jpeg"]).
  { apply bind_search; intros tr ? Htr; apply saves_no_write in Htr;
      [by apply tidy_write|by apply tidy_raise]. }
  destruct (String.eqb (lower (snd (splitext p))) ".png").
  { destruct (has_alpha env img).
    - (* transparent PNG *)
      unfold bind at 1. rewrite try_save_run.
      destruct (Image_save env (copy img) "PNG" kw_png) as [d|e];
        [|by apply tidy_raise].
      destruct (len d <=? TARGET_SIZE); [by apply tidy_write|].
      unfold bind at 1.
      pose proof (png_loop_total (scale_fuel (size (copy img))) p (copy img) d
                    (add_log w [EvSave (copy img) "PNG" kw_png])
                    (size_rank_fuel _)) as Htot.
      destruct (png_loop env _ p (copy img) d _) as [r w1] eqn:Hloop.
      apply png_loop_run in Hloop as (ims & _ & _ & Hr).
      destruct r as [[|d']|e|]; [| | |done].
      + destruct Hr as [d' ->].
        exists (EvSave (copy img) "PNG" kw_png
                  :: map png_save ims ++ [EvWrite p d']). simpl.
        split; [by rewrite <- app_assoc|].
        split; [|split; [done|by intros e]].
        change (count_writes (map png_save ims ++ [EvWrite p d']) <= 1)%nat.
        rewrite count_writes_app, png_saves_no_write. unfold count_writes. simpl. lia.
      + subst w1. rewrite add_log_app. simpl.
        apply (bind_search _ _ _ (fun data =>
                 replace_by (fst (splitext p) +:+ ".webp") p data
                            (MsgToWebp (fst (splitext p) +:+ ".webp")))).
        * intros tr data Htr. rewrite add_log_app.
          apply tidy_replace; [by rewrite Hp|].
          apply saves_no_write in Htr.
          change (count_writes (map png_save (copy img :: ims) ++ tr) = 0)%nat.
          by rewrite count_writes_app, png_saves_no_write, Htr.
        * intros tr e Htr. rewrite add_log_app. apply tidy_raise.
          apply saves_no_write in Htr.
          change (count_writes (map png_save (copy img :: ims) ++ tr) = 0)%nat.
          by rewrite count_writes_app, png_saves_no_write, Htr.
      + subst w1. rewrite add_log_app. apply tidy_raise.
        apply (png_saves_no_write (copy img :: ims)).
    - (* opaque PNG *)
      apply (bind_search _ _ _ (fun data =>
               replace_by (fst (splitext p) +:+ ".jpg") p data
                          (MsgToJpeg (fst (splitext p) +:+ ".jpg")))).
      + intros tr data Htr. apply tidy_replace; [by rewrite Hp|].
        by apply saves_no_write in Htr.
      + intros tr e Htr. apply tidy_raise. by apply saves_no_write in Htr. }
  destruct (String.eqb (lower (snd (splitext p))) ".webp").
  { apply bind_search; intros tr ? Htr; apply saves_no_write in Htr;
      [by apply tidy_write|by apply tidy_raise]. }
  (* any other extension *)
  unfold try_except.
  destruct (search_cases img (format_or_png img) kw_optimize w)
    as (tr & Htr & [[d Hrun]|[e Hrun]]); apply saves_no_write in Htr.
  - rewrite (bind_val _ _ _ _ _ Hrun). simpl. by apply tidy_write.
  - rewrite (bind_raise _ _ _ _ _ Hrun).
    apply bind_search; intros tr' ? Htr'; apply saves_no_write in Htr';
      rewrite add_log_app;
      [apply tidy_write|apply tidy_raise];
      by rewrite count_writes_app, Htr, Htr'.
Qed.

Lemma compress_image_run p w :
  compress_image env p w
  = match compress_body env p w with
    | (Raise e, w1) => (Val tt, add_log w1 [EvPrint (MsgFailed p e)])
    | r => r
    end.
Proof.
  unfold compress_image, try_except.
  by destruct (compress_body env p w) as [[[]|e|] w1].
Qed.

(** [compress_image] itself never raises and never loops. *)
Lemma compress_image_returns p w : fst (compress_image env p w) = Val tt.
Proof.
  rewrite compress_image_run.
  destruct (compress_body_tidy p w) as (tr & _ & _ & Hdiv & _).
  by destruct (compress_body env p w) as [[[]|e|] w1].
Qed.

Lemma compress_image_writes p w :
  exists tr, log (snd (compress_image env p w)) = log w ++ tr
             /\ (count_writes tr <= 1)%nat.
Proof.
  rewrite compress_image_run.
  destruct (compress_body_tidy p w) as (tr & Hlog & Hcnt & Hdiv & Hexc).
  destruct (compress_body env p w) as [[[]|e|] w1]; simpl in *.
  - by exists tr.
  - exists (tr ++ [EvPrint (MsgFailed p e)]). rewrite Hlog, app_assoc.
    split; [done|]. rewrite count_writes_app. unfold count_writes at 2.
    simpl. lia.
  - by exists tr.
Qed.

(** *** Transparent PNG files *)

Lemma within_raise {A} (Q : event -> Prop) w tr e :
  Forall Q tr -> within (A := A) Q w (Raise e, add_log w tr).
Proof. intros H. by exists tr. Qed.

Lemma within_write (Q : event -> Prop) w tr path data :
  Forall Q tr -> Q (EvWrite path data) ->
  within Q w (write_file path data (add_log w tr)).
Proof.
  intros H Hw. exists (tr ++ [EvWrite path data]). simpl.
  split; [by rewrite app_assoc|]. apply Forall_app. by repeat constructor.
Qed.

Lemma within_replace (Q : event -> Prop) w tr new_path p data msg :
  is_Some (fs w !! p) -> Forall Q tr ->
  Q (EvWrite new_path data) -> Q (EvRemove p) -> Q (EvPrint msg) ->
  within Q w (replace_by new_path p data msg (add_log w tr)).
Proof.
  intros Hp H Hw Hr Hm. rewrite replace_by_run by done.
  exists (tr ++ [EvWrite new_path data; EvRemove p; EvPrint msg]). simpl.
  split; [by rewrite app_assoc|]. apply Forall_app. by repeat constructor.
Qed.

Lemma png_saves_keep_alpha p ims : Forall (keeps_alpha p) (map png_save ims).
Proof. apply Forall_map, Forall_forall. intros im _. by left. Qed.

Lemma webp_saves_keep_alpha p tr :
  Forall (saves_as "WEBP") tr -> Forall (keeps_alpha p) tr.
Proof.
  intros H. eapply Forall_impl; [exact H|].
  intros e (im & kw & ->). by right.
Qed.

Lemma transparent_png_events p w content img :
  lower (snd (splitext p)) = ".png" ->
  fs w !! p = Some content ->
  Image_open env p content = Ok img ->
  has_alpha env img = true ->
  within (keeps_alpha p) w (compress_body env p w).
Proof.
  intros Hext Hp Himg Halpha.
  unfold compress_body. unfold bind at 1. unfold Image_open_path.
  rewrite Hp, Himg. unfold lift, ret, raise; cbv beta iota zeta.
  rewrite Hext. change (str_in ".png" [".jpg"; ".jpeg"]) with false.
  change (String.eqb ".png" ".png") with true. cbv iota. rewrite Halpha.
  unfold bind at 1. rewrite try_save_run.
  assert (Hfirst : Forall (keeps_alpha p) [EvSave (copy img) "PNG" kw_png])
    by (repeat constructor; by left).
  destruct (Image_save env (copy img) "PNG" kw_png) as [d|e];
    [|by apply within_raise].
  destruct (len d <=? TARGET_SIZE); [apply within_write; [done|by left]|].
  unfold bind at 1.
  destruct (png_loop env _ p (copy img) d _) as [r w1] eqn:Hloop.
  apply png_loop_run in Hloop as (ims & _ & _ & Hr).
  pose proof (png_saves_keep_alpha p (copy img :: ims)) as Hpng.
  destruct r as [[|d']|e|].
  - destruct Hr as [d' ->].
    exists (map png_save (copy img :: ims) ++ [EvWrite p d']).
    split; [simpl; by rewrite <- app_assoc|].
    apply Forall_app. split; [done|]. repeat constructor.
  - subst w1. rewrite add_log_app. simpl.
    apply (bind_search _ _ _ (fun data =>
             replace_by (fst (splitext p) +:+ ".webp") p data
                        (MsgToWebp (fst (splitext p) +:+ ".webp")))).
    + intros tr data Htr. rewrite add_log_app.
      apply within_replace.
      * by rewrite Hp.
      * apply Forall_app. split; [done|by apply webp_saves_keep_alpha].
      * by right.
      * done.
      * done.
    + intros tr e Htr. rewrite add_log_app. apply within_raise.
      apply Forall_app. split; [done|by apply webp_saves_keep_alpha].
  - subst w1. rewrite add_log_app. by apply within_raise.
  - subst w1. rewrite add_log_app. by exists (map png_save (copy img :: ims)).
Qed.


End Files.

(** ** Files: claims *)

(** C3: encodings go to memory only: one attempt logs one [EvSave] and
    leaves the file system alone, a whole search does nothing but encode, and
    processing one file writes at most one file. *)
Theorem candidates_stay_in_memory env img fmt kw p w :
  snd (_try_save_to_bytes env img fmt kw w) = add_log w [EvSave img fmt kw]
  /\ (exists tr,
        snd (_progressive_compress env img fmt true kw w) = add_log w tr
        /\ Forall (saves_as fmt) tr
        /\ count_writes tr = 0%nat)
  /\ fs (snd (_progressive_compress env img fmt true kw w)) = fs w
  /\ (exists tr,
        log (snd (compress_image env p w)) = log w ++ tr
        /\ (count_writes tr <= 1)%nat).
Proof.
  assert (Hsearch : exists tr,
             snd (_progressive_compress env img fmt true kw w) = add_log w tr
             /\ Forall (saves_as fmt) tr /\ count_writes tr = 0%nat).
  { destruct (search_cases env img fmt kw w)
      as (tr & Htr & [[d Hrun]|[e Hrun]]);
      exists tr; rewrite Hrun; (split; [done|]);
      (split; [done|]); by eapply saves_no_write. }
  split; [by rewrite try_save_run|]. split; [exact Hsearch|].
  split; [|apply compress_image_writes].
  destruct Hsearch as (tr & -> & _). reflexivity.
Qed.

(** Where the JPEG search of an opaque PNG returns an encoding, it is
    written under the [.jpg] name and the PNG is removed; a PNG with alpha
    is only ever encoded as PNG or WebP and written in place or under the
    [.webp] name. *)
Theorem png_policy env p w content img :
  lower (snd (splitext p)) = ".png" ->
  fs w !! p = Some content ->
  Image_open env p content = Ok img ->
  (has_alpha env img = false ->
   forall data w1,
     _progressive_compress env (convert env img "RGB") "JPEG" true
       kw_optimize w = (Val data, w1) ->
     exists w2,
       compress_image env p w = (Val tt, w2)
       /\ log w2 = log w1 ++ [EvWrite (fst (splitext p) +:+ ".jpg") data;
                              EvRemove p;
                              EvPrint (MsgToJpeg (fst (splitext p) +:+ ".jpg"))]
       /\ fs w2 = delete p (<[fst (splitext p) +:+ ".jpg" := data]> (fs w))
       /\ fs w2 !! (fst (splitext p) +:+ ".jpg") = Some data
       /\ fs w2 !! p = None)
  /\ (has_alpha env img = true ->
      within (keeps_alpha p) w (compress_image env p w)).
Proof.
  intros Hext Hp Himg. split.
  - intros Halpha data w1 Hrun.
    assert (Hw1 : fs w1 = fs w).
    { destruct (search_cases env (convert env img "RGB") "JPEG" kw_optimize w)
        as (tr & _ & [[d H]|[e H]]); rewrite H in Hrun;
        by inversion Hrun. }
    assert (Hbody : compress_body env p w
                    = replace_by (fst (splitext p) +:+ ".jpg") p data
                        (MsgToJpeg (fst (splitext p) +:+ ".jpg")) w1).
    { unfold compress_body. unfold bind at 1. unfold Image_open_path.
      rewrite Hp, Himg. unfold lift, ret, raise; cbv beta iota zeta.
      rewrite Hext. change (str_in ".png" [".jpg"; ".jpeg"]) with false.
      change (String.eqb ".png" ".png") with true. cbv iota.
      rewrite Halpha. unfold replace_by. by rewrite (bind_val _ _ _ _ _ Hrun). }
    rewrite replace_by_run in Hbody by (rewrite Hw1, Hp; by eexists).
    rewrite compress_image_run, Hbody. eexists. split; [done|]. simpl.
    split; [done|]. rewrite Hw1. split; [done|].
    assert (fst (splitext p) +:+ ".jpg" <> p)
      by (eapply new_extension_differs; [exact Hext|done]).
    split.
    + rewrite lookup_delete_ne by done. apply lookup_insert_eq.
    + apply lookup_delete_eq.
  - intros Halpha. rewrite compress_image_run.
    destruct (transparent_png_events env p w content img Hext Hp Himg Halpha)
      as (tr & Hlog & Htr).
    destruct (compress_body env p w) as [[[]|e|] w1]; simpl in *.
    + by exists tr.
    + exists (tr ++ [EvPrint (MsgFailed p e)]). simpl.
      rewrite Hlog, app_assoc.
      split; [done|]. apply Forall_app. by repeat constructor.
    + by exists tr.
Qed.

Lemma png_policy_witness :
  lower (snd (splitext "a.png")) = ".png"
  /\ fs (demo_world "a.png" (demo_file 80 72 false 600000)) !! "a.png"
     = Some (demo_file 80 72 false 600000)
  /\ (exists w2,
        compress_image (demo_env 0 false) "a.png"
          (demo_world "a.png" (demo_file 80 72 false 600000)) = (Val tt, w2)
        /\ fs w2 !! "a.jpg" = Some (Bytes 518400 0)
        /\ fs w2 !! "a.png" = None).
Proof.
  assert (Hext : lower (snd (splitext "a.png")) = ".png") by reflexivity.
  assert (Hp : fs (demo_world "a.png" (demo_file 80 72 false 600000)) !! "a.png"
               = Some (demo_file 80 72 false 600000)) by reflexivity.
  split; [exact Hext|]. split; [exact Hp|].
  destruct (proj1 (png_policy (demo_env 0 false) "a.png" _ _ _ Hext Hp eq_refl)
              eq_refl (Bytes 518400 0) _ eq_refl)
    as (w2 & Hrun & _ & _ & Hnew & Hold).
  exists w2. split; [exact Hrun|]. split; [exact Hnew|exact Hold].
Defined.

Section Clean.
Context (env : Env).

Lemma cleanly_ret {A} (a : A) : cleanly env (ret a).
Proof. intros w a' w' [= <- <-]. exists []. by rewrite app_nil_r. Qed.

Lemma cleanly_raise {A} e : cleanly env (@raise A e).
Proof. intros w a w' H. discriminate. Qed.

Lemma cleanly_bind {A B} (m : M A) (k : A -> M B) :
  cleanly env m -> (forall a, cleanly env (k a)) -> cleanly env (bind m k).
Proof.
  intros Hm Hk w b w' Hrun.
  apply bind_inv in Hrun as [(a & w1 & Hm1 & Hk1)|[(e & _ & ?)|[_ ?]]];
    try discriminate.
  apply Hm in Hm1 as (t1 & Hl1 & Hc1). apply Hk in Hk1 as (t2 & Hl2 & Hc2).
  exists (t1 ++ t2). rewrite Hl2, Hl1, app_assoc. split; [done|].
  by rewrite existsb_app, Hc1, Hc2.
Qed.

Lemma cleanly_try_save img fmt kw : cleanly env (_try_save_to_bytes env img fmt kw).
Proof.
  intros w d w' Hrun. rewrite try_save_run in Hrun.
  destruct (Image_save env img fmt kw) as [d'|e] eqn:Hsave; [|discriminate].
  injection Hrun as _ <-. exists [EvSave img fmt kw]. split; [done|].
  simpl. by rewrite Hsave.
Qed.

Lemma cleanly_write path data : cleanly env (write_file path data).
Proof. intros w a w' [= _ <-]. by exists [EvWrite path data]. Qed.

Lemma cleanly_print msg : cleanly env (print msg).
Proof. intros w a w' [= _ <-]. by exists [EvPrint msg]. Qed.

Lemma cleanly_remove path : cleanly env (os_remove path).
Proof.
  intros w a w' Hrun. unfold os_remove in Hrun.
  destruct (fs w !! path); [|discriminate].
  injection Hrun as _ <-. by exists [EvRemove path].
Qed.

Lemma cleanly_lift {A} (r : result A) : cleanly env (lift r).
Proof. destruct r; [apply cleanly_ret|apply cleanly_raise]. Qed.

Lemma cleanly_open p : cleanly env (Image_open_path env p).
Proof.
  intros w img w' Hrun. unfold Image_open_path in Hrun.
  destruct (fs w !! p); [|discriminate]. by apply cleanly_lift in Hrun.
Qed.

Lemma cleanly_quality_loop n : forall work fmt kw q,
  cleanly env (quality_loop env n work fmt kw q).
Proof.
  induction n as [|n IH]; intros work fmt kw q; [by intros w a w' H|].
  simpl. apply cleanly_bind; [apply cleanly_lift|]. intros [|].
  - apply cleanly_bind; [apply cleanly_lift|]. intros kwq.
    apply cleanly_bind; [apply cleanly_try_save|]. intros data.
    destruct (_ || _); [|apply IH].
    destruct (len data <=? TARGET_SIZE); apply cleanly_ret.
  - apply cleanly_ret.
Qed.

Lemma cleanly_scale_loop n : forall work fmt kw q,
  cleanly env (scale_loop env n work fmt kw q).
Proof.
  induction n as [|n IH]; intros work fmt kw q; [by intros w a w' H|].
  cbn [scale_loop]. apply cleanly_bind; [apply cleanly_quality_loop|].
  intros [d|q']; [apply cleanly_ret|].
  case_bool_decide; [|apply IH].
  apply cleanly_bind; [apply cleanly_lift|]. intros kwq.
  apply cleanly_try_save.
Qed.

Lemma cleanly_search img fmt quality_first kw :
  cleanly env (_progressive_compress env img fmt quality_first kw).
Proof.
  unfold _progressive_compress.
  destruct (if quality_first then _ else _) as [q kw'].
  apply cleanly_scale_loop.
Qed.

Lemma cleanly_png_loop n : forall p work data,
  cleanly env (png_loop env n p work data).
Proof.
  induction n as [|n IH]; intros p work data; [by intros w a w' H|].
  simpl. case_bool_decide; [apply cleanly_ret|].
  apply cleanly_bind; [apply cleanly_try_save|]. intros d.
  destruct (len d <=? TARGET_SIZE); [|apply IH].
  apply cleanly_bind; [apply cleanly_write|]. intros _. apply cleanly_ret.
Qed.

Lemma four_extensions ext :
  str_in ext [".jpg"; ".jpeg"; ".png"; ".webp"]
  = str_in ext [".jpg"; ".jpeg"] || String.eqb ext ".png"
    || String.eqb ext ".webp".
Proof.
  unfold str_in. simpl.
  destruct (String.eqb ext ".jpg"), (String.eqb ext ".jpeg"),
    (String.eqb ext ".png"), (String.eqb ext ".webp"); reflexivity.
Qed.

(** With one of the four extensions, a run that completes has seen no
    encoding fail. *)
Lemma cleanly_compress_body p :
  str_in (lower (snd (splitext p))) [".jpg"; ".jpeg"; ".png"; ".webp"] = true ->
  cleanly env (compress_body env p).
Proof.
  intros Hext. rewrite four_extensions in Hext. unfold compress_body.
  apply cleanly_bind; [apply cleanly_open|]. intros img. cbv zeta.
  destruct (str_in (lower (snd (splitext p))) [".jpg"; ".jpeg"]).
  { apply cleanly_bind; [apply cleanly_search|]. intros d. apply cleanly_write. }
  destruct (String.eqb (lower (snd (splitext p))) ".png").
  { destruct (has_alpha env img).
    - apply cleanly_bind; [apply cleanly_try_save|]. intros d.
      destruct (len d <=? TARGET_SIZE); [apply cleanly_write|].
      apply cleanly_bind; [apply cleanly_png_loop|]. intros [|d'].
      + apply cleanly_ret.
      + simpl. apply cleanly_bind; [apply cleanly_search|]. intros d2.
        apply cleanly_bind; [apply cleanly_write|]. intros _.
        apply cleanly_bind; [apply cleanly_remove|]. intros _.
        apply cleanly_print.
    - apply cleanly_bind; [apply cleanly_search|]. intros d.
      apply cleanly_bind; [apply cleanly_write|]. intros _.
      apply cleanly_bind; [apply cleanly_remove|]. intros _.
      apply cleanly_print. }
  destruct (String.eqb (lower (snd (splitext p))) ".webp"); [|done].
  apply cleanly_bind; [apply cleanly_search|]. intros d. apply cleanly_write.
Qed.

Lemma new_events_spec {A} w (res : outcome A * World) tr :
  log (snd res) = log w ++ tr -> new_events w res = tr.
Proof. intros H. unfold new_events. rewrite H. apply drop_app_length. Qed.

Lemma compress_body_decode_error p w content e :
  fs w !! p = Some content ->
  Image_open env p content = Err e ->
  compress_body env p w = (Raise e, w).
Proof.
  intros Hp Himg. unfold compress_body. unfold bind at 1.
  unfold Image_open_path. by rewrite Hp, Himg.
Qed.

Lemma process_files_cons root f rest w :
  process_files env root (f :: rest) w
  = match process_file env root f w with
    | (Val _, w1) => process_files env root rest w1
    | (Raise e, w1) => (Raise e, w1)
    | (Diverge, w1) => (Diverge, w1)
    end.
Proof. reflexivity. Qed.

End Clean.

(** When [Image.SAVE] exists and its [keys] method refuses the argument,
    the condition of the inner loop raises before anything is encoded. *)
Lemma search_needs_capability_query env img fmt quality_first kw w e :
  hasattr_SAVE env = true ->
  SAVE_keys env (upper fmt) = Err e ->
  _progressive_compress env img fmt quality_first kw w = (Raise e, w).
Proof.
  intros Hattr Hkeys.
  assert (Hs : supports_quality env fmt = Err e)
    by (unfold supports_quality; by rewrite Hattr, Hkeys).
  unfold _progressive_compress.
  destruct (if quality_first then _ else _) as [q kw'].
  unfold scale_fuel. simpl Nat.add. rewrite scale_loop_step.
  unfold quality_fuel. by erewrite quality_loop_query_raises by exact Hs.
Qed.

(** * Further properties of the script *)

(** ** The log as a journal of the file system *)

Section Journal.

Lemma replay_app t1 t2 files : replay (t1 ++ t2) files = replay t2 (replay t1 files).
Proof. unfold replay. apply fold_left_app. Qed.

Lemma journal_intro {A} (Q : event -> Prop) (m : M A) :
  (forall w, exists tr, log (snd (m w)) = log w ++ tr
                        /\ fs (snd (m w)) = replay tr (fs w)
                        /\ Forall Q tr) ->
  journal Q m.
Proof. intros H w r w' Hrun. specialize (H w). by rewrite Hrun in H. Qed.

Lemma journal_silent {A} (Q : event -> Prop) (m : M A) :
  (forall w, snd (m w) = w) -> journal Q m.
Proof.
  intros H. apply journal_intro. intros w. rewrite H. exists [].
  by rewrite app_nil_r.
Qed.

Lemma journal_ret {A} Q (a : A) : journal Q (ret a).
Proof. by apply journal_silent. Qed.

Lemma journal_raise {A} Q e : journal Q (@raise A e).
Proof. by apply journal_silent. Qed.

Lemma journal_diverge {A} Q : journal Q (@diverge A).
Proof. by apply journal_silent. Qed.

Lemma journal_lift {A} Q (r : result A) : journal Q (lift r).
Proof. destruct r; [apply journal_ret|apply journal_raise]. Qed.

Lemma journal_bind {A B} Q (m : M A) (k : A -> M B) :
  journal Q m -> (forall a, journal Q (k a)) -> journal Q (bind m k).
Proof.
  intros Hm Hk w r w' Hrun.
  apply bind_inv in Hrun as [(a & w1 & Hm1 & Hk1)|[(e & Hm1 & _)|[Hm1 _]]].
  - apply Hm in Hm1 as (t1 & Hl1 & Hf1 & Hq1).
    apply Hk in Hk1 as (t2 & Hl2 & Hf2 & Hq2).
    exists (t1 ++ t2). rewrite Hl2, Hl1, app_assoc, Hf2, Hf1, replay_app.
    split; [done|]. split; [done|]. by apply Forall_app.
  - by apply Hm in Hm1.
  - by apply Hm in Hm1.
Qed.

Lemma journal_try_except {A} Q (m : M A) (h : exn -> M A) :
  journal Q m -> (forall e, journal Q (h e)) -> journal Q (try_except m h).
Proof.
  intros Hm Hh w r w' Hrun. unfold try_except in Hrun.
  destruct (m w) as [[a|e|] w1] eqn:Hm1.
  - injection Hrun as <- <-. by apply Hm in Hm1.
  - apply Hm in Hm1 as (t1 & Hl1 & Hf1 & Hq1).
    apply Hh in Hrun as (t2 & Hl2 & Hf2 & Hq2).
    exists (t1 ++ t2). rewrite Hl2, Hl1, app_assoc, Hf2, Hf1, replay_app.
    split; [done|]. split; [done|]. by apply Forall_app.
  - injection Hrun as <- <-. by apply Hm in Hm1.
Qed.

Lemma journal_emit Q e :
  Q e -> (forall files, apply_event files e = files) -> journal Q (emit e).
Proof.
  intros He Hid. apply journal_intro. intros w. exists [e]. simpl.
  rewrite Hid. by repeat constructor.
Qed.

Lemma journal_print (Q : event -> Prop) msg :
  Q (EvPrint msg) -> journal Q (print msg).
Proof. intros H. by apply journal_emit. Qed.

Lemma journal_write (Q : event -> Prop) path data :
  Q (EvWrite path data) -> journal Q (write_file path data).
Proof.
  intros H. apply journal_intro. intros w. exists [EvWrite path data].
  by repeat constructor.
Qed.

Lemma journal_remove (Q : event -> Prop) path :
  Q (EvRemove path) -> journal Q (os_remove path).
Proof.
  intros H. apply journal_intro. intros w. unfold os_remove.
  destruct (fs w !! path).
  - exists [EvRemove path]. by repeat constructor.
  - exists []. by rewrite app_nil_r.
Qed.

Lemma journal_exists Q path : journal Q (os_path_exists path).
Proof. by apply journal_silent. Qed.

Lemma journal_getsize Q path : journal Q (os_path_getsize path).
Proof.
  apply journal_silent. intros w. unfold os_path_getsize.
  by destruct (fs w !! path).
Qed.

Lemma journal_weaken {A} (Q Q' : event -> Prop) (m : M A) :
  (forall e, Q e -> Q' e) -> journal Q m -> journal Q' m.
Proof.
  intros Himp Hm w r w' Hrun. apply Hm in Hrun as (tr & Hl & Hf & Hq).
  exists tr. split; [done|]. split; [done|]. by eapply Forall_impl.
Qed.

End Journal.

Section JournalScript.
Context (env : Env).

Lemma journal_open Q p : journal Q (Image_open_path env p).
Proof.
  apply journal_silent. intros w. unfold Image_open_path.
  destruct (fs w !! p); [|done]. by destruct (Image_open env p b).
Qed.

Lemma journal_try_save (Q : event -> Prop) img fmt kw :
  Q (EvSave img fmt kw) -> journal Q (_try_save_to_bytes env img fmt kw).
Proof.
  intros H. apply journal_intro. intros w. rewrite try_save_run.
  exists [EvSave img fmt kw]. by repeat constructor.
Qed.

Lemma journal_quality_loop (Q : event -> Prop) fmt n :
  (forall im kw, Q (EvSave im fmt kw)) ->
  forall work kw q, journal Q (quality_loop env n work fmt kw q).
Proof.
  intros HQ. induction n as [|n IH]; intros work kw q;
    [apply journal_diverge|].
  simpl. apply journal_bind; [apply journal_lift|]. intros [|].
  - apply journal_bind; [apply journal_lift|]. intros kwq.
    apply journal_bind; [by apply journal_try_save|]. intros data.
    destruct (_ || _); [|apply IH].
    destruct (len data <=? TARGET_SIZE); apply journal_ret.
  - apply journal_ret.
Qed.

Lemma journal_scale_loop (Q : event -> Prop) fmt n :
  (forall im kw, Q (EvSave im fmt kw)) ->
  forall work kw q, journal Q (scale_loop env n work fmt kw q).
Proof.
  intros HQ. induction n as [|n IH]; intros work kw q;
    [apply journal_diverge|].
  cbn [scale_loop]. apply journal_bind; [by apply journal_quality_loop|].
  intros [d|q']; [apply journal_ret|].
  case_bool_decide; [|apply IH].
  apply journal_bind; [apply journal_lift|]. intros kwq.
  by apply journal_try_save.
Qed.

Lemma journal_search (Q : event -> Prop) img fmt quality_first kw :
  (forall im kw', Q (EvSave im fmt kw')) ->
  journal Q (_progressive_compress env img fmt quality_first kw).
Proof.
  intros HQ. unfold _progressive_compress.
  destruct (if quality_first then _ else _) as [q kw'].
  by apply journal_scale_loop.
Qed.

Lemma journal_png_loop (Q : event -> Prop) p n :
  (forall im, Q (EvSave im "PNG" kw_png)) ->
  (forall d, len d <= TARGET_SIZE -> Q (EvWrite p d)) ->
  forall work data, journal Q (png_loop env n p work data).
Proof.
  intros HS HW. induction n as [|n IH]; intros work data;
    [apply journal_diverge|].
  simpl. case_bool_decide; [apply journal_ret|].
  apply journal_bind; [by apply journal_try_save|]. intros d.
  destruct (len d <=? TARGET_SIZE) eqn:Hd; [|apply IH].
  apply journal_bind; [|intros _; apply journal_ret].
  apply journal_write, HW. lia.
Qed.

End JournalScript.

Section OneFile.
Context (env : Env).

Lemma own_paths_self p : In p (own_paths p).
Proof. by left. Qed.

Lemma own_paths_jpg p : In (fst (splitext p) +:+ ".jpg") (own_paths p).
Proof. right; by left. Qed.

Lemma own_paths_webp p : In (fst (splitext p) +:+ ".webp") (own_paths p).
Proof. right; right; by left. Qed.

(** Everything [compress_image] does to the files is in its log, and it
    stays with the file it was given. *)
Lemma journal_compress_body p : journal (stays_with p) (compress_body env p).
Proof.
  pose proof (own_paths_self p) as Hself.
  pose proof (own_paths_jpg p) as Hjpg.
  pose proof (own_paths_webp p) as Hwebp.
  assert (Hsearch : forall img fmt kw,
             journal (stays_with p) (_progressive_compress env img fmt true kw))
    by (intros; by apply journal_search).
  unfold compress_body.
  apply journal_bind; [apply journal_open|]. intros img. cbv zeta.
  destruct (str_in _ [".jpg"; ".jpeg"]).
  { apply journal_bind; [apply Hsearch|]. intros d. by apply journal_write. }
  destruct (String.eqb _ ".png").
  { destruct (has_alpha env img).
    - apply journal_bind; [by apply journal_try_save|]. intros d.
      destruct (len d <=? TARGET_SIZE); [by apply journal_write|].
      apply journal_bind; [by apply journal_png_loop|]. intros [|d'].
      + apply journal_ret.
      + simpl. apply journal_bind; [apply Hsearch|]. intros d2.
        apply journal_bind; [by apply journal_write|]. intros _.
        apply journal_bind; [by apply journal_remove|]. intros _.
        by apply journal_print.
    - apply journal_bind; [apply Hsearch|]. intros d.
      apply journal_bind; [by apply journal_write|]. intros _.
      apply journal_bind; [by apply journal_remove|]. intros _.
      by apply journal_print. }
  destruct (String.eqb _ ".webp").
  { apply journal_bind; [apply Hsearch|]. intros d. by apply journal_write. }
  apply journal_try_except.
  - apply journal_bind; [apply Hsearch|]. intros d. by apply journal_write.
  - intros _. apply journal_bind; [apply Hsearch|]. intros d.
    by apply journal_write.
Qed.

Lemma journal_compress_image p : journal (stays_with p) (compress_image env p).
Proof.
  unfold compress_image. apply journal_try_except.
  - apply journal_compress_body.
  - intros e. by apply journal_print.
Qed.

Lemma replay_frame p tr : forall files q,
  Forall (stays_with p) tr -> ~ In q (own_paths p) ->
  replay tr files !! q = files !! q.
Proof.
  induction tr as [|e tr IH]; intros files q Hall Hq; [done|].
  apply Forall_cons in Hall as [He Hall]. simpl.
  rewrite (IH _ q Hall Hq). destruct e as [| path d | path |]; simpl in *; try done.
  - apply lookup_insert_ne. intros ->. by apply Hq.
  - subst path. apply lookup_delete_ne. intros ->. apply Hq. by left.
Qed.

Lemma replay_keeps p tr : forall files q,
  Forall (stays_with p) tr -> q <> p ->
  is_Some (files !! q) -> is_Some (replay tr files !! q).
Proof.
  induction tr as [|e tr IH]; intros files q Hall Hq Hsome; [done|].
  apply Forall_cons in Hall as [He Hall]. simpl.
  apply (IH _ q Hall Hq). destruct e as [| path d | path |]; simpl in *; try done.
  - destruct (decide (path = q)) as [->|Hne].
    + rewrite lookup_insert_eq. by eexists.
    + by rewrite lookup_insert_ne.
  - subst path. by rewrite lookup_delete_ne.
Qed.

End OneFile.

(** X1: [compress_image] returns normally on every path and world; it leaves
    every file outside the three paths of its own file as it was, and no
    file other than the one it was given disappears. *)
Theorem compress_image_stays_with_its_file env p w :
  fst (compress_image env p w) = Val tt
  /\ (forall q, ~ In q (own_paths p) ->
        fs (snd (compress_image env p w)) !! q = fs w !! q)
  /\ (forall q, q <> p -> is_Some (fs w !! q) ->
        is_Some (fs (snd (compress_image env p w)) !! q)).
Proof.
  split; [apply compress_image_returns|].
  destruct (compress_image env p w) as [r w'] eqn:Hrun.
  apply journal_compress_image in Hrun as (tr & _ & Hfs & Hall). simpl.
  rewrite Hfs. split.
  - intros q Hq. by apply replay_frame with p.
  - intros q Hq Hsome. by apply replay_keeps with p.
Qed.

Section Folder.
Context (env : Env).

Lemma report_converted_run base exts w :
  report_converted base exts w
  = (Val tt,
     match List.find (has_file (fs w) base) exts with
     | Some ext =>
         add_log w [EvPrint (MsgAfterFile (base +:+ ext)
                               (size_of (fs w) (base +:+ ext)))]
     | None => w
     end).
Proof.
  induction exts as [|ext exts IH]; [done|].
  simpl. unfold bind at 1, os_path_exists at 1. unfold has_file at 1.
  case_bool_decide as Hex.
  - destruct Hex as [d Hd]. unfold bind, os_path_getsize, size_of.
    by rewrite Hd.
  - exact IH.
Qed.

Lemma process_file_skip_name root f w :
  is_candidate f = false -> process_file env root f w = (Val tt, w).
Proof. intros H. unfold process_file. by rewrite H. Qed.

Lemma process_file_skip_small root f w d :
  fs w !! path_join root f = Some d -> len d <= TARGET_SIZE ->
  process_file env root f w = (Val tt, w).
Proof.
  intros Hp Hd. unfold process_file. destruct (is_candidate f); [|done].
  unfold bind, os_path_getsize. rewrite Hp.
  by rewrite (proj2 (Z.ltb_ge _ _) Hd).
Qed.

Lemma process_file_run root f w d :
  is_candidate f = true ->
  fs w !! path_join root f = Some d ->
  TARGET_SIZE < len d ->
  process_file env root f w
  = (Val tt,
     let w1 := snd (compress_image env (path_join root f)
                      (add_log w [EvPrint (MsgCompressing (path_join root f)
                                             (len d))])) in
     add_log w1 (report_after (fs w1) (path_join root f))).
Proof.
  intros Hcand Hp Hbig. unfold process_file. rewrite Hcand.
  set (p := path_join root f) in *.
  unfold bind at 1. unfold os_path_getsize at 1. rewrite Hp.
  rewrite (proj2 (Z.ltb_lt _ _) Hbig).
  unfold bind at 1. unfold print at 1, emit at 1.
  change {| fs := fs w; log := log w ++ [EvPrint (MsgCompressing p (len d))] |}
    with (add_log w [EvPrint (MsgCompressing p (len d))]).
  unfold bind at 1.
  pose proof (compress_image_returns env p
                (add_log w [EvPrint (MsgCompressing p (len d))])) as Hret.
  destruct (compress_image env p _) as [r w1]. simpl in Hret. subst r.
  simpl snd. unfold bind at 1, os_path_exists at 1, report_after.
  case_bool_decide as Hex.
  - destruct Hex as [d1 Hd1]. unfold bind, os_path_getsize, size_of.
    rewrite Hd1. reflexivity.
  - rewrite report_converted_run.
    by destruct (List.find _ _); [|rewrite add_log_nil].
Qed.

(** Processing one file never raises when the file is there, and no other
    file disappears. *)
Lemma process_file_keeps root f w :
  (is_candidate f = true -> is_Some (fs w !! path_join root f)) ->
  fst (process_file env root f w) = Val tt
  /\ (forall q, (is_candidate f = true -> q <> path_join root f) ->
        is_Some (fs w !! q) ->
        is_Some (fs (snd (process_file env root f w)) !! q)).
Proof.
  intros Hthere. destruct (is_candidate f) eqn:Hcand;
    [|by rewrite process_file_skip_name].
  destruct (Hthere eq_refl) as [d Hd].
  destruct (Z_lt_le_dec TARGET_SIZE (len d)) as [Hbig|Hsmall];
    [|by rewrite (process_file_skip_small root f w d)].
  rewrite (process_file_run root f w d) by done. split; [done|].
  intros q Hq Hsome. specialize (Hq eq_refl). simpl.
  destruct (compress_image env _ _) as [r w1] eqn:Hrun.
  apply journal_compress_image in Hrun as (tr & _ & Hfs & Hall). simpl.
  rewrite Hfs. by apply replay_keeps with (path_join root f).
Qed.

Lemma process_files_keeps root files : forall w,
  NoDup (map (path_join root) (List.filter is_candidate files)) ->
  Forall (fun p => is_Some (fs w !! p))
         (map (path_join root) (List.filter is_candidate files)) ->
  fst (process_files env root files w) = Val tt
  /\ (forall q, ~ In q (map (path_join root) (List.filter is_candidate files)) ->
        is_Some (fs w !! q) ->
        is_Some (fs (snd (process_files env root files w)) !! q)).
Proof.
  induction files as [|f files IH]; intros w Hnd Hall; [done|].
  rewrite process_files_cons.
  assert (Hthere : is_candidate f = true -> is_Some (fs w !! path_join root f)).
  { intros Hc. simpl in Hall. rewrite Hc in Hall. simpl in Hall.
    by apply Forall_cons in Hall as [? _]. }
  destruct (process_file_keeps root f w Hthere) as [Hret Hkeep].
  destruct (process_file env root f w) as [r w1]. simpl in Hret, Hkeep.
  subst r.
  assert (Hnd' : NoDup (map (path_join root) (List.filter is_candidate files))).
  { simpl in Hnd. destruct (is_candidate f); [|done].
    by apply NoDup_cons in Hnd as [_ ?]. }
  assert (Hall' : Forall (fun p => is_Some (fs w1 !! p))
                    (map (path_join root) (List.filter is_candidate files))).
  { apply List.Forall_forall. intros q Hq. apply Hkeep.
    - intros Hc ->. simpl in Hnd. rewrite Hc in Hnd.
      apply NoDup_cons in Hnd as [Hnotin _]. apply Hnotin.
      by apply list_elem_of_In.
    - simpl in Hall. destruct (is_candidate f); simpl in Hall;
        [apply Forall_cons in Hall as [_ Hall]|];
        by eapply List.Forall_forall in Hall. }
  destruct (IH w1 Hnd' Hall') as [Hret2 Hkeep2].
  split; [done|]. intros q Hq Hsome. apply Hkeep2.
  - intros Hin. apply Hq. simpl. destruct (is_candidate f); [by right|done].
  - apply Hkeep; [|done]. intros Hc ->. apply Hq. simpl. rewrite Hc. by left.
Qed.

Lemma process_dirs_cons root files dirs w :
  process_dirs env ((root, files) :: dirs) w
  = match process_files env root files w with
    | (Val _, w1) => process_dirs env dirs w1
    | (Raise e, w1) => (Raise e, w1)
    | (Diverge, w1) => (Diverge, w1)
    end.
Proof. reflexivity. Qed.

Lemma process_dirs_keeps dirs : forall w,
  NoDup (selected dirs) ->
  Forall (fun p => is_Some (fs w !! p)) (selected dirs) ->
  fst (process_dirs env dirs w) = Val tt.
Proof.
  induction dirs as [|[root files] dirs IH]; intros w Hnd Hall; [done|].
  rewrite process_dirs_cons. unfold selected in Hnd, Hall. simpl in Hnd, Hall.
  apply NoDup_app in Hnd as (Hnd1 & Hdisj & Hnd2).
  apply Forall_app in Hall as [Hall1 Hall2].
  destruct (process_files_keeps root files w Hnd1 Hall1) as [Hret Hkeep].
  destruct (process_files env root files w) as [r w1]. simpl in Hret, Hkeep.
  subst r. apply IH; [done|].
  apply List.Forall_forall. intros q Hq. apply Hkeep.
  - intros Hin. apply (Hdisj q); by apply list_elem_of_In.
  - by eapply List.Forall_forall in Hall2.
Qed.

Lemma process_files_untouched root files : forall w,
  Forall (fun p => exists d, fs w !! p = Some d /\ len d <= TARGET_SIZE)
         (map (path_join root) (List.filter is_candidate files)) ->
  process_files env root files w = (Val tt, w).
Proof.
  induction files as [|f files IH]; intros w Hall; [done|].
  rewrite process_files_cons. simpl in Hall.
  destruct (is_candidate f) eqn:Hc.
  - simpl in Hall. apply Forall_cons in Hall as [(d & Hd & Hsmall) Hall].
    rewrite (process_file_skip_small root f w d) by done. by apply IH.
  - rewrite process_file_skip_name by done. by apply IH.
Qed.

Lemma process_dirs_untouched dirs : forall w,
  Forall (fun p => exists d, fs w !! p = Some d /\ len d <= TARGET_SIZE)
         (selected dirs) ->
  process_dirs env dirs w = (Val tt, w).
Proof.
  induction dirs as [|[root files] dirs IH]; intros w Hall; [done|].
  rewrite process_dirs_cons. unfold selected in Hall. simpl in Hall.
  apply Forall_app in Hall as [Hall1 Hall2].
  rewrite process_files_untouched by done. by apply IH.
Qed.

End Folder.

(** X2: [process_folder] returns normally when the names the walk yields
    for processing denote distinct paths of files that exist: processing one
    file never makes another one disappear. *)
Theorem walk_never_aborts env folder w :
  NoDup (selected (os_walk env (fs w) folder)) ->
  Forall (fun p => is_Some (fs w !! p)) (selected (os_walk env (fs w) folder)) ->
  fst (process_folder env folder w) = Val tt.
Proof. intros Hnd Hall. unfold process_folder. by apply process_dirs_keeps. Qed.

(** X3: when every file the walk selects is within the budget, the
    folder is left exactly as it was and nothing is printed. *)
Theorem folder_within_budget_untouched env folder w :
  Forall (fun p => exists d, fs w !! p = Some d /\ len d <= TARGET_SIZE)
         (selected (os_walk env (fs w) folder)) ->
  process_folder env folder w = (Val tt, w).
Proof. intros Hall. unfold process_folder. by apply process_dirs_untouched. Qed.

(** X4: for a selected file over budget, [process_folder] prints the
    size before, lets [compress_image] run (which never raises), and then
    prints the size of the file if it is still there, else of the first of
    [.webp], [.jpg], [.jpeg], [.png] beside it that exists, else nothing. *)
Theorem oversized_file_is_reported env root f w d :
  is_candidate f = true ->
  fs w !! path_join root f = Some d ->
  TARGET_SIZE < len d ->
  process_file env root f w
  = (Val tt,
     let w1 := snd (compress_image env (path_join root f)
                      (add_log w [EvPrint (MsgCompressing (path_join root f)
                                             (len d))])) in
     add_log w1 (report_after (fs w1) (path_join root f))).
Proof. apply process_file_run. Qed.

(** X5: a path with no file: [compress_image] prints the failure and
    returns, but the size check of [process_folder] is outside any handler,
    so a selected name without a file ends the whole walk with the
    exception. *)
Theorem missing_file_behaviour env root f rest w :
  is_candidate f = true ->
  fs w !! path_join root f = None ->
  compress_image env (path_join root f) w
  = (Val tt, add_log w [EvPrint (MsgFailed (path_join root f)
                                   (Exn "FileNotFoundError"))])
  /\ process_files env root (f :: rest) w
     = (Raise (Exn "FileNotFoundError"), w).
Proof.
  intros Hc Hp. split.
  - rewrite compress_image_run. unfold compress_body, bind, Image_open_path.
    by rewrite Hp.
  - rewrite process_files_cons. unfold process_file, bind, os_path_getsize.
    by rewrite Hc, Hp.
Qed.

Lemma walk_never_aborts_witness :
  NoDup (selected (os_walk (demo_env 0 false) (fs demo_folder) "."))
  /\ Forall (fun p => is_Some (fs demo_folder !! p))
       (selected (os_walk (demo_env 0 false) (fs demo_folder) "."))
  /\ fst (process_folder (demo_env 0 false) "." demo_folder) = Val tt.
Proof.
  assert (Hsel : selected (os_walk (demo_env 0 false) (fs demo_folder) ".")
                 = ["./a.png"; "./b.jpg"]) by (vm_compute; reflexivity).
  assert (H1 : NoDup (selected (os_walk (demo_env 0 false) (fs demo_folder) "."))).
  { rewrite Hsel. apply NoDup_cons. split; [|apply NoDup_singleton].
    intros Hin. apply list_elem_of_singleton in Hin. discriminate. }
  assert (H2 : Forall (fun p => is_Some (fs demo_folder !! p))
                 (selected (os_walk (demo_env 0 false) (fs demo_folder) "."))).
  { rewrite Hsel. repeat constructor; by eexists. }
  split; [exact H1|]. split; [exact H2|].
  exact (walk_never_aborts (demo_env 0 false) "." demo_folder H1 H2).
Defined.

Section MoreSearch.
Context (env : Env).

(** What the inner loop returns fits the budget. *)
Lemma quality_loop_return_fits n : forall work fmt kw q w d w',
  quality_loop env n work fmt kw q w = (Val (QReturn d), w') ->
  len d <= TARGET_SIZE.
Proof.
  induction n as [|n IH]; intros work fmt kw q w d w' Hrun; [done|].
  destruct (supports_quality env fmt) as [[|]|e] eqn:Hs.
  - destruct (str_in "quality" (map fst kw)) eqn:Hk.
    + by rewrite quality_loop_duplicate in Hrun.
    + rewrite quality_loop_step in Hrun by done.
      destruct (Image_save env work fmt _) as [data|e]; [|done].
      destruct (len data <=? TARGET_SIZE) eqn:Hlen.
      * injection Hrun as <- _. lia.
      * destruct (q <=? MIN_QUALITY); [done|]. by eapply IH.
  - by rewrite quality_loop_unsupported in Hrun.
  - by erewrite quality_loop_query_raises in Hrun by eassumption.
Qed.

Lemma scale_loop_fits_or_terminal n : forall work fmt kw q w d w',
  scale_loop env n work fmt kw q w = (Val d, w') ->
  len d <= TARGET_SIZE
  \/ exists final q',
       new_size_of (size final) = size final
       /\ Image_save env final fmt (("quality", PyInt q') :: kw) = Ok d
       /\ MIN_QUALITY <= q'.
Proof.
  induction n as [|n IH]; intros work fmt kw q w d w' Hrun; [done|].
  rewrite scale_loop_step in Hrun.
  destruct (quality_loop env _ work fmt kw q w) as [[[d1|q1]|e|] w1] eqn:Hq;
    try done.
  - injection Hrun as <- _. left. by eapply quality_loop_return_fits.
  - case_bool_decide as Hfix; [|by eapply IH].
    unfold with_quality in Hrun.
    destruct (str_in "quality" (map fst kw)); [done|].
    rewrite try_save_run in Hrun.
    destruct (Image_save env work fmt _) as [d2|e] eqn:Hsave; [|done].
    injection Hrun as <- _. right. exists work, (Z.max MIN_QUALITY q1).
    split; [done|]. split; [done|]. lia.
Qed.

Lemma search_trace_length fmt kw b work tr :
  search_trace env fmt kw b work tr ->
  (List.length tr <= 16 * S (size_rank (size work)) + 1)%nat.
Proof.
  assert (Hlevel : forall im k, List.length (level im fmt kw 95 k) = k).
  { intros im k. unfold level, qseq. by rewrite !length_map, length_seq. }
  assert (Hk : (klevel b <= 16)%nat) by (destruct b; simpl; lia).
  induction 1 as [work k Hk' | work Hfix | work tr Hne Htr IH].
  - rewrite Hlevel. lia.
  - rewrite length_app, Hlevel. simpl. lia.
  - rewrite length_app, Hlevel. apply size_rank_new in Hne. simpl in IH. lia.
Qed.

(** A [quality] key among the keyword arguments. *)
Lemma scale_loop_duplicate_plain n : forall work fmt kw q w,
  supports_quality env fmt = Ok false ->
  str_in "quality" (map fst kw) = true ->
  (size_rank (size work) < n)%nat ->
  scale_loop env n work fmt kw q w = (Raise (Exn "TypeError"), w).
Proof.
  induction n as [|n IH]; intros work fmt kw q w Hs Hk Hn; [lia|].
  rewrite scale_loop_step. unfold quality_fuel.
  rewrite quality_loop_unsupported by done.
  case_bool_decide as Hfix.
  - unfold with_quality. by rewrite Hk.
  - apply IH; try done. simpl. apply size_rank_new in Hfix. lia.
Qed.

Lemma quality_loop_log n work fmt kw q w :
  exists tr, log (snd (quality_loop env n work fmt kw q w)) = log w ++ tr.
Proof.
  destruct (quality_loop env n work fmt kw q w) as [r w'] eqn:Hrun.
  apply (journal_quality_loop env (fun _ => True) fmt n) in Hrun
    as (tr & Hlog & _); [|done].
  by exists tr.
Qed.

Lemma scale_loop_log n work fmt kw q w :
  exists tr, log (snd (scale_loop env n work fmt kw q w)) = log w ++ tr.
Proof.
  destruct (scale_loop env n work fmt kw q w) as [r w'] eqn:Hrun.
  apply (journal_scale_loop env (fun _ => True) fmt n) in Hrun
    as (tr & Hlog & _); [|done].
  by exists tr.
Qed.

End MoreSearch.

(** X6: whatever a search returns either fits the budget or is the
    encoding, at a quality of at least [MIN_QUALITY], of a 1x1 image. *)
Theorem search_result_fits_or_terminal env img fmt kw w data w' :
  _progressive_compress env img fmt true kw w = (Val data, w') ->
  len data <= TARGET_SIZE
  \/ exists final q,
       size final = (1, 1)
       /\ Image_save env final fmt (("quality", PyInt q) :: kw) = Ok data
       /\ MIN_QUALITY <= q.
Proof.
  rewrite progressive_compress_unfold. intros Hrun.
  apply scale_loop_fits_or_terminal in Hrun
    as [Hfit|(final & q & Hfix & Hsave & Hq)]; [by left|].
  right. exists final, q. by apply new_size_fix in Hfix.
Qed.

Lemma search_result_fits_or_terminal_witness :
  _progressive_compress (demo_env 0 false) (demo_image 80 72 "RGB") "JPEG"
    true kw_optimize empty_world
  = (Val (Bytes 518400 0),
     add_log empty_world
       (level (copy (demo_image 80 72 "RGB")) "JPEG" kw_optimize 95 2))
  /\ (len (Bytes 518400 0) <= TARGET_SIZE
      \/ exists final q,
           size final = (1, 1)
           /\ Image_save (demo_env 0 false) final "JPEG"
                (("quality", PyInt q) :: kw_optimize) = Ok (Bytes 518400 0)
           /\ MIN_QUALITY <= q).
Proof.
  assert (H : _progressive_compress (demo_env 0 false) (demo_image 80 72 "RGB")
                "JPEG" true kw_optimize empty_world
              = (Val (Bytes 518400 0),
                 add_log empty_world
                   (level (copy (demo_image 80 72 "RGB")) "JPEG" kw_optimize
                      95 2))) by reflexivity.
  split; [exact H|].
  exact (search_result_fits_or_terminal _ _ _ _ _ _ _ H).
Defined.

(** X7: a search adds nothing but encodings to the log, at most
    sixteen per resolution level and one terminal encoding; with the levels
    bounded by the rank of the input size this bounds the whole run. *)
Theorem search_encodes_boundedly env img fmt kw w :
  exists tr,
    snd (_progressive_compress env img fmt true kw w) = add_log w tr
    /\ Forall (saves_as fmt) tr
    /\ (List.length tr <= 16 * S (size_rank (size img)) + 1)%nat.
Proof.
  rewrite progressive_compress_unfold.
  destruct (scale_loop env _ (copy img) fmt kw 95 w) as [r w'] eqn:Hrun.
  apply scale_loop_trace in Hrun as (tr & -> & Htr).
  exists tr. split; [done|]. split.
  - by eapply search_trace_saves.
  - by apply search_trace_length in Htr.
Qed.

(** X8: a [quality] entry among the keyword arguments clashes with the
    one the search passes itself: the search raises [TypeError] and encodes
    nothing, whether or not the format has a quality parameter. *)
Theorem duplicate_quality_keyword env img fmt kw w b :
  supports_quality env fmt = Ok b ->
  str_in "quality" (map fst kw) = true ->
  _progressive_compress env img fmt true kw w = (Raise (Exn "TypeError"), w).
Proof.
  intros Hs Hk. rewrite progressive_compress_unfold. destruct b.
  - unfold scale_fuel. simpl Nat.add. rewrite scale_loop_step.
    unfold quality_fuel. by rewrite quality_loop_duplicate.
  - apply scale_loop_duplicate_plain; try done. apply size_rank_fuel.
Qed.

Lemma duplicate_quality_keyword_witness :
  supports_quality (demo_env 0 false) "PNG" = Ok false
  /\ str_in "quality" (map fst [("quality", PyInt 50)]) = true
  /\ _progressive_compress (demo_env 0 false) (demo_image 80 72 "RGB") "PNG"
       true [("quality", PyInt 50)] empty_world
     = (Raise (Exn "TypeError"), empty_world).
Proof.
  assert (H1 : supports_quality (demo_env 0 false) "PNG" = Ok false)
    by reflexivity.
  assert (H2 : str_in "quality" (map fst [("quality", PyInt 50)]) = true)
    by reflexivity.
  split; [exact H1|]. split; [exact H2|].
  exact (duplicate_quality_keyword _ _ _ _ _ _ H1 H2).
Defined.

Section Branches.
Context (env : Env).

Ltac open_body Hp Himg :=
  unfold compress_body; unfold bind at 1; unfold Image_open_path;
  rewrite Hp, Himg; unfold lift, ret, raise; cbv beta iota zeta.

(** A search followed by one write, under the handler of [compress_image]. *)
Lemma search_then_write img fmt kw path w :
  exists tr,
    Forall (saves_as fmt) tr
    /\ ((exists data,
           _progressive_compress env img fmt true kw w = (Val data, add_log w tr)
           /\ bind (_progressive_compress env img fmt true kw)
                   (write_file path) w
              = (Val tt, {| fs := <[path := data]> (fs w);
                            log := log w ++ tr ++ [EvWrite path data] |}))
        \/ (exists e,
              _progressive_compress env img fmt true kw w
              = (Raise e, add_log w tr)
              /\ bind (_progressive_compress env img fmt true kw)
                      (write_file path) w
                 = (Raise e, add_log w tr))).
Proof.
  destruct (search_cases env img fmt kw w) as (tr & Htr & [[d Hrun]|[e Hrun]]);
    exists tr; (split; [done|]).
  - left. exists d. split; [done|]. unfold bind. rewrite Hrun.
    unfold write_file. simpl. by rewrite <- app_assoc.
  - right. exists e. split; [done|]. unfold bind. by rewrite Hrun.
Qed.

Lemma in_place_or_reported img fmt kw p w :
  compress_body env p w
  = bind (_progressive_compress env img fmt true kw) (write_file p) w ->
  exists tr,
    Forall (saves_as fmt) tr
    /\ ((exists data,
           _progressive_compress env img fmt true kw w = (Val data, add_log w tr)
           /\ compress_image env p w
              = (Val tt, {| fs := <[p := data]> (fs w);
                            log := log w ++ tr ++ [EvWrite p data] |}))
        \/ (exists e,
              _progressive_compress env img fmt true kw w
              = (Raise e, add_log w tr)
              /\ compress_image env p w
                 = (Val tt, {| fs := fs w;
                               log := log w ++ tr
                                      ++ [EvPrint (MsgFailed p e)] |}))).
Proof.
  intros Hbody.
  destruct (search_then_write img fmt kw p w)
    as (tr & Htr & [(d & Hrun & Hw)|(e & Hrun & Hw)]);
    exists tr; (split; [done|]); [left; exists d|right; exists e];
    (split; [done|]); rewrite compress_image_run, Hbody, Hw; [done|].
  unfold add_log. simpl. by rewrite <- app_assoc.
Qed.

Lemma jpeg_body p w content img :
  str_in (lower (snd (splitext p))) [".jpg"; ".jpeg"] = true ->
  fs w !! p = Some content ->
  Image_open env p content = Ok img ->
  compress_body env p w
  = bind (_progressive_compress env (convert env img "RGB") "JPEG" true
            kw_optimize) (write_file p) w.
Proof. intros Hext Hp Himg. open_body Hp Himg. by rewrite Hext. Qed.

Lemma webp_body p w content img :
  lower (snd (splitext p)) = ".webp" ->
  fs w !! p = Some content ->
  Image_open env p content = Ok img ->
  compress_body env p w
  = bind (_progressive_compress env img "WEBP" true kw_webp) (write_file p) w.
Proof. intros Hext Hp Himg. open_body Hp Himg. by rewrite Hext. Qed.

Lemma other_body p w content img :
  str_in (lower (snd (splitext p))) [".jpg"; ".jpeg"; ".png"; ".webp"] = false ->
  fs w !! p = Some content ->
  Image_open env p content = Ok img ->
  compress_body env p w
  = try_except
      (bind (_progressive_compress env img (format_or_png img) true kw_optimize)
            (write_file p))
      (fun _ =>
         bind (_progressive_compress env (convert env img "RGB") "JPEG" true
                 kw_optimize)
              (write_file (fst (splitext p) +:+ ".jpg"))) w.
Proof.
  intros Hext Hp Himg. open_body Hp Himg.
  rewrite four_extensions in Hext.
  apply orb_false_elim in Hext as [Hext Hwebp].
  apply orb_false_elim in Hext as [Hjpg Hpng].
  by rewrite Hjpg, Hpng, Hwebp.
Qed.

Lemma opaque_png_body p w content img :
  lower (snd (splitext p)) = ".png" ->
  fs w !! p = Some content ->
  Image_open env p content = Ok img ->
  has_alpha env img = false ->
  compress_body env p w
  = bind (_progressive_compress env (convert env img "RGB") "JPEG" true
            kw_optimize)
         (fun data =>
            replace_by (fst (splitext p) +:+ ".jpg") p data
                       (MsgToJpeg (fst (splitext p) +:+ ".jpg"))) w.
Proof.
  intros Hext Hp Himg Halpha. open_body Hp Himg. rewrite Hext.
  change (str_in ".png" [".jpg"; ".jpeg"]) with false.
  change (String.eqb ".png" ".png") with true. cbv iota.
  by rewrite Halpha.
Qed.

Lemma transparent_png_body p w content img :
  lower (snd (splitext p)) = ".png" ->
  fs w !! p = Some content ->
  Image_open env p content = Ok img ->
  has_alpha env img = true ->
  compress_body env p w
  = bind (_try_save_to_bytes env (copy img) "PNG" kw_png)
      (fun data =>
         if len data <=? TARGET_SIZE then write_file p data
         else
           bind (png_loop env (scale_fuel (size (copy img))) p (copy img) data)
             (fun r =>
                match r with
                | PngWritten => ret tt
                | PngBreak _ =>
                    bind (_progressive_compress env img "WEBP" true
                            kw_webp_lossy)
                      (fun data =>
                         replace_by (fst (splitext p) +:+ ".webp") p data
                           (MsgToWebp (fst (splitext p) +:+ ".webp")))
                end)) w.
Proof.
  intros Hext Hp Himg Halpha. open_body Hp Himg. rewrite Hext.
  change (str_in ".png" [".jpg"; ".jpeg"]) with false.
  change (String.eqb ".png" ".png") with true. cbv iota.
  by rewrite Halpha.
Qed.

Lemma journal_transparent_png p img :
  fst (splitext p) +:+ ".webp" <> p ->
  journal (writes_within_budget p)
    (bind (_try_save_to_bytes env (copy img) "PNG" kw_png)
      (fun data =>
         if len data <=? TARGET_SIZE then write_file p data
         else
           bind (png_loop env (scale_fuel (size (copy img))) p (copy img) data)
             (fun r =>
                match r with
                | PngWritten => ret tt
                | PngBreak _ =>
                    bind (_progressive_compress env img "WEBP" true
                            kw_webp_lossy)
                      (fun data =>
                         replace_by (fst (splitext p) +:+ ".webp") p data
                           (MsgToWebp (fst (splitext p) +:+ ".webp")))
                end))).
Proof.
  intros Hne.
  apply journal_bind; [by apply journal_try_save|]. intros d.
  destruct (len d <=? TARGET_SIZE) eqn:Hd.
  { apply journal_write. simpl. intros _. lia. }
  apply journal_bind.
  { apply journal_png_loop; [done|]. by intros d' Hd' _. }
  intros [|d']; [apply journal_ret|].
  apply journal_bind; [by apply journal_search|]. intros d2.
  unfold replace_by.
  apply journal_bind.
  { apply journal_write. simpl. intros Heq. by destruct (Hne Heq). }
  intros _.
  apply journal_bind; [by apply journal_remove|]. intros _.
  by apply journal_print.
Qed.

Lemma replay_within_budget p tr : forall files d,
  Forall (writes_within_budget p) tr ->
  replay tr files !! p = Some d ->
  files !! p = Some d \/ len d <= TARGET_SIZE.
Proof.
  induction tr as [|e tr IH]; intros files d Hall Hd; [by left|].
  apply Forall_cons in Hall as [He Hall]. simpl in Hd.
  apply (IH _ d Hall) in Hd as [Hd|Hd]; [|by right].
  destruct e as [| path d' | path |]; simpl in *; try by left.
  - destruct (decide (path = p)) as [->|Hne].
    + rewrite lookup_insert_eq in Hd. injection Hd as <-. right. by apply He.
    + rewrite lookup_insert_ne in Hd by done. by left.
  - destruct (decide (path = p)) as [->|Hne].
    + by rewrite lookup_delete_eq in Hd.
    + rewrite lookup_delete_ne in Hd by done. by left.
Qed.

End Branches.

(** X10: a [.jpg]/[.jpeg] file (searched as JPEG after conversion to
    RGB) and a [.webp] file (searched as WebP as it is) end in one of two
    ways: the result of the search is written over the file itself, or the
    search raises and the failure is printed with the files left as they
    were.  No other file appears and nothing is removed. *)
Theorem lossy_file_rewritten_in_place env p w content img :
  fs w !! p = Some content ->
  Image_open env p content = Ok img ->
  forall src fmt kw,
    (str_in (lower (snd (splitext p))) [".jpg"; ".jpeg"] = true
     /\ (src, fmt, kw) = (convert env img "RGB", "JPEG", kw_optimize))
    \/ (lower (snd (splitext p)) = ".webp"
        /\ (src, fmt, kw) = (img, "WEBP", kw_webp)) ->
  exists tr,
    Forall (saves_as fmt) tr
    /\ ((exists data,
           _progressive_compress env src fmt true kw w = (Val data, add_log w tr)
           /\ compress_image env p w
              = (Val tt, {| fs := <[p := data]> (fs w);
                            log := log w ++ tr ++ [EvWrite p data] |}))
        \/ (exists e,
              _progressive_compress env src fmt true kw w
              = (Raise e, add_log w tr)
              /\ compress_image env p w
                 = (Val tt, {| fs := fs w;
                               log := log w ++ tr
                                      ++ [EvPrint (MsgFailed p e)] |}))).
Proof.
  intros Hp Himg src fmt kw [[Hext Heq]|[Hext Heq]]; injection Heq as -> -> ->;
    apply in_place_or_reported.
  - by eapply jpeg_body.
  - by eapply webp_body.
Qed.

Lemma lossy_file_rewritten_in_place_witness :
  let env := demo_env 0 false in
  let w := demo_world "a.jpg" (demo_file_of 1 80 72 false 600000) in
  let img := {| size := (80, 72); mode := "RGB"; format := Some "JPEG";
                pixels := demo_file_of 1 80 72 false 600000 |} in
  fs w !! "a.jpg" = Some (demo_file_of 1 80 72 false 600000)
  /\ Image_open env "a.jpg" (demo_file_of 1 80 72 false 600000) = Ok img
  /\ str_in (lower (snd (splitext "a.jpg"))) [".jpg"; ".jpeg"] = true
  /\ exists tr,
       Forall (saves_as "JPEG") tr
       /\ ((exists data,
              _progressive_compress env (convert env img "RGB") "JPEG" true
                kw_optimize w = (Val data, add_log w tr)
              /\ compress_image env "a.jpg" w
                 = (Val tt, {| fs := <["a.jpg" := data]> (fs w);
                               log := log w ++ tr ++ [EvWrite "a.jpg" data] |}))
           \/ (exists e,
                 _progressive_compress env (convert env img "RGB") "JPEG" true
                   kw_optimize w = (Raise e, add_log w tr)
                 /\ compress_image env "a.jpg" w
                    = (Val tt, {| fs := fs w;
                                  log := log w ++ tr
                                         ++ [EvPrint (MsgFailed "a.jpg" e)] |}))).
Proof.
  intros env w img.
  assert (Hp : fs w !! "a.jpg" = Some (demo_file_of 1 80 72 false 600000))
    by reflexivity.
  assert (Himg : Image_open env "a.jpg" (demo_file_of 1 80 72 false 600000)
                 = Ok img) by reflexivity.
  assert (Hext : str_in (lower (snd (splitext "a.jpg"))) [".jpg"; ".jpeg"] = true)
    by reflexivity.
  split; [exact Hp|]. split; [exact Himg|]. split; [exact Hext|].
  exact (lossy_file_rewritten_in_place env "a.jpg" w _ img Hp Himg _ _ _
           (or_introl (conj Hext eq_refl))).
Defined.

(** X11: a transparent PNG whose lossless re-encoding at full size fits
    the budget is rewritten in place after that single encoding: no resize,
    no other format. *)
Theorem transparent_png_first_try env p w content img data :
  lower (snd (splitext p)) = ".png" ->
  fs w !! p = Some content ->
  Image_open env p content = Ok img ->
  has_alpha env img = true ->
  Image_save env (copy img) "PNG" kw_png = Ok data ->
  len data <= TARGET_SIZE ->
  size (copy img) = size img
  /\ compress_image env p w
     = (Val tt, {| fs := <[p := data]> (fs w);
                   log := log w ++ [png_save (copy img); EvWrite p data] |}).
Proof.
  intros Hext Hp Himg Halpha Hsave Hlen. split; [done|].
  rewrite compress_image_run.
  rewrite (transparent_png_body env p w content img) by done.
  unfold bind. rewrite try_save_run, Hsave.
  rewrite (proj2 (Z.leb_le _ _) Hlen). unfold write_file. simpl.
  by rewrite <- app_assoc.
Qed.

Lemma transparent_png_first_try_witness :
  let w := demo_world "a.png" (demo_file 72 64 true 600000) in
  lower (snd (splitext "a.png")) = ".png"
  /\ fs w !! "a.png" = Some (demo_file 72 64 true 600000)
  /\ len (Bytes 460800 0) <= TARGET_SIZE
  /\ fs (snd (compress_image (demo_env 0 false) "a.png" w)) !! "a.png"
     = Some (Bytes 460800 0).
Proof.
  intros w.
  assert (H1 : lower (snd (splitext "a.png")) = ".png") by reflexivity.
  assert (H2 : fs w !! "a.png" = Some (demo_file 72 64 true 600000))
    by reflexivity.
  assert (H3 : len (Bytes 460800 0) <= TARGET_SIZE) by (vm_compute; discriminate).
  split; [exact H1|]. split; [exact H2|]. split; [exact H3|].
  rewrite (proj2 (transparent_png_first_try (demo_env 0 false) "a.png" w _ _
                    (Bytes 460800 0) H1 H2 eq_refl eq_refl eq_refl H3)).
  reflexivity.
Defined.

(** X12: whatever happens to a transparent PNG, the file at its path
    is never replaced by an oversized one: afterwards the path holds what it
    held before, or data within the budget, or nothing (after the
    conversion to WebP). *)
Theorem transparent_png_never_oversized env p w content img :
  lower (snd (splitext p)) = ".png" ->
  fs w !! p = Some content ->
  Image_open env p content = Ok img ->
  has_alpha env img = true ->
  (exists tr,
     log (snd (compress_image env p w)) = log w ++ tr
     /\ forall d, In (EvWrite p d) tr -> len d <= TARGET_SIZE)
  /\ forall d, fs (snd (compress_image env p w)) !! p = Some d ->
       d = content \/ len d <= TARGET_SIZE.
Proof.
  intros Hext Hp Himg Halpha.
  assert (Hne : fst (splitext p) +:+ ".webp" <> p)
    by (eapply new_extension_differs; [exact Hext|done]).
  assert (Hrun : exists tr,
             log (snd (compress_image env p w)) = log w ++ tr
             /\ fs (snd (compress_image env p w)) = replay tr (fs w)
             /\ Forall (writes_within_budget p) tr).
  { rewrite compress_image_run.
    destruct (compress_body env p w) as [r w1] eqn:Hbody.
    rewrite (transparent_png_body env p w content img) in Hbody by done.
    apply journal_transparent_png in Hbody as (tr & Hlog & Hfs & Hall);
      [|done].
    destruct r as [[]|e|]; [by exists tr| |by exists tr].
    exists (tr ++ [EvPrint (MsgFailed p e)]). simpl.
    rewrite Hlog, app_assoc, replay_app, <- Hfs. split; [done|].
    split; [done|]. apply Forall_app. by repeat constructor. }
  destruct Hrun as (tr & Hlog & Hfs & Hall). split.
  - exists tr. split; [done|]. intros d Hin.
    eapply List.Forall_forall in Hall; [|exact Hin]. by apply Hall.
  - intros d Hd. rewrite Hfs in Hd.
    apply (replay_within_budget p tr _ d Hall) in Hd as [Hd|Hd]; [|by right].
    left. rewrite Hp in Hd. by injection Hd.
Qed.

Section Outcomes.
Context (env : Env).

Lemma shrunk_from_next s0 s :
  shrunk_from s0 s -> shrunk_from s0 (new_size_of s).
Proof. intros [j ->]. by exists (S j). Qed.

Lemma shrunk_from_start s : shrunk_from s s.
Proof. by exists 0%nat. Qed.

(** When the PNG loop writes, it writes the encoding of the last image it
    encoded, which fits the budget. *)
Lemma png_loop_written n : forall s0 p work data w w',
  shrunk_from s0 (size work) ->
  png_loop env n p work data w = (Val PngWritten, w') ->
  exists ims final d,
    w' = {| fs := <[p := d]> (fs w);
            log := log w ++ map png_save (ims ++ [final]) ++ [EvWrite p d] |}
    /\ Image_save env final "PNG" kw_png = Ok d
    /\ len d <= TARGET_SIZE
    /\ shrunk_from s0 (size final).
Proof.
  induction n as [|n IH]; intros s0 p work data w w' Hs Hrun; [done|].
  simpl in Hrun. case_bool_decide as Hfix; [done|].
  unfold bind at 1 in Hrun. rewrite try_save_run in Hrun.
  set (work' := resize env work (new_size_of (size work))) in *.
  assert (Hs' : shrunk_from s0 (size work')) by by apply shrunk_from_next.
  destruct (Image_save env work' "PNG" kw_png) as [d|e] eqn:Hsave; [|done].
  destruct (len d <=? TARGET_SIZE) eqn:Hd.
  - injection Hrun as <-. exists [], work', d. simpl.
    rewrite <- app_assoc. split; [done|]. split; [done|]. split; [lia|done].
  - apply (IH s0) in Hrun as (ims & final & d' & -> & Hsave' & Hd' & Hfin);
      [|done].
    exists (work' :: ims), final, d'. simpl. rewrite <- app_assoc.
    by repeat split.
Qed.

Lemma png_saves_are_png ims : Forall (saves_as "PNG") (map png_save ims).
Proof.
  apply List.Forall_forall. intros e Hin. apply in_map_iff in Hin as (im & <- & _).
  by exists im, kw_png.
Qed.

Lemma capability_query_fails img fmt kw w e :
  hasattr_SAVE env = true ->
  (forall s, SAVE_keys env s = Err e) ->
  _progressive_compress env img fmt true kw w = (Raise e, w).
Proof. intros Hattr Hkeys. by apply search_needs_capability_query. Qed.

End Outcomes.

(** X13: the three ways a transparent PNG can end.  (a) A lossless PNG
    encoding that fits the budget - of the image itself or of the image
    after some shrink steps - is written over the file, after PNG encodings
    only.  (b) No PNG encoding fitted: the result of the WebP search is
    written under the [.webp] name, the PNG is removed and the conversion is
    announced.  (c) An encoding raised: nothing is written and the failure
    is printed. *)
Theorem transparent_png_outcomes env p w content img :
  lower (snd (splitext p)) = ".png" ->
  fs w !! p = Some content ->
  Image_open env p content = Ok img ->
  has_alpha env img = true ->
  (exists ims final d,
     compress_image env p w
     = (Val tt, {| fs := <[p := d]> (fs w);
                   log := log w ++ map png_save (ims ++ [final])
                          ++ [EvWrite p d] |})
     /\ Image_save env final "PNG" kw_png = Ok d
     /\ len d <= TARGET_SIZE
     /\ shrunk_from (size img) (size final))
  \/ (exists trp tr data,
        Forall (saves_as "PNG") trp /\ Forall (saves_as "WEBP") tr
        /\ compress_image env p w
           = (Val tt,
              {| fs := delete p (<[fst (splitext p) +:+ ".webp" := data]> (fs w));
                 log := log w ++ trp ++ tr
                        ++ [EvWrite (fst (splitext p) +:+ ".webp") data;
                            EvRemove p;
                            EvPrint (MsgToWebp (fst (splitext p) +:+ ".webp"))]
              |}))
  \/ (exists tr e,
        count_writes tr = 0%nat
        /\ compress_image env p w
           = (Val tt, {| fs := fs w;
                         log := log w ++ tr ++ [EvPrint (MsgFailed p e)] |})).
Proof.
  intros Hext Hp Himg Halpha.
  rewrite compress_image_run.
  rewrite (transparent_png_body env p w content img) by done.
  set (w0 := add_log w [EvSave (copy img) "PNG" kw_png]).
  destruct (Image_save env (copy img) "PNG" kw_png) as [d|e] eqn:Hsave.
  2:{ right; right. exists [png_save (copy img)], e. split; [done|].
      assert (Hfirst : _try_save_to_bytes env (copy img) "PNG" kw_png w
                       = (Raise e, w0)) by (by rewrite try_save_run, Hsave).
      rewrite (bind_raise _ _ _ _ _ Hfirst).
      unfold w0, add_log; cbn [fs log]. by rewrite <- app_assoc. }
  assert (Hfirst : _try_save_to_bytes env (copy img) "PNG" kw_png w
                   = (Val d, w0)) by (by rewrite try_save_run, Hsave).
  rewrite (bind_val _ _ _ _ _ Hfirst).
  destruct (len d <=? TARGET_SIZE) eqn:Hd.
  { left. exists [], (copy img), d. split.
    - unfold write_file, w0, add_log; cbn [fs log app map].
      by rewrite <- app_assoc.
    - split; [done|]. split; [lia|]. apply shrunk_from_start. }
  pose proof (png_loop_total env (scale_fuel (size (copy img))) p (copy img) d
                w0 (size_rank_fuel _)) as Htotal.
  destruct (png_loop env (scale_fuel (size (copy img))) p (copy img) d w0)
    as [r w1] eqn:Hloop.
  cbn [fst] in Htotal.
  destruct r as [[|d']|e|]; [| | |done].
  - (* the loop wrote *)
    rewrite (bind_val _ _ _ _ _ Hloop). cbv beta iota.
    apply (png_loop_written env _ (size img)) in Hloop
      as (ims & final & d' & -> & Hsave' & Hd' & Hfin);
      [|apply shrunk_from_start].
    left. exists (copy img :: ims), final, d'. split; [|done].
    unfold ret, w0, add_log; cbn [fs log]. rewrite <- app_assoc.
    reflexivity.
  - (* the loop gave up: WebP *)
    rewrite (bind_val _ _ _ _ _ Hloop). cbv beta iota.
    apply png_loop_run in Hloop as (ims & _ & _ & ->).
    unfold w0. rewrite add_log_app.
    set (trp := [EvSave (copy img) "PNG" kw_png] ++ map png_save ims).
    assert (Htrp : Forall (saves_as "PNG") trp).
    { apply Forall_app. split; [|apply png_saves_are_png].
      repeat constructor. by exists (copy img), kw_png. }
    destruct (search_cases env img "WEBP" kw_webp_lossy (add_log w trp))
      as (tr & Htr & [[data Hrun]|[e Hrun]]).
    + right; left. exists trp, tr, data. split; [done|]. split; [done|].
      rewrite (bind_val _ _ _ _ _ Hrun).
      rewrite replace_by_run by (cbn [fs add_log]; rewrite Hp; by eexists).
      unfold add_log; cbn [fs log]. by rewrite <- !app_assoc.
    + right; right. exists (trp ++ tr), e. split.
      * rewrite count_writes_app.
        rewrite (saves_no_write "PNG" trp Htrp).
        by rewrite (saves_no_write "WEBP" tr Htr).
      * rewrite (bind_raise _ _ _ _ _ Hrun). unfold add_log; cbn [fs log].
        by rewrite <- !app_assoc.
  - (* an encoding in the loop raised *)
    rewrite (bind_raise _ _ _ _ _ Hloop).
    apply png_loop_run in Hloop as (ims & _ & _ & ->).
    right; right. exists (png_save (copy img) :: map png_save ims), e. split.
    + apply (saves_no_write "PNG").
      apply (png_saves_are_png (copy img :: ims)).
    + unfold w0, add_log; cbn [fs log]. rewrite <- !app_assoc.
      reflexivity.
Qed.

Lemma transparent_png_outcomes_witness :
  let env := demo_env 0 false in
  let w := demo_world "a.png" (demo_file 80 72 true 600000) in
  let img := {| size := (80, 72); mode := "RGBA"; format := Some "PNG";
                pixels := demo_file 80 72 true 600000 |} in
  lower (snd (splitext "a.png")) = ".png"
  /\ fs w !! "a.png" = Some (demo_file 80 72 true 600000)
  /\ Image_open env "a.png" (demo_file 80 72 true 600000) = Ok img
  /\ has_alpha env img = true
  /\ fs (snd (compress_image env "a.png" w)) !! "a.png"
     = Some (Bytes 460800 0)
  /\ ((exists ims final d,
         compress_image env "a.png" w
         = (Val tt, {| fs := <["a.png" := d]> (fs w);
                       log := log w ++ map png_save (ims ++ [final])
                              ++ [EvWrite "a.png" d] |})
         /\ Image_save env final "PNG" kw_png = Ok d
         /\ len d <= TARGET_SIZE
         /\ shrunk_from (size img) (size final))
      \/ (exists trp tr data,
            Forall (saves_as "PNG") trp /\ Forall (saves_as "WEBP") tr
            /\ compress_image env "a.png" w
               = (Val tt,
                  {| fs := delete "a.png"
                             (<[fst (splitext "a.png") +:+ ".webp" := data]>
                                (fs w));
                     log := log w ++ trp ++ tr
                            ++ [EvWrite (fst (splitext "a.png") +:+ ".webp")
                                  data;
                                EvRemove "a.png";
                                EvPrint (MsgToWebp (fst (splitext "a.png")
                                                    +:+ ".webp"))] |}))
      \/ (exists tr e,
            count_writes tr = 0%nat
            /\ compress_image env "a.png" w
               = (Val tt, {| fs := fs w;
                             log := log w ++ tr
                                    ++ [EvPrint (MsgFailed "a.png" e)] |}))).
Proof.
  intros env w img.
  assert (H1 : lower (snd (splitext "a.png")) = ".png") by reflexivity.
  assert (H2 : fs w !! "a.png" = Some (demo_file 80 72 true 600000))
    by reflexivity.
  assert (H3 : Image_open env "a.png" (demo_file 80 72 true 600000) = Ok img)
    by reflexivity.
  assert (H4 : has_alpha env img = true) by reflexivity.
  split; [exact H1|]. split; [exact H2|]. split; [exact H3|].
  split; [exact H4|]. split; [reflexivity|].
  exact (transparent_png_outcomes env "a.png" w _ img H1 H2 H3 H4).
Defined.

(** X14: a file with any other extension.  The search runs in the
    format the image was stored in ([PNG] when unknown).  If it returns, the
    result is written over the file.  If it raises, that failure is
    swallowed: the JPEG search runs on the RGB conversion and its result is
    written under the [.jpg] name beside the original, which stays; only a
    failure of this second search is printed. *)
Theorem other_extension_policy env p w content img :
  str_in (lower (snd (splitext p))) [".jpg"; ".jpeg"; ".png"; ".webp"] = false ->
  fs w !! p = Some content ->
  Image_open env p content = Ok img ->
  exists tr1,
    Forall (saves_as (format_or_png img)) tr1
    /\ ((exists data,
           _progressive_compress env img (format_or_png img) true kw_optimize w
           = (Val data, add_log w tr1)
           /\ compress_image env p w
              = (Val tt, {| fs := <[p := data]> (fs w);
                            log := log w ++ tr1 ++ [EvWrite p data] |}))
        \/ (exists e1 tr2,
              _progressive_compress env img (format_or_png img) true
                kw_optimize w = (Raise e1, add_log w tr1)
              /\ Forall (saves_as "JPEG") tr2
              /\ ((exists data,
                     compress_image env p w
                     = (Val tt,
                        {| fs := <[fst (splitext p) +:+ ".jpg" := data]> (fs w);
                           log := log w ++ tr1 ++ tr2
                                  ++ [EvWrite (fst (splitext p) +:+ ".jpg")
                                        data] |}))
                  \/ (exists e2,
                        compress_image env p w
                        = (Val tt,
                           {| fs := fs w;
                              log := log w ++ tr1 ++ tr2
                                     ++ [EvPrint (MsgFailed p e2)] |}))))).
Proof.
  intros Hext Hp Himg. rewrite compress_image_run.
  rewrite (other_body env p w content img) by done. unfold try_except.
  destruct (search_then_write env img (format_or_png img) kw_optimize p w)
    as (tr1 & Htr1 & [(d & Hrun & Hw)|(e1 & Hrun & Hw)]);
    exists tr1; (split; [done|]); rewrite Hw.
  - left. by exists d.
  - right. exists e1.
    destruct (search_then_write env (convert env img "RGB") "JPEG" kw_optimize
                (fst (splitext p) +:+ ".jpg") (add_log w tr1))
      as (tr2 & Htr2 & [(d & Hrun2 & Hw2)|(e2 & Hrun2 & Hw2)]);
      exists tr2; (split; [done|]); (split; [done|]); rewrite Hw2.
    + left. exists d. simpl. by rewrite <- !app_assoc.
    + right. exists e2. unfold add_log. simpl. by rewrite <- !app_assoc.
Qed.

Lemma other_extension_policy_witness :
  let env := demo_env 0 false in
  let w := demo_world "scan.bmp" (demo_file_of 3 80 72 false 600000) in
  let img := {| size := (80, 72); mode := "RGB"; format := Some "BMP";
                pixels := demo_file_of 3 80 72 false 600000 |} in
  str_in (lower (snd (splitext "scan.bmp"))) [".jpg"; ".jpeg"; ".png"; ".webp"]
  = false
  /\ fs w !! "scan.bmp" = Some (demo_file_of 3 80 72 false 600000)
  /\ Image_open env "scan.bmp" (demo_file_of 3 80 72 false 600000) = Ok img
  /\ exists tr1,
       Forall (saves_as (format_or_png img)) tr1
       /\ ((exists data,
              _progressive_compress env img (format_or_png img) true
                kw_optimize w = (Val data, add_log w tr1)
              /\ compress_image env "scan.bmp" w
                 = (Val tt, {| fs := <["scan.bmp" := data]> (fs w);
                               log := log w ++ tr1
                                      ++ [EvWrite "scan.bmp" data] |}))
           \/ (exists e1 tr2,
                 _progressive_compress env img (format_or_png img) true
                   kw_optimize w = (Raise e1, add_log w tr1)
                 /\ Forall (saves_as "JPEG") tr2
                 /\ ((exists data,
                        compress_image env "scan.bmp" w
                        = (Val tt,
                           {| fs := <[fst (splitext "scan.bmp") +:+ ".jpg"
                                      := data]> (fs w);
                              log := log w ++ tr1 ++ tr2
                                     ++ [EvWrite (fst (splitext "scan.bmp")
                                                  +:+ ".jpg") data] |}))
                     \/ (exists e2,
                           compress_image env "scan.bmp" w
                           = (Val tt,
                              {| fs := fs w;
                                 log := log w ++ tr1 ++ tr2
                                        ++ [EvPrint (MsgFailed "scan.bmp" e2)]
                              |}))))).
Proof.
  intros env w img.
  assert (H1 : str_in (lower (snd (splitext "scan.bmp")))
                 [".jpg"; ".jpeg"; ".png"; ".webp"] = false) by reflexivity.
  assert (H2 : fs w !! "scan.bmp" = Some (demo_file_of 3 80 72 false 600000))
    by reflexivity.
  assert (H3 : Image_open env "scan.bmp" (demo_file_of 3 80 72 false 600000)
               = Ok img) by reflexivity.
  split; [exact H1|]. split; [exact H2|]. split; [exact H3|].
  exact (other_extension_policy env "scan.bmp" w _ img H1 H2 H3).
Defined.

(** X15: when [Image.SAVE] exists and its [keys] method refuses an
    argument (as the method of a dict does), every search raises at its
    first loop test.  So for every readable file that is not a transparent
    PNG, [compress_image] encodes nothing, leaves the files as they were
    and prints the failure. *)
Theorem refused_capability_query_blocks_compression env p w content img e :
  hasattr_SAVE env = true ->
  (forall s, SAVE_keys env s = Err e) ->
  fs w !! p = Some content ->
  Image_open env p content = Ok img ->
  (lower (snd (splitext p)) = ".png" -> has_alpha env img = false) ->
  compress_image env p w = (Val tt, add_log w [EvPrint (MsgFailed p e)]).
Proof.
  intros Hattr Hkeys Hp Himg Hopaque. rewrite compress_image_run.
  assert (Hsearch : forall src fmt kw w0,
             _progressive_compress env src fmt true kw w0 = (Raise e, w0))
    by (intros; by apply capability_query_fails).
  destruct (str_in (lower (snd (splitext p)))
              [".jpg"; ".jpeg"; ".png"; ".webp"]) eqn:Hfour.
  - rewrite four_extensions in Hfour.
    destruct (str_in (lower (snd (splitext p))) [".jpg"; ".jpeg"]) eqn:Hjpg.
    { rewrite (jpeg_body env p w content img) by done.
      by rewrite (bind_raise _ _ _ _ _ (Hsearch _ _ _ _)). }
    destruct (String.eqb (lower (snd (splitext p))) ".png") eqn:Hpng.
    { apply String.eqb_eq in Hpng.
      rewrite (opaque_png_body env p w content img) by auto.
      by rewrite (bind_raise _ _ _ _ _ (Hsearch _ _ _ _)). }
    simpl in Hfour. apply String.eqb_eq in Hfour.
    rewrite (webp_body env p w content img) by done.
    by rewrite (bind_raise _ _ _ _ _ (Hsearch _ _ _ _)).
  - rewrite (other_body env p w content img) by done. unfold try_except.
    rewrite (bind_raise _ _ _ _ _ (Hsearch _ _ _ _)).
    by rewrite (bind_raise _ _ _ _ _ (Hsearch _ _ _ _)).
Qed.

Lemma refused_capability_query_blocks_compression_witness :
  let env := demo_env 0 true in
  let w := demo_world "a.jpg" (demo_file_of 1 80 72 false 600000) in
  hasattr_SAVE env = true
  /\ (forall s, SAVE_keys env s = Err (Exn "TypeError"))
  /\ fs w !! "a.jpg" = Some (demo_file_of 1 80 72 false 600000)
  /\ compress_image env "a.jpg" w
     = (Val tt, add_log w [EvPrint (MsgFailed "a.jpg" (Exn "TypeError"))]).
Proof.
  intros env w.
  assert (H1 : hasattr_SAVE env = true) by reflexivity.
  assert (H2 : forall s, SAVE_keys env s = Err (Exn "TypeError"))
    by (intros s; reflexivity).
  assert (H3 : fs w !! "a.jpg" = Some (demo_file_of 1 80 72 false 600000))
    by reflexivity.
  assert (H5 : lower (snd (splitext "a.jpg")) = ".png" ->
               has_alpha env {| size := (80, 72); mode := "RGB";
                                format := Some "JPEG";
                                pixels := demo_file_of 1 80 72 false 600000 |}
               = false) by (intros _; reflexivity).
  split; [exact H1|]. split; [exact H2|]. split; [exact H3|].
  exact (refused_capability_query_blocks_compression env "a.jpg" w _ _ _
           H1 H2 H3 eq_refl H5).
Defined.

Lemma transparent_png_never_oversized_witness :
  let env := demo_env 0 false in
  let w := demo_world "a.png" (demo_file 80 72 true 600000) in
  let img := {| size := (80, 72); mode := "RGBA"; format := Some "PNG";
                pixels := demo_file 80 72 true 600000 |} in
  lower (snd (splitext "a.png")) = ".png"
  /\ fs w !! "a.png" = Some (demo_file 80 72 true 600000)
  /\ Image_open env "a.png" (demo_file 80 72 true 600000) = Ok img
  /\ has_alpha env img = true
  /\ forall d, fs (snd (compress_image env "a.png" w)) !! "a.png" = Some d ->
       d = demo_file 80 72 true 600000 \/ len d <= TARGET_SIZE.
Proof.
  intros env w img.
  assert (H1 : lower (snd (splitext "a.png")) = ".png") by reflexivity.
  assert (H2 : fs w !! "a.png" = Some (demo_file 80 72 true 600000))
    by reflexivity.
  assert (H3 : Image_open env "a.png" (demo_file 80 72 true 600000) = Ok img)
    by reflexivity.
  assert (H4 : has_alpha env img = true) by reflexivity.
  split; [exact H1|]. split; [exact H2|]. split; [exact H3|].
  split; [exact H4|].
  exact (proj2 (transparent_png_never_oversized env "a.png" w _ img
                  H1 H2 H3 H4)).
Defined.

(** Worked examples for the folder walk. *)

Lemma folder_within_budget_untouched_witness :
  Forall (fun p => exists d, fs small_folder !! p = Some d
                             /\ len d <= TARGET_SIZE)
         (selected (os_walk (demo_env 0 false) (fs small_folder) "."))
  /\ process_folder (demo_env 0 false) "." small_folder
     = (Val tt, small_folder).
Proof.
  assert (Hsel : selected (os_walk (demo_env 0 false) (fs small_folder) ".")
                 = ["./a.png"]) by (vm_compute; reflexivity).
  assert (H1 : Forall (fun p => exists d, fs small_folder !! p = Some d
                                          /\ len d <= TARGET_SIZE)
                 (selected (os_walk (demo_env 0 false) (fs small_folder) "."))).
  { rewrite Hsel. repeat constructor. eexists. split; [reflexivity|].
    vm_compute. discriminate. }
  split; [exact H1|].
  exact (folder_within_budget_untouched (demo_env 0 false) "." small_folder H1).
Defined.

Lemma oversized_file_is_reported_witness :
  let env := demo_env 0 false in
  let w := demo_world "./a.png" (demo_file 80 72 false 600000) in
  is_candidate "a.png" = true
  /\ fs w !! path_join "." "a.png" = Some (demo_file 80 72 false 600000)
  /\ TARGET_SIZE < len (demo_file 80 72 false 600000)
  /\ log (snd (process_file env "." "a.png" w))
     = [EvPrint (MsgCompressing "./a.png" 600000);
        EvSave (copy (convert env
                        {| size := (80, 72); mode := "RGB";
                           format := Some "PNG";
                           pixels := demo_file 80 72 false 600000 |} "RGB"))
          "JPEG" (("quality", PyInt 95) :: kw_optimize);
        EvSave (copy (convert env
                        {| size := (80, 72); mode := "RGB";
                           format := Some "PNG";
                           pixels := demo_file 80 72 false 600000 |} "RGB"))
          "JPEG" (("quality", PyInt 90) :: kw_optimize);
        EvWrite "./a.jpg" (Bytes 518400 0);
        EvRemove "./a.png";
        EvPrint (MsgToJpeg "./a.jpg");
        EvPrint (MsgAfterFile "./a.jpg" 518400)].
Proof.
  intros env w.
  assert (H1 : is_candidate "a.png" = true) by reflexivity.
  assert (H2 : fs w !! path_join "." "a.png"
               = Some (demo_file 80 72 false 600000)) by reflexivity.
  assert (H3 : TARGET_SIZE < len (demo_file 80 72 false 600000))
    by reflexivity.
  split; [exact H1|]. split; [exact H2|]. split; [exact H3|].
  rewrite (oversized_file_is_reported env "." "a.png" w _ H1 H2 H3).
  reflexivity.
Defined.

Lemma missing_file_behaviour_witness :
  is_candidate "gone.png" = true
  /\ fs empty_world !! path_join "." "gone.png" = None
  /\ process_files (demo_env 0 false) "." ["gone.png"; "next.png"] empty_world
     = (Raise (Exn "FileNotFoundError"), empty_world).
Proof.
  assert (H1 : is_candidate "gone.png" = true) by reflexivity.
  assert (H2 : fs empty_world !! path_join "." "gone.png" = None)
    by reflexivity.
  split; [exact H1|]. split; [exact H2|].
  exact (proj2 (missing_file_behaviour (demo_env 0 false) "." "gone.png"
                  ["next.png"] empty_world H1 H2)).
Defined.

Section Blind.
Context (env : Env).

Lemma blind_intro {A} (m : M A) r tr :
  (forall w, m w = (r, add_log w tr)) -> blind m.
Proof. intros H w. by rewrite (H empty_world), (H w). Qed.

Lemma blind_ret {A} (a : A) : blind (ret a).
Proof. apply (blind_intro _ (Val a) []). intros w. by rewrite add_log_nil. Qed.

Lemma blind_raise {A} e : blind (@raise A e).
Proof. apply (blind_intro _ (Raise e) []). intros w. by rewrite add_log_nil. Qed.

Lemma blind_diverge {A} : blind (@diverge A).
Proof. apply (blind_intro _ Diverge []). intros w. by rewrite add_log_nil. Qed.

Lemma blind_lift {A} (r : result A) : blind (lift r).
Proof. destruct r; [apply blind_ret|apply blind_raise]. Qed.

Lemma blind_bind {A B} (m : M A) (k : A -> M B) :
  blind m -> (forall a, blind (k a)) -> blind (bind m k).
Proof.
  intros Hm Hk.
  destruct (m empty_world) as [r0 w0] eqn:Hm0.
  assert (Hm' : forall w, m w = (r0, add_log w (log w0)))
    by (intros w; by rewrite Hm, Hm0).
  destruct r0 as [a|e|].
  - destruct (k a empty_world) as [r1 w1] eqn:Hk0.
    apply (blind_intro _ r1 (log w0 ++ log w1)). intros w.
    unfold bind. rewrite Hm', Hk, Hk0. by rewrite add_log_app.
  - apply (blind_intro _ (Raise e) (log w0)). intros w.
    unfold bind. by rewrite Hm'.
  - apply (blind_intro _ Diverge (log w0)). intros w.
    unfold bind. by rewrite Hm'.
Qed.

Lemma blind_try_save img fmt kw : blind (_try_save_to_bytes env img fmt kw).
Proof. eapply blind_intro. intros w. apply try_save_run. Qed.

Lemma blind_quality_loop n : forall work fmt kw q,
  blind (quality_loop env n work fmt kw q).
Proof.
  induction n as [|n IH]; intros work fmt kw q; [apply blind_diverge|].
  simpl. apply blind_bind; [apply blind_lift|]. intros [|]; [|apply blind_ret].
  apply blind_bind; [apply blind_lift|]. intros kwq.
  apply blind_bind; [apply blind_try_save|]. intros data.
  destruct (_ || _); [|apply IH].
  destruct (len data <=? TARGET_SIZE); apply blind_ret.
Qed.

Lemma blind_scale_loop n : forall work fmt kw q,
  blind (scale_loop env n work fmt kw q).
Proof.
  induction n as [|n IH]; intros work fmt kw q; [apply blind_diverge|].
  cbn [scale_loop]. apply blind_bind; [apply blind_quality_loop|].
  intros [d|q']; [apply blind_ret|].
  case_bool_decide; [|apply IH].
  apply blind_bind; [apply blind_lift|]. intros kwq. apply blind_try_save.
Qed.

Lemma blind_search img fmt quality_first kw :
  blind (_progressive_compress env img fmt quality_first kw).
Proof.
  unfold _progressive_compress.
  destruct (if quality_first then _ else _) as [q kw'].
  apply blind_scale_loop.
Qed.

End Blind.

(** X16: a search never looks at the files or at what happened before:
    in any two worlds it returns the same result (or raises the same
    exception) after the same encodings, and it leaves the files alone. *)
Theorem search_ignores_world env img fmt quality_first kw w1 w2 :
  fst (_progressive_compress env img fmt quality_first kw w1)
  = fst (_progressive_compress env img fmt quality_first kw w2)
  /\ new_events w1 (_progressive_compress env img fmt quality_first kw w1)
     = new_events w2 (_progressive_compress env img fmt quality_first kw w2)
  /\ fs (snd (_progressive_compress env img fmt quality_first kw w1)) = fs w1.
Proof.
  pose proof (blind_search env img fmt quality_first kw) as H.
  rewrite (H w1), (H w2). split; [done|]. split; [|done].
  set (tr := log (snd (_progressive_compress env img fmt quality_first kw
                         empty_world))).
  rewrite (new_events_spec w1 _ tr) by done.
  by rewrite (new_events_spec w2 _ tr).
Qed.

(** X17: the report after a conversion looks for [.webp] first.  When an
    opaque PNG is converted to [.jpg] while a [.webp] file of the same base
    name is already there, the line printed after the compression names the
    old [.webp] file and its size, not the [.jpg] file just written. *)
Theorem stale_webp_is_reported env root f w d img data w1 stale :
  is_candidate f = true ->
  fs w !! path_join root f = Some d ->
  TARGET_SIZE < len d ->
  lower (snd (splitext (path_join root f))) = ".png" ->
  Image_open env (path_join root f) d = Ok img ->
  has_alpha env img = false ->
  _progressive_compress env (convert env img "RGB") "JPEG" true kw_optimize
    (add_log w [EvPrint (MsgCompressing (path_join root f) (len d))])
  = (Val data, w1) ->
  fs w !! (fst (splitext (path_join root f)) +:+ ".webp") = Some stale ->
  exists w2,
    process_file env root f w = (Val tt, w2)
    /\ fs w2 !! (fst (splitext (path_join root f)) +:+ ".jpg") = Some data
    /\ fs w2 !! path_join root f = None
    /\ last (log w2)
       = Some (EvPrint (MsgAfterFile
                          (fst (splitext (path_join root f)) +:+ ".webp")
                          (len stale))).
Proof.
  set (p := path_join root f). set (base := fst (splitext p)).
  intros Hc Hp Hbig Hext Himg Halpha Hrun Hstale.
  rewrite (process_file_run env root f w d) by done. fold p. fold base.
  set (w0 := add_log w [EvPrint (MsgCompressing p (len d))]) in *.
  assert (Hw1 : fs w1 = fs w).
  { destruct (search_cases env (convert env img "RGB") "JPEG" kw_optimize w0)
      as (tr & _ & [[d' H]|[e H]]); rewrite H in Hrun; by inversion Hrun. }
  assert (Hjpg : base +:+ ".jpg" <> p)
    by (eapply new_extension_differs; [exact Hext|done]).
  assert (Hwebp : base +:+ ".webp" <> p)
    by (eapply new_extension_differs; [exact Hext|done]).
  assert (Hdiff : base +:+ ".webp" <> base +:+ ".jpg")
    by (intros H; by apply append_inj_r in H).
  assert (Himage : compress_image env p w0
                   = (Val tt,
                      {| fs := delete p (<[base +:+ ".jpg" := data]> (fs w));
                         log := log w1 ++ [EvWrite (base +:+ ".jpg") data;
                                           EvRemove p;
                                           EvPrint (MsgToJpeg (base +:+ ".jpg"))]
                      |})).
  { rewrite compress_image_run.
    rewrite (opaque_png_body env p w0 d img) by done.
    rewrite (bind_val _ _ _ _ _ Hrun).
    rewrite replace_by_run by (rewrite Hw1, Hp; by eexists).
    by rewrite Hw1. }
  rewrite Himage. cbn [snd fs].
  set (files := delete p (<[base +:+ ".jpg" := data]> (fs w))).
  assert (Hgone : files !! p = None) by apply lookup_delete_eq.
  assert (Hnew : files !! (base +:+ ".jpg") = Some data).
  { unfold files. rewrite lookup_delete_ne by done. apply lookup_insert_eq. }
  assert (Hold : files !! (base +:+ ".webp") = Some stale).
  { unfold files. rewrite lookup_delete_ne by done.
    by rewrite lookup_insert_ne. }
  assert (Hreport : report_after files p
                    = [EvPrint (MsgAfterFile (base +:+ ".webp") (len stale))]).
  { unfold report_after. rewrite bool_decide_eq_false_2
      by (rewrite Hgone; by intros [? ?]).
    fold base. cbn [List.find]. unfold has_file at 1.
    rewrite bool_decide_eq_true_2 by (rewrite Hold; by eexists).
    unfold size_of. by rewrite Hold. }
  eexists. split; [reflexivity|]. cbn [fs add_log log].
  split; [done|]. split; [done|]. rewrite Hreport.
  by rewrite last_snoc.
Qed.

Lemma stale_webp_is_reported_witness :
  let env := demo_env 0 false in
  let w := {| fs := <["./a.png" := demo_file 80 72 false 600000]>
                      (<["./a.webp" := Bytes 700000 0]> ∅);
              log := [] |} in
  is_candidate "a.png" = true
  /\ fs w !! path_join "." "a.png" = Some (demo_file 80 72 false 600000)
  /\ TARGET_SIZE < len (demo_file 80 72 false 600000)
  /\ fs w !! (fst (splitext (path_join "." "a.png")) +:+ ".webp")
     = Some (Bytes 700000 0)
  /\ exists w2,
       process_file env "." "a.png" w = (Val tt, w2)
       /\ fs w2 !! (fst (splitext (path_join "." "a.png")) +:+ ".jpg")
          = Some (Bytes 518400 0)
       /\ fs w2 !! path_join "." "a.png" = None
       /\ last (log w2)
          = Some (EvPrint (MsgAfterFile
                             (fst (splitext (path_join "." "a.png")) +:+ ".webp")
                             (len (Bytes 700000 0)))).
Proof.
  intros env w.
  assert (H1 : is_candidate "a.png" = true) by reflexivity.
  assert (H2 : fs w !! path_join "." "a.png"
               = Some (demo_file 80 72 false 600000)) by reflexivity.
  assert (H3 : TARGET_SIZE < len (demo_file 80 72 false 600000))
    by reflexivity.
  assert (H4 : fs w !! (fst (splitext (path_join "." "a.png")) +:+ ".webp")
               = Some (Bytes 700000 0)) by reflexivity.
  split; [exact H1|]. split; [exact H2|]. split; [exact H3|].
  split; [exact H4|].
  exact (stale_webp_is_reported env "." "a.png" w _ _ (Bytes 518400 0) _ _
           H1 H2 H3 eq_refl eq_refl eq_refl eq_refl H4).
Defined.

Section Names.

Lemma append_cons x a b : String x a +:+ b = String x (a +:+ b).
Proof. reflexivity. Qed.

Lemma append_nil b : "" +:+ b = b.
Proof. reflexivity. Qed.

Lemma str_length_app a b :
  String.length (a +:+ b) = (String.length a + String.length b)%nat.
Proof.
  induction a as [|x a IH]; [done|]. rewrite append_cons. simpl.
  by rewrite IH.
Qed.

Lemma str_app_assoc a b c : (a +:+ b) +:+ c = a +:+ (b +:+ c).
Proof.
  induction a as [|x a IH]; [done|]. rewrite !append_cons. by rewrite IH.
Qed.

Lemma str_take_app a b : str_take (String.length a) (a +:+ b) = a.
Proof.
  induction a as [|x a IH]; [rewrite append_nil; by destruct b|].
  rewrite append_cons. simpl. by rewrite IH.
Qed.

Lemma str_drop_app a b : str_drop (String.length a) (a +:+ b) = b.
Proof.
  induction a as [|x a IH]; [rewrite append_nil; by destruct b|].
  rewrite append_cons. simpl. exact IH.
Qed.

Lemma lower_app a b : lower (a +:+ b) = lower a +:+ lower b.
Proof.
  unfold lower. induction a as [|x a IH]; [done|].
  rewrite append_cons. simpl. rewrite append_cons. by rewrite IH.
Qed.

Lemma endswith_app a b : endswith (a +:+ b) b = true.
Proof.
  unfold endswith. rewrite str_length_app.
  replace (String.length a + String.length b - String.length b)%nat
    with (String.length a) by lia.
  rewrite str_drop_app, String.eqb_refl. simpl. apply Nat.leb_le. lia.
Qed.

Lemma rfind_from_app c a b i last :
  rfind_from c (a +:+ b) i last
  = rfind_from c b (i + Z.of_nat (String.length a)) (rfind_from c a i last).
Proof.
  revert i last. induction a as [|x a IH]; intros i last.
  - rewrite append_nil. simpl. f_equal. lia.
  - rewrite append_cons. simpl rfind_from. rewrite IH. f_equal.
    simpl String.length. lia.
Qed.

Lemma rfind_from_absent c s i last :
  str_forall (not_char c) s = true -> rfind_from c s i last = last.
Proof.
  revert i last. induction s as [|x s IH]; intros i last H; simpl; [done|].
  simpl in H. apply andb_prop in H as [Hx Hs]. unfold not_char in Hx.
  apply negb_true_iff in Hx. rewrite Hx. by apply IH.
Qed.

Lemma rfind_from_range c s i last :
  last < i ->
  last <= rfind_from c s i last < i + Z.of_nat (String.length s).
Proof.
  revert i last. induction s as [|x s IH]; intros i last H; simpl; [lia|].
  destruct (Ascii.eqb x c).
  - specialize (IH (i + 1) i). lia.
  - specialize (IH (i + 1) last). lia.
Qed.

Lemma other_char_between_skip c a s j : forall i,
  (i <= String.length a)%nat ->
  other_char_between c s 0 j = true ->
  other_char_between c (a +:+ s) i (String.length a + j) = true.
Proof.
  induction a as [|x a IH]; intros i Hi H.
  - rewrite append_nil. simpl in *. by replace i with 0%nat by lia.
  - rewrite append_cons. simpl in *. destruct i as [|i].
    + rewrite (IH 0%nat) by (done || lia). apply orb_true_r.
    + apply IH; [lia|done].
Qed.

Lemma other_char_between_stem c stem rest :
  str_forall (is_char c) stem = false ->
  other_char_between c (stem +:+ rest) 0 (String.length stem) = true.
Proof.
  induction stem as [|x stem IH]; intros H; [done|].
  rewrite append_cons. simpl in *.
  unfold is_char at 1 in H. destruct (Ascii.eqb x c); simpl in *; [|done].
  by apply IH.
Qed.

Lemma ascii_lower_dot a : Ascii.eqb (ascii_lower a) "." = Ascii.eqb a ".".
Proof. by destruct a as [[] [] [] [] [] [] [] []]. Qed.

Lemma ascii_lower_slash a : Ascii.eqb (ascii_lower a) "/" = Ascii.eqb a "/".
Proof. by destruct a as [[] [] [] [] [] [] [] []]. Qed.

Lemma str_forall_lower c s :
  (forall a, Ascii.eqb (ascii_lower a) c = Ascii.eqb a c) ->
  str_forall (not_char c) (lower s) = str_forall (not_char c) s.
Proof.
  intros Hc. unfold lower.
  induction s as [|x s IH]; simpl; [done|].
  unfold not_char at 1 3. by rewrite Hc, IH.
Qed.

Lemma str_forall_app P a b :
  str_forall P (a +:+ b) = str_forall P a && str_forall P b.
Proof.
  induction a as [|x a IH]; [done|]. rewrite append_cons. simpl.
  by rewrite IH, andb_assoc.
Qed.

(** The shape of a name whose lower-cased form is one of the four
    extensions: a dot, then characters that are neither dots nor slashes. *)
Lemma extension_shape ext :
  str_in (lower ext) [".jpg"; ".jpeg"; ".png"; ".webp"] = true ->
  exists rest,
    ext = String "." rest
    /\ str_forall (not_char ".") rest = true
    /\ str_forall (not_char "/") ext = true.
Proof.
  intros H.
  assert (Hdot : str_forall (not_char ".") (str_drop 1 (lower ext)) = true
                 /\ str_forall (not_char "/") (lower ext) = true
                 /\ str_take 1 (lower ext) = ".").
  { unfold str_in in H. simpl in H.
    repeat (apply orb_prop in H as [H|H]); try discriminate;
      apply String.eqb_eq in H; by rewrite H. }
  destruct Hdot as (Hrest & Hslash & Hfirst).
  rewrite (str_forall_lower "/") in Hslash by apply ascii_lower_slash.
  destruct ext as [|c rest]; [done|]. exists rest.
  change (lower (String c rest)) with (String (ascii_lower c) (lower rest))
    in Hrest, Hfirst.
  simpl in Hrest, Hfirst.
  rewrite (str_forall_lower ".") in Hrest by apply ascii_lower_dot.
  split; [|done]. f_equal.
  assert (Hc : ascii_lower c = "."%char)
    by (destruct (lower rest); by injection Hfirst).
  apply Ascii.eqb_eq. rewrite <- ascii_lower_dot. by apply Ascii.eqb_eq.
Qed.

Lemma path_join_prefix root f :
  String.prefix "/" f = false -> path_join root f = join_prefix root +:+ f.
Proof.
  intros H. unfold path_join, join_prefix. rewrite H.
  destruct (_ || _); [done|]. by rewrite str_app_assoc.
Qed.

Lemma no_slash_first stem rest :
  str_forall (not_char "/") stem = true ->
  str_forall (is_char ".") stem = false ->
  String.prefix "/" (stem +:+ rest) = false.
Proof.
  intros Hs Hd. destruct stem as [|x stem]; [done|]. rewrite append_cons.
  simpl in Hs.
  apply andb_prop in Hs as [Hx _]. unfold not_char in Hx.
  apply negb_true_iff in Hx. apply Ascii.eqb_neq in Hx.
  destruct (String.prefix "/" (String x (stem +:+ rest))) eqn:E; [|done].
  apply prefix_correct in E. simpl in E. injection E as E _.
  by destruct Hx.
Qed.

Lemma splitext_stem pre stem ext rest :
  ext = String "." rest ->
  str_forall (not_char ".") rest = true ->
  str_forall (not_char "/") ext = true ->
  str_forall (not_char "/") stem = true ->
  str_forall (is_char ".") stem = false ->
  splitext (pre +:+ (stem +:+ ext)) = (pre +:+ stem, ext).
Proof.
  intros Hext Hrest Hslash Hstem Hdots.
  set (path := pre +:+ (stem +:+ ext)).
  assert (Hsep : rfind "/" path = rfind "/" pre).
  { unfold rfind, path. rewrite rfind_from_app.
    apply rfind_from_absent. rewrite str_forall_app. by rewrite Hstem, Hslash. }
  assert (Hdot : rfind "." path
                 = Z.of_nat (String.length (pre +:+ stem))).
  { unfold rfind, path. rewrite <- str_app_assoc. rewrite rfind_from_app.
    rewrite Hext. simpl. by rewrite rfind_from_absent. }
  pose proof (rfind_from_range "/" pre 0 (-1) ltac:(lia)) as Hrange.
  fold (rfind "/" pre) in Hrange.
  unfold splitext. fold path. rewrite Hsep, Hdot, Nat2Z.id.
  rewrite str_length_app.
  assert (Hlt : (rfind "/" pre
                 <? Z.of_nat (String.length pre + String.length stem)) = true)
    by (apply Z.ltb_lt; lia).
  rewrite Hlt. unfold path.
  rewrite other_char_between_skip;
    [|lia|by apply other_char_between_stem].
  simpl. rewrite <- str_length_app, <- str_app_assoc.
  by rewrite str_take_app, str_drop_app.
Qed.

Lemma other_char_between_shift c a s i j :
  other_char_between c (a +:+ s) (String.length a + i) (String.length a + j)
  = other_char_between c s i j.
Proof.
  induction a as [|x a IH]; [done|]. rewrite append_cons. simpl. exact IH.
Qed.

Lemma other_char_between_dots c stem rest :
  str_forall (is_char c) stem = true ->
  other_char_between c (stem +:+ rest) 0 (String.length stem) = false.
Proof.
  induction stem as [|x stem IH]; intros H.
  - rewrite append_nil. by destruct rest.
  - rewrite append_cons. simpl in *. apply andb_prop in H as [Hx Hs].
    unfold is_char in Hx. rewrite Hx. simpl. by apply IH.
Qed.

Lemma endswith_slash s :
  endswith s "/" = true -> exists r, s = r +:+ "/".
Proof.
  unfold endswith. intros H. apply andb_prop in H as [H _].
  apply String.eqb_eq in H.
  exists (str_take (String.length s - String.length "/") s).
  pose proof (str_take_drop (String.length s - String.length "/") s) as E.
  rewrite H in E. by symmetry.
Qed.

(** The last slash of what [os.path.join] puts before the name is its last
    character. *)
Lemma join_prefix_sep root :
  rfind "/" (join_prefix root) + 1
  = Z.of_nat (String.length (join_prefix root)).
Proof.
  assert (Hend : forall r, rfind "/" (r +:+ "/") + 1
                           = Z.of_nat (String.length (r +:+ "/"))).
  { intros r. unfold rfind. rewrite rfind_from_app, str_length_app. simpl.
    lia. }
  unfold join_prefix. destruct (String.eqb root "") eqn:Hempty.
  - apply String.eqb_eq in Hempty. by subst root.
  - simpl. destruct (endswith root "/") eqn:Hslash; [|apply Hend].
    apply endswith_slash in Hslash as [r ->]. apply Hend.
Qed.

Lemma splitext_dots pre stem ext rest :
  rfind "/" pre + 1 = Z.of_nat (String.length pre) ->
  ext = String "." rest ->
  str_forall (not_char ".") rest = true ->
  str_forall (not_char "/") ext = true ->
  str_forall (is_char ".") stem = true ->
  splitext (pre +:+ (stem +:+ ext)) = (pre +:+ (stem +:+ ext), "").
Proof.
  intros Hpre Hext Hrest Hslash Hdots.
  assert (Hstem : str_forall (not_char "/") stem = true).
  { clear -Hdots. induction stem as [|x stem IH]; [done|]. simpl in *.
    apply andb_prop in Hdots as [Hx Hs]. rewrite (IH Hs).
    unfold is_char in Hx. apply Ascii.eqb_eq in Hx. by subst x. }
  set (path := pre +:+ (stem +:+ ext)).
  assert (Hsep : rfind "/" path = rfind "/" pre).
  { unfold rfind, path. rewrite rfind_from_app.
    apply rfind_from_absent. rewrite str_forall_app. by rewrite Hstem, Hslash. }
  assert (Hdot : rfind "." path
                 = Z.of_nat (String.length (pre +:+ stem))).
  { unfold rfind, path. rewrite <- str_app_assoc. rewrite rfind_from_app.
    rewrite Hext. simpl. by rewrite rfind_from_absent. }
  unfold splitext. fold path. rewrite Hsep, Hdot, Hpre, !Nat2Z.id.
  rewrite str_length_app. unfold path.
  rewrite <- (Nat.add_0_r (String.length pre)) at 2.
  rewrite other_char_between_shift.
  rewrite other_char_between_dots by done. by rewrite andb_false_r.
Qed.

End Names.

(** X18: a file name made of a stem and one of the four extensions (in
    any letter case), where the stem has no slash and at least one character
    other than a dot, is selected by [process_folder], and [compress_image]
    sees exactly that extension and takes the joined stem as the base name
    of a converted file. *)
Theorem selected_name_keeps_its_extension root stem ext :
  str_in (lower ext) [".jpg"; ".jpeg"; ".png"; ".webp"] = true ->
  str_forall (not_char "/") stem = true ->
  str_forall (is_char ".") stem = false ->
  is_candidate (stem +:+ ext) = true
  /\ splitext (path_join root (stem +:+ ext)) = (path_join root stem, ext).
Proof.
  intros Hext Hstem Hdots. split.
  - unfold is_candidate. rewrite lower_app.
    unfold str_in in Hext. apply existsb_exists in Hext as (x & Hin & Hx).
    apply existsb_exists. exists x. split; [done|].
    apply String.eqb_eq in Hx. rewrite Hx. apply endswith_app.
  - destruct (extension_shape ext Hext) as (rest & Hshape & Hrest & Hslash).
    rewrite !path_join_prefix.
    + by apply (splitext_stem _ _ _ rest).
    + rewrite <- (append_empty_r stem). by apply no_slash_first.
    + by apply no_slash_first.
Qed.

Lemma selected_name_keeps_its_extension_witness :
  str_in (lower ".PNG") [".jpg"; ".jpeg"; ".png"; ".webp"] = true
  /\ str_forall (not_char "/") "my.photo" = true
  /\ str_forall (is_char ".") "my.photo" = false
  /\ is_candidate ("my.photo" +:+ ".PNG") = true
  /\ splitext (path_join "./album" ("my.photo" +:+ ".PNG"))
     = (path_join "./album" "my.photo", ".PNG").
Proof.
  assert (H1 : str_in (lower ".PNG") [".jpg"; ".jpeg"; ".png"; ".webp"] = true)
    by reflexivity.
  assert (H2 : str_forall (not_char "/") "my.photo" = true) by reflexivity.
  assert (H3 : str_forall (is_char ".") "my.photo" = false) by reflexivity.
  split; [exact H1|]. split; [exact H2|]. split; [exact H3|].
  exact (selected_name_keeps_its_extension "./album" "my.photo" ".PNG"
           H1 H2 H3).
Defined.

(** X19: a name that has nothing but dots before one of the four
    extensions, such as [.png], is selected by [process_folder] too, but
    for [compress_image] it has no extension at all: such a file is handled
    by the branch for other formats. *)
Theorem dotted_name_has_no_extension root stem ext :
  str_in (lower ext) [".jpg"; ".jpeg"; ".png"; ".webp"] = true ->
  str_forall (is_char ".") stem = true ->
  is_candidate (stem +:+ ext) = true
  /\ splitext (path_join root (stem +:+ ext))
     = (path_join root (stem +:+ ext), "")
  /\ str_in (lower (snd (splitext (path_join root (stem +:+ ext)))))
       [".jpg"; ".jpeg"; ".png"; ".webp"] = false.
Proof.
  intros Hext Hdots.
  assert (Hcand : is_candidate (stem +:+ ext) = true).
  { unfold is_candidate. rewrite lower_app.
    unfold str_in in Hext. apply existsb_exists in Hext as (x & Hin & Hx).
    apply existsb_exists. exists x. split; [done|].
    apply String.eqb_eq in Hx. rewrite Hx. apply endswith_app. }
  destruct (extension_shape ext Hext) as (rest & Hshape & Hrest & Hslash).
  assert (Hfirst : String.prefix "/" (stem +:+ ext) = false).
  { destruct (String.prefix "/" (stem +:+ ext)) eqn:E; [|done].
    apply prefix_correct in E. exfalso. destruct stem as [|x stem].
    - rewrite append_nil, Hshape in E. simpl in E. by injection E.
    - rewrite append_cons in E. simpl in *.
      apply andb_prop in Hdots as [Hx _]. unfold is_char in Hx.
      apply Ascii.eqb_eq in Hx. subst x. by injection E. }
  assert (Hsplit : splitext (path_join root (stem +:+ ext))
                   = (path_join root (stem +:+ ext), "")).
  { rewrite path_join_prefix by done.
    apply (splitext_dots _ _ _ rest); try done. apply join_prefix_sep. }
  split; [done|]. split; [done|]. by rewrite Hsplit.
Qed.

Lemma dotted_name_has_no_extension_witness :
  str_in (lower ".png") [".jpg"; ".jpeg"; ".png"; ".webp"] = true
  /\ str_forall (is_char ".") "" = true
  /\ is_candidate ("" +:+ ".png") = true
  /\ splitext (path_join "." ("" +:+ ".png"))
     = (path_join "." ("" +:+ ".png"), "").
Proof.
  assert (H1 : str_in (lower ".png") [".jpg"; ".jpeg"; ".png"; ".webp"] = true)
    by reflexivity.
  assert (H2 : str_forall (is_char ".") "" = true) by reflexivity.
  split; [exact H1|]. split; [exact H2|].
  destruct (dotted_name_has_no_extension "." "" ".png" H1 H2) as (H3 & H4 & _).
  split; [exact H3|exact H4].
Defined.

(** * The shipped registry: what a run really does *)

(** ** The search under the dictionary registry *)

Section Registry.
Context (env : Env).

Lemma dict_registry_query e fmt :
  dict_registry env e -> supports_quality env fmt = Err e.
Proof. intros [Hattr Hkeys]. unfold supports_quality. by rewrite Hattr, Hkeys. Qed.

Lemma dict_registry_search e img fmt quality_first kw w :
  dict_registry env e ->
  _progressive_compress env img fmt quality_first kw w = (Raise e, w).
Proof. intros [Hattr Hkeys]. by apply search_needs_capability_query. Qed.

Lemma new_events_none {A} w (r : outcome A) : new_events w (r, w) = [].
Proof. apply new_events_spec. simpl. by rewrite app_nil_r. Qed.



(** Where the capability test answers that the format has a quality
    parameter: on a working image that cannot shrink any further, with all
    of 95, 90, ..., 20 over budget, the search returns the one further
    encoding it asks at [MIN_QUALITY]. *)
Lemma best_effort_when_query_answers n work fmt kw w data :
  supports_quality env fmt = Ok true ->
  str_in "quality" (map fst kw) = false ->
  new_size_of (size work) = size work ->
  (forall i, (i <= 15)%nat ->
     over_budget env work fmt kw (95 - QUALITY_STEP * Z.of_nat i) = true) ->
  Image_save env work fmt (("quality", PyInt MIN_QUALITY) :: kw) = Ok data ->
  scale_loop env (S n) work fmt kw 95 w
  = (Val data,
     add_log w (level work fmt kw 95 16 ++ [save_at work fmt kw MIN_QUALITY])).
Proof.
  intros Hs Hk Hfix Hover Hsave. rewrite scale_loop_step.
  rewrite (quality_loop_exhaust env 15 _ work fmt kw 95 w Hs Hk);
    [ | unfold quality_fuel, MIN_QUALITY; lia | exact Hover
      | intros i Hi; unfold MIN_QUALITY, QUALITY_STEP; lia
      | unfold MIN_QUALITY, QUALITY_STEP; lia ].
  rewrite bool_decide_eq_true_2 by done.
  change (Z.max MIN_QUALITY (95 - QUALITY_STEP * Z.of_nat 15))
    with MIN_QUALITY.
  rewrite with_quality_ok by done. rewrite try_save_run, Hsave.
  by rewrite add_log_app.
Qed.

End Registry.

(** C1: with the dictionary registry the search never starts: the test of
    the inner loop raises before the first encoding, whatever the format,
    so nothing is encoded at quality 95 or at any other quality, and the
    call raises instead of returning an encoding. *)
Theorem quality_search_never_starts env e img fmt quality_first kw w :
  dict_registry env e ->
  _progressive_compress env img fmt quality_first kw w = (Raise e, w)
  /\ candidates
       (new_events w (_progressive_compress env img fmt quality_first kw w))
     = []
  /\ (forall n work q,
        quality_loop env (S n) work fmt kw q w = (Raise e, w)).
Proof.
  intros Hreg.
  rewrite (dict_registry_search env e img fmt quality_first kw w Hreg).
  split; [done|]. split; [by rewrite new_events_none|].
  intros n work q. apply quality_loop_query_raises.
  by apply dict_registry_query.
Qed.

Lemma quality_search_never_starts_witness :
  dict_registry (demo_env 0 true) (Exn "TypeError")
  /\ _progressive_compress (demo_env 0 true) (demo_image 80 72 "RGB") "JPEG"
       true kw_optimize empty_world
     = (Raise (Exn "TypeError"), empty_world).
Proof.
  assert (H : dict_registry (demo_env 0 true) (Exn "TypeError"))
    by (split; [reflexivity|intros s; reflexivity]).
  split; [exact H|].
  exact (proj1 (quality_search_never_starts (demo_env 0 true) _
                  (demo_image 80 72 "RGB") "JPEG" true kw_optimize
                  empty_world H)).
Defined.

(** C2: with the dictionary registry the search never returns a best-effort
    encoding: it raises, also on an image that cannot shrink any further,
    where the first downscale step would produce no dimension change. *)
Theorem best_effort_never_returned env e img fmt kw w :
  dict_registry env e ->
  fst (_progressive_compress env img fmt true kw w) = Raise e
  /\ (forall data w',
        _progressive_compress env img fmt true kw w <> (Val data, w'))
  /\ (forall n work q,
        new_size_of (size work) = size work ->
        scale_loop env (S n) work fmt kw q w = (Raise e, w)).
Proof.
  intros Hreg.
  rewrite (dict_registry_search env e img fmt true kw w Hreg).
  split; [done|]. split; [done|]. intros n work q _.
  rewrite scale_loop_step. unfold quality_fuel.
  by rewrite (quality_loop_query_raises env _ _ _ _ _ _ e)
    by (by apply dict_registry_query).
Qed.

Lemma best_effort_never_returned_witness :
  dict_registry (demo_env 600000 true) (Exn "TypeError")
  /\ (forall work kw,
        exists d, Image_save (demo_env 600000 true) work "JPEG" kw = Ok d
                  /\ TARGET_SIZE < len d)
  /\ new_size_of (size (demo_image 1 1 "RGB")) = size (demo_image 1 1 "RGB")
  /\ fst (_progressive_compress (demo_env 600000 true) (demo_image 1 1 "RGB")
            "JPEG" true kw_optimize empty_world)
     = Raise (Exn "TypeError").
Proof.
  assert (H : dict_registry (demo_env 600000 true) (Exn "TypeError"))
    by (split; [reflexivity|intros s; reflexivity]).
  split; [exact H|]. split.
  { intros work kw. eexists. split; [reflexivity|].
    unfold len, TARGET_SIZE. simpl. lia. }
  split; [reflexivity|].
  exact (proj1 (best_effort_never_returned (demo_env 600000 true) _
                  (demo_image 1 1 "RGB") "JPEG" kw_optimize empty_world H)).
Defined.

(** C6: with the dictionary registry an opaque PNG is not converted: the
    JPEG search raises at its first test, so no [.jpg] file is written, the
    PNG stays as it was and only the failure is printed.  A PNG with alpha
    is, with any registry, only ever encoded as PNG or WebP and written in
    place or under the [.webp] name. *)
Theorem opaque_png_not_converted env e p w content img :
  dict_registry env e ->
  lower (snd (splitext p)) = ".png" ->
  fs w !! p = Some content ->
  Image_open env p content = Ok img ->
  (has_alpha env img = false ->
     compress_image env p w = (Val tt, add_log w [EvPrint (MsgFailed p e)])
     /\ fs (snd (compress_image env p w)) !! p = Some content
     /\ fs (snd (compress_image env p w)) !! (fst (splitext p) +:+ ".jpg")
        = fs w !! (fst (splitext p) +:+ ".jpg"))
  /\ (has_alpha env img = true ->
      within (keeps_alpha p) w (compress_image env p w)).
Proof.
  intros Hreg Hext Hp Himg. split.
  - intros Halpha.
    assert (Hrun : compress_image env p w
                   = (Val tt, add_log w [EvPrint (MsgFailed p e)])).
    { rewrite compress_image_run.
      rewrite (opaque_png_body env p w content img) by done.
      by rewrite (bind_raise _ _ _ _ _
                    (dict_registry_search env e _ _ _ _ _ Hreg)). }
    rewrite Hrun. by repeat split.
  - intros Halpha. rewrite compress_image_run.
    destruct (transparent_png_events env p w content img Hext Hp Himg Halpha)
      as (tr & Hlog & Htr).
    destruct (compress_body env p w) as [[[]|e'|] w1]; simpl in *.
    + by exists tr.
    + exists (tr ++ [EvPrint (MsgFailed p e')]). simpl.
      rewrite Hlog, app_assoc.
      split; [done|]. apply Forall_app. by repeat constructor.
    + by exists tr.
Qed.

Lemma opaque_png_not_converted_witness :
  let env := demo_env 0 true in
  let w := demo_world "a.png" (demo_file 80 72 false 600000) in
  dict_registry env (Exn "TypeError")
  /\ lower (snd (splitext "a.png")) = ".png"
  /\ fs w !! "a.png" = Some (demo_file 80 72 false 600000)
  /\ compress_image env "a.png" w
     = (Val tt, add_log w [EvPrint (MsgFailed "a.png" (Exn "TypeError"))])
  /\ fs (snd (compress_image env "a.png" w)) !! "a.png"
     = Some (demo_file 80 72 false 600000)
  /\ fs (snd (compress_image env "a.png" w)) !! "a.jpg" = None.
Proof.
  intros env w.
  assert (H0 : dict_registry env (Exn "TypeError"))
    by (split; [reflexivity|intros s; reflexivity]).
  assert (H1 : lower (snd (splitext "a.png")) = ".png") by reflexivity.
  assert (H2 : fs w !! "a.png" = Some (demo_file 80 72 false 600000))
    by reflexivity.
  split; [exact H0|]. split; [exact H1|]. split; [exact H2|].
  destruct (proj1 (opaque_png_not_converted env _ "a.png" w _ _ H0 H1 H2
                     eq_refl) eq_refl) as (Hrun & Hold & Hnew).
  split; [exact Hrun|]. split; [exact Hold|].
  transitivity (fs w !! (fst (splitext "a.png") +:+ ".jpg"));
    [exact Hnew|reflexivity].
Defined.



(** ** How the processing of one file ends *)

Section FileOutcomes.
Context (env : Env).

Lemma saves_are_saves fmt t : Forall (saves_as fmt) t -> forallb is_save t = true.
Proof.
  induction 1 as [|x t (im & kw & ->) _ IH]; [done|]. simpl. exact IH.
Qed.

Lemma png_saves_are_saves ims : forallb is_save (map png_save ims) = true.
Proof. induction ims as [|im ims IH]; [done|]. simpl. exact IH. Qed.

Lemma saves_no_report t :
  forallb is_save t = true -> existsb is_failure_report t = false.
Proof.
  induction t as [|x t IH]; [done|]. simpl. intros H.
  apply andb_prop in H as [Hx Ht]. rewrite (IH Ht). by destruct x.
Qed.

Lemma saves_write_nothing t :
  forallb is_save t = true -> count_writes t = 0%nat.
Proof.
  induction t as [|x t IH]; [done|]. simpl. intros H.
  apply andb_prop in H as [Hx Ht]. destruct x; try done.
  unfold count_writes in *. simpl. by apply IH.
Qed.

Lemma saves_remove_nothing t :
  forallb is_save t = true -> existsb is_remove t = false.
Proof.
  induction t as [|x t IH]; [done|]. simpl. intros H.
  apply andb_prop in H as [Hx Ht]. rewrite (IH Ht). by destruct x.
Qed.

Lemma world_eq f l1 l2 :
  l1 = l2 -> {| fs := f; log := l1 |} = {| fs := f; log := l2 |}.
Proof. by intros ->. Qed.

Lemma file_outcome_inv p w res :
  file_outcome p w res ->
  (exists t e,
      forallb is_save t = true
      /\ res = (Val tt, {| fs := fs w;
                           log := log w ++ t ++ [EvPrint (MsgFailed p e)] |}))
  \/ (exists t d,
        forallb is_save t = true
        /\ res = (Val tt, {| fs := <[p := d]> (fs w);
                             log := log w ++ t ++ [EvWrite p d] |}))
  \/ (exists t new d msg,
        forallb is_save t = true
        /\ new <> p
        /\ ((new = fst (splitext p) +:+ ".jpg" /\ msg = MsgToJpeg new)
            \/ (new = fst (splitext p) +:+ ".webp" /\ msg = MsgToWebp new))
        /\ res = (Val tt, {| fs := delete p (<[new := d]> (fs w));
                             log := log w ++ t ++ [EvWrite new d; EvRemove p;
                                                   EvPrint msg] |})).
Proof.
  destruct 1 as [t e Ht | t d Ht | t new d msg Ht Hne Hnew].
  - left. by exists t, e.
  - right; left. by exists t, d.
  - right; right. by exists t, new, d, msg.
Qed.

(** A search followed by one write over [p]. *)
Lemma outcome_in_place img fmt kw p w :
  compress_body env p w
  = bind (_progressive_compress env img fmt true kw) (write_file p) w ->
  file_outcome p w (compress_image env p w).
Proof.
  intros Hbody.
  destruct (in_place_or_reported env img fmt kw p w Hbody)
    as (tr & Htr & [(d & _ & ->)|(e & _ & ->)]);
    apply saves_are_saves in Htr.
  - by apply written_in_place.
  - by apply ended_in_failure.
Qed.

(** A search followed by the replacement of [p] by a new file. *)
Lemma outcome_replaced img fmt kw new msg p w t0 :
  forallb is_save t0 = true ->
  is_Some (fs w !! p) ->
  new <> p ->
  (new = fst (splitext p) +:+ ".jpg" /\ msg = MsgToJpeg new)
  \/ (new = fst (splitext p) +:+ ".webp" /\ msg = MsgToWebp new) ->
  compress_body env p w
  = bind (_progressive_compress env img fmt true kw)
         (fun data => replace_by new p data msg) (add_log w t0) ->
  file_outcome p w (compress_image env p w).
Proof.
  intros Ht0 Hp Hne Hnew Hbody. rewrite compress_image_run, Hbody.
  destruct (search_cases env img fmt kw (add_log w t0))
    as (tr & Htr & [[d Hrun]|[e Hrun]]); apply saves_are_saves in Htr.
  - rewrite (bind_val _ _ _ _ _ Hrun).
    rewrite replace_by_run by done. cbn [fs log add_log].
    rewrite <- !app_assoc, (app_assoc t0).
    apply converted; [|done|done]. by rewrite forallb_app, Ht0, Htr.
  - rewrite (bind_raise _ _ _ _ _ Hrun). unfold add_log; cbn [fs log].
    rewrite <- !app_assoc, (app_assoc t0).
    apply ended_in_failure. by rewrite forallb_app, Ht0, Htr.
Qed.

Lemma outcome_transparent p w content img :
  lower (snd (splitext p)) = ".png" ->
  fs w !! p = Some content ->
  Image_open env p content = Ok img ->
  has_alpha env img = true ->
  file_outcome p w (compress_image env p w).
Proof.
  intros Hext Hp Himg Halpha.
  assert (Hwebp : fst (splitext p) +:+ ".webp" <> p)
    by (eapply new_extension_differs; [exact Hext|done]).
  pose proof (transparent_png_body env p w content img Hext Hp Himg Halpha)
    as Hbody.
  set (w0 := add_log w [EvSave (copy img) "PNG" kw_png]).
  destruct (Image_save env (copy img) "PNG" kw_png) as [d|e] eqn:Hsave.
  2:{ assert (Hfirst : _try_save_to_bytes env (copy img) "PNG" kw_png w
                       = (Raise e, w0)) by (by rewrite try_save_run, Hsave).
      rewrite compress_image_run, Hbody, (bind_raise _ _ _ _ _ Hfirst).
      unfold w0, add_log; cbn [fs log]. rewrite <- app_assoc.
      by apply ended_in_failure. }
  assert (Hfirst : _try_save_to_bytes env (copy img) "PNG" kw_png w
                   = (Val d, w0)) by (by rewrite try_save_run, Hsave).
  rewrite (bind_val _ _ _ _ _ Hfirst) in Hbody.
  destruct (len d <=? TARGET_SIZE) eqn:Hd.
  { rewrite compress_image_run, Hbody.
    unfold write_file, w0, add_log; cbn [fs log]. rewrite <- app_assoc.
    by apply written_in_place. }
  pose proof (png_loop_total env (scale_fuel (size (copy img))) p (copy img) d
                w0 (size_rank_fuel _)) as Htotal.
  destruct (png_loop env (scale_fuel (size (copy img))) p (copy img) d w0)
    as [r w1] eqn:Hloop.
  cbn [fst] in Htotal.
  pose proof Hloop as Hshape.
  apply png_loop_run in Hshape as (ims & _ & _ & Hshape).
  destruct r as [[|d']|e|]; [| | |done].
  - destruct Hshape as (d' & ->).
    rewrite compress_image_run, Hbody, (bind_val _ _ _ _ _ Hloop).
    cbv beta iota. unfold ret, w0, add_log; cbn [fs log].
    rewrite <- app_assoc.
    change ([EvSave (copy img) "PNG" kw_png]
            ++ map png_save ims ++ [EvWrite p d'])
      with (map png_save (copy img :: ims) ++ [EvWrite p d']).
    apply written_in_place. apply png_saves_are_saves.
  - subst w1. rewrite (bind_val _ _ _ _ _ Hloop) in Hbody.
    cbv beta iota in Hbody. unfold w0 in Hbody.
    rewrite add_log_app in Hbody.
    eapply (outcome_replaced img "WEBP" kw_webp_lossy _ _ p w
              ([EvSave (copy img) "PNG" kw_png] ++ map png_save ims));
      [|by eexists|exact Hwebp|by right|exact Hbody].
    apply (png_saves_are_saves (copy img :: ims)).
  - subst w1.
    rewrite compress_image_run, Hbody, (bind_raise _ _ _ _ _ Hloop).
    unfold w0, add_log; cbn [fs log]. rewrite <- !app_assoc.
    change ([EvSave (copy img) "PNG" kw_png]
            ++ map png_save ims ++ [EvPrint (MsgFailed p e)])
      with (map png_save (copy img :: ims) ++ [EvPrint (MsgFailed p e)]).
    apply ended_in_failure. apply png_saves_are_saves.
Qed.

(** Every run of [compress_image] on a file with one of the four
    extensions, and every run at all with the dictionary registry, ends in
    one of the three ways. *)
Lemma compress_image_outcome e0 p w :
  str_in (lower (snd (splitext p))) [".jpg"; ".jpeg"; ".png"; ".webp"] = true
  \/ dict_registry env e0 ->
  file_outcome p w (compress_image env p w).
Proof.
  intros Hcase.
  assert (Hnil : forall e,
             file_outcome p w (Val tt, add_log w [EvPrint (MsgFailed p e)])).
  { intros e. apply (ended_in_failure p w [] e). done. }
  destruct (fs w !! p) as [content|] eqn:Hp.
  2:{ rewrite compress_image_run. unfold compress_body, bind, Image_open_path.
      rewrite Hp. apply Hnil. }
  destruct (Image_open env p content) as [img|e] eqn:Himg.
  2:{ rewrite compress_image_run.
      rewrite (compress_body_decode_error env p w content e) by done.
      apply Hnil. }
  destruct (str_in (lower (snd (splitext p))) [".jpg"; ".jpeg"]) eqn:Hjpg.
  { eapply outcome_in_place. by eapply jpeg_body. }
  destruct (String.eqb (lower (snd (splitext p))) ".png") eqn:Hpng.
  { apply String.eqb_eq in Hpng. destruct (has_alpha env img) eqn:Halpha.
    - by eapply outcome_transparent.
    - eapply (outcome_replaced _ _ _ _ _ p w []); [done|by eexists| |by left|].
      + eapply new_extension_differs; [exact Hpng|done].
      + rewrite add_log_nil. by eapply opaque_png_body. }
  destruct (String.eqb (lower (snd (splitext p))) ".webp") eqn:Hwebp.
  { apply String.eqb_eq in Hwebp. eapply outcome_in_place.
    by eapply webp_body. }
  assert (Hother : str_in (lower (snd (splitext p)))
                     [".jpg"; ".jpeg"; ".png"; ".webp"] = false)
    by (rewrite four_extensions; by rewrite Hjpg, Hpng, Hwebp).
  destruct Hcase as [Hfour|Hreg]; [congruence|].
  rewrite compress_image_run.
  rewrite (other_body env p w content img) by done. unfold try_except.
  rewrite (bind_raise _ _ _ _ _ (dict_registry_search env e0 _ _ _ _ _ Hreg)).
  rewrite (bind_raise _ _ _ _ _ (dict_registry_search env e0 _ _ _ _ _ Hreg)).
  apply Hnil.
Qed.

(** With one of the four extensions, or with the dictionary registry, a
    decode failure or a failed encoding makes the body raise. *)
Lemma failure_escapes e0 p w content :
  str_in (lower (snd (splitext p))) [".jpg"; ".jpeg"; ".png"; ".webp"] = true
  \/ dict_registry env e0 ->
  fs w !! p = Some content ->
  (exists e, Image_open env p content = Err e)
  \/ existsb (encode_failed env) (new_events w (compress_image env p w)) = true ->
  exists e w', compress_body env p w = (Raise e, w').
Proof.
  intros Hcase Hp Hfail.
  destruct (Image_open env p content) as [img|e] eqn:Himg.
  2:{ exists e, w. by apply compress_body_decode_error with content. }
  destruct Hfail as [[e He]|Hfail]; [done|].
  destruct (str_in (lower (snd (splitext p)))
              [".jpg"; ".jpeg"; ".png"; ".webp"]) eqn:Hfour.
  - destruct (compress_body env p w) as [[[]|e|] w'] eqn:Hbody.
    + exfalso. rewrite compress_image_run, Hbody in Hfail.
      apply cleanly_compress_body in Hbody as (tr & Hlog & Hclean);
        [|done].
      rewrite (new_events_spec w (Val tt, w') tr) in Hfail by done.
      congruence.
    + by exists e, w'.
    + destruct (compress_body_tidy env p w) as (tr & _ & _ & Hdiv & _).
      by rewrite Hbody in Hdiv.
  - destruct Hcase as [?|Hreg]; [done|]. exists e0, w.
    rewrite (other_body env p w content img) by done. unfold try_except.
    rewrite (bind_raise _ _ _ _ _
               (dict_registry_search env e0 _ _ _ _ _ Hreg)).
    by rewrite (bind_raise _ _ _ _ _
                  (dict_registry_search env e0 _ _ _ _ _ Hreg)).
Qed.

End FileOutcomes.



(** C8: for a file with one of the four extensions, and for every file
    with the dictionary registry: [compress_image] returns normally and the
    loop of [process_folder] goes on with the remaining files; whenever a
    failure is reported, nothing was written and the files are as before;
    and a decode failure or a failed encoding is always reported. *)
Theorem failure_stays_in_its_file env e0 root f rest w content :
  is_candidate f = true ->
  fs w !! path_join root f = Some content ->
  TARGET_SIZE < len content ->
  str_in (lower (snd (splitext (path_join root f))))
         [".jpg"; ".jpeg"; ".png"; ".webp"] = true
  \/ dict_registry env e0 ->
  exists tr w1,
    compress_image env (path_join root f)
      (add_log w [EvPrint (MsgCompressing (path_join root f) (len content))])
    = (Val tt, w1)
    /\ log w1 = log w ++ EvPrint (MsgCompressing (path_join root f)
                                    (len content)) :: tr
    /\ process_files env root (f :: rest) w
       = process_files env root rest
           (add_log w1 (report_after (fs w1) (path_join root f)))
    /\ (existsb is_failure_report tr = true ->
        count_writes tr = 0%nat
        /\ fs w1 = fs w
        /\ report_after (fs w1) (path_join root f)
           = [EvPrint (MsgAfter (len content))])
    /\ ((exists e, Image_open env (path_join root f) content = Err e)
        \/ existsb (encode_failed env) tr = true ->
        existsb is_failure_report tr = true).
Proof.
  intros Hcand Hp Hbig Hcase.
  set (p := path_join root f) in *.
  set (w0 := add_log w [EvPrint (MsgCompressing p (len content))]) in *.
  assert (Hloop : process_files env root (f :: rest) w
                  = process_files env root rest
                      (add_log (snd (compress_image env p w0))
                         (report_after (fs (snd (compress_image env p w0))) p))).
  { rewrite process_files_cons.
    by rewrite (process_file_run env root f w content). }
  assert (Hfail : forall tr,
             log (snd (compress_image env p w0)) = log w0 ++ tr ->
             (exists e, Image_open env p content = Err e)
             \/ existsb (encode_failed env) tr = true ->
             exists e w', compress_image env p w0
                          = (Val tt, add_log w' [EvPrint (MsgFailed p e)])).
  { intros tr Hlog Hf.
    destruct (failure_escapes env e0 p w0 content Hcase Hp)
      as (e & w' & Hbody).
    { destruct Hf as [Hf|Hf]; [by left|right].
      by rewrite (new_events_spec w0 _ tr Hlog). }
    exists e, w'. by rewrite compress_image_run, Hbody. }
  destruct (file_outcome_inv p w0 _ (compress_image_outcome env e0 p w0 Hcase))
    as [(t & e & Ht & Hrun)|[(t & d & Ht & Hrun)
        |(t & new & d & msg & Ht & Hne & Hnew & Hrun)]];
    rewrite Hrun in Hloop, Hfail; cbn [snd fs log] in Hloop, Hfail.
  - (* a failure was reported *)
    eexists (t ++ [EvPrint (MsgFailed p e)]), _. split; [exact Hrun|].
    split; [cbn [log add_log w0]; by rewrite <- app_assoc|].
    split; [exact Hloop|]. split.
    + intros _. split.
      { rewrite count_writes_app, (saves_write_nothing t Ht). reflexivity. }
      split; [reflexivity|]. cbn [fs]. unfold report_after.
      rewrite bool_decide_eq_true_2 by (cbn [fs add_log w0]; by eexists).
      unfold size_of. cbn [fs add_log w0]. by rewrite Hp.
    + intros _. by rewrite existsb_app, orb_comm.
  - (* written in place *)
    eexists (t ++ [EvWrite p d]), _. split; [exact Hrun|].
    split; [cbn [log add_log w0]; by rewrite <- app_assoc|].
    split; [exact Hloop|]. split.
    + rewrite existsb_app, (saves_no_report t Ht). done.
    + intros Hf. exfalso.
      destruct (Hfail (t ++ [EvWrite p d]) eq_refl Hf) as (e & w' & Heq).
      injection Heq as _ Hlog. rewrite !app_assoc in Hlog.
      apply app_inj_tail in Hlog as [_ Hlast]. discriminate.
  - (* converted *)
    eexists (t ++ [EvWrite new d; EvRemove p; EvPrint msg]), _.
    split; [exact Hrun|].
    split; [cbn [log add_log w0]; by rewrite <- app_assoc|].
    split; [exact Hloop|]. split.
    + rewrite existsb_app, (saves_no_report t Ht).
      destruct Hnew as [[_ ->]|[_ ->]]; done.
    + intros Hf. exfalso.
      destruct (Hfail (t ++ [EvWrite new d; EvRemove p; EvPrint msg])
                  eq_refl Hf) as (e & w' & Heq).
      injection Heq as _ Hlog. apply (f_equal last) in Hlog.
      rewrite last_snoc, !last_app in Hlog. simpl in Hlog.
      destruct Hnew as [[_ ->]|[_ ->]]; discriminate.
Qed.

Lemma failure_stays_in_its_file_witness :
  let env := demo_env 0 true in
  let w := {| fs := <["./bad.png" := Bytes 600000 0]>
                      (<["./next.png" := demo_file 80 72 true 600000]> ∅);
              log := [] |} in
  is_candidate "bad.png" = true
  /\ fs w !! path_join "." "bad.png" = Some (Bytes 600000 0)
  /\ TARGET_SIZE < len (Bytes 600000 0)
  /\ dict_registry env (Exn "TypeError")
  /\ (exists e, Image_open env (path_join "." "bad.png") (Bytes 600000 0)
                = Err e)
  /\ fst (process_files env "." ["bad.png"; "next.png"] w) = Val tt
  /\ fs (snd (process_files env "." ["bad.png"; "next.png"] w)) !! "./bad.png"
     = Some (Bytes 600000 0)
  /\ fs (snd (process_files env "." ["bad.png"; "next.png"] w)) !! "./next.png"
     = Some (Bytes 460800 0)
  /\ exists tr w1,
       compress_image env (path_join "." "bad.png")
         (add_log w [EvPrint (MsgCompressing (path_join "." "bad.png")
                                (len (Bytes 600000 0)))])
       = (Val tt, w1)
       /\ existsb is_failure_report tr = true
       /\ count_writes tr = 0%nat
       /\ fs w1 = fs w
       /\ process_files env "." ["bad.png"; "next.png"] w
          = process_files env "." ["next.png"]
              (add_log w1 (report_after (fs w1) (path_join "." "bad.png"))).
Proof.
  intros env w.
  assert (H1 : is_candidate "bad.png" = true) by reflexivity.
  assert (H2 : fs w !! path_join "." "bad.png" = Some (Bytes 600000 0))
    by reflexivity.
  assert (H3 : TARGET_SIZE < len (Bytes 600000 0)) by reflexivity.
  assert (H4 : dict_registry env (Exn "TypeError"))
    by (split; [reflexivity|intros s; reflexivity]).
  assert (H5 : exists e, Image_open env (path_join "." "bad.png")
                           (Bytes 600000 0) = Err e)
    by (eexists; reflexivity).
  split; [exact H1|]. split; [exact H2|]. split; [exact H3|].
  split; [exact H4|]. split; [exact H5|].
  split; [vm_compute; reflexivity|].
  split; [vm_compute; reflexivity|].
  split; [vm_compute; reflexivity|].
  destruct (failure_stays_in_its_file env _ "." "bad.png" ["next.png"] w
              (Bytes 600000 0) H1 H2 H3 (or_intror H4))
    as (tr & w1 & Hrun & _ & Hloop & Hquiet & Hrep).
  exists tr, w1. split; [exact Hrun|].
  pose proof (Hrep (or_introl H5)) as Hreported.
  destruct (Hquiet Hreported) as (Hcnt & Hfs & _).
  split; [exact Hreported|]. split; [exact Hcnt|]. split; [exact Hfs|].
  exact Hloop.
Defined.

(** ** The sizes of the encodings *)

Section Sizes.
Context (env : Env).

Lemma new_size_one_step s :
  at_least_1x1 s -> new_size_of s <> s -> one_step s (new_size_of s).
Proof. intros H Hne. split; [by apply new_size_scaled_down|done]. Qed.

Lemma one_step_no_larger s1 s2 :
  at_least_1x1 s1 -> one_step s1 s2 -> no_larger s1 s2.
Proof.
  intros H [-> _]. rewrite <- new_size_scaled_down by done.
  by apply new_size_no_larger.
Qed.

Lemma same_or_step_no_larger s1 s2 :
  at_least_1x1 s1 -> same_or_step s1 s2 -> no_larger s1 s2.
Proof.
  intros H [->|Hs]; [apply no_larger_refl|by apply one_step_no_larger].
Qed.

Lemma Sorted_same_replicate (a : Z * Z) k : Sorted same_or_step (replicate k a).
Proof.
  induction k as [|k IH]; [constructor|]. simpl. constructor; [done|].
  destruct k; constructor. by left.
Qed.

Lemma last_replicate_eq (a x : Z * Z) k : last (replicate k a) = Some x -> x = a.
Proof.
  induction k as [|k IH]; [done|].
  destruct k as [|k]; [simpl; congruence|exact IH].
Qed.

Lemma Sorted_change (R R' : Z * Z -> Z * Z -> Prop) (P : Z * Z -> Prop) l :
  (forall x y, P x -> R x y -> R' x y) ->
  Forall P l -> Sorted R l -> Sorted R' l.
Proof.
  intros Himp HP Hs. induction Hs as [|x l Hs IH Hhd]; [constructor|].
  apply Forall_cons in HP as [Hx HP]. constructor; [by apply IH|].
  destruct Hhd; constructor. by apply Himp.
Qed.

Lemma shrinking_run_nil s0 : shrinking_run s0 [].
Proof. repeat split; repeat constructor. Qed.

(** Sizes along a search in a format with a quality parameter. *)
Lemma search_trace_steps fmt kw work tr :
  search_trace env fmt kw true work tr ->
  at_least_1x1 (size work) ->
  Sorted same_or_step (saved_sizes tr)
  /\ (forall s, head (saved_sizes tr) = Some s -> s = size work).
Proof.
  induction 1 as [work k Hk | work Hfix | work tr Hne Htr IH]; intros H1.
  - rewrite saved_sizes_level. split; [apply Sorted_same_replicate|].
    intros s Hs. destruct k; [done|]. simpl in Hs. congruence.
  - rewrite saved_sizes_app, saved_sizes_level.
    change (saved_sizes [save_at work fmt kw (final_quality true)])
      with [size work].
    change (klevel true) with 16%nat. split.
    + apply Sorted_app_link; [apply Sorted_same_replicate|repeat constructor|].
      intros x y Hx [= <-]. apply last_replicate_eq in Hx as ->. by left.
    + intros s Hs. simpl in Hs. congruence.
  - rewrite saved_sizes_app, saved_sizes_level.
    change (klevel true) with 16%nat.
    destruct IH as [IHs IHh]; [apply new_size_at_least|]. split.
    + apply Sorted_app_link; [apply Sorted_same_replicate|done|].
      intros x y Hx Hy. apply last_replicate_eq in Hx as ->.
      apply IHh in Hy as ->. right. simpl. by apply new_size_one_step.
    + intros s Hs. simpl in Hs. congruence.
Qed.

Lemma search_trace_run fmt kw b work tr :
  search_trace env fmt kw b work tr ->
  at_least_1x1 (size work) ->
  shrinking_run (size work) (saved_sizes tr).
Proof.
  intros Htr H1.
  destruct (search_trace_sizes env _ _ _ _ _ Htr H1) as (Hs & Ha & Hf).
  split; [|split; [done|split; [done|]]].
  - destruct b.
    + by apply search_trace_steps in Htr as [? _].
    + apply search_trace_plain in Htr as [->|[final ->]]; repeat constructor.
  - eapply Forall_impl; [exact Hf|]. intros s. by apply shrunk_from_scaled.
Qed.

Lemma search_run img fmt kw w :
  at_least_1x1 (size img) ->
  exists tr,
    snd (_progressive_compress env img fmt true kw w) = add_log w tr
    /\ List.length (saved_sizes tr) = List.length tr
    /\ search_sizes env (size img) (saved_sizes tr).
Proof.
  intros H1. rewrite progressive_compress_unfold.
  destruct (scale_loop env _ (copy img) fmt kw 95 w) as [r w'] eqn:Hrun.
  pose proof Hrun as Htrace.
  apply scale_loop_trace in Htrace as (tr & -> & Htr).
  exists tr. split; [done|].
  split; [exact (saved_sizes_length_level _ _ _ _ _ _ Htr)|]. split.
  - exact (search_trace_run _ _ _ _ _ Htr H1).
  - intros e Hreg.
    rewrite <- progressive_compress_unfold in Hrun.
    rewrite (dict_registry_search env e img fmt true kw w Hreg) in Hrun.
    injection Hrun as _ Hw. apply (f_equal log) in Hw. simpl in Hw.
    rewrite <- (app_nil_r (log w)) in Hw at 1.
    apply app_inv_head in Hw. by subst tr.
Qed.

(** A result over budget comes from the last encoding, at 1x1. *)
Lemma scale_loop_over_budget_last n : forall work fmt kw q w d w',
  scale_loop env n work fmt kw q w = (Val d, w') ->
  TARGET_SIZE < len d ->
  exists tr, log w' = log w ++ tr /\ last (saved_sizes tr) = Some (1, 1).
Proof.
  induction n as [|n IH]; intros work fmt kw q w d w' Hrun Hbig; [done|].
  rewrite scale_loop_step in Hrun.
  destruct (quality_loop_log env (quality_fuel q) work fmt kw q w)
    as (t1 & Ht1).
  destruct (quality_loop env (quality_fuel q) work fmt kw q w)
    as [[[d1|q1]|e|] w1] eqn:Hq; try done; simpl in Ht1.
  - injection Hrun as -> ->.
    apply quality_loop_return_fits in Hq. lia.
  - case_bool_decide as Hfix.
    + unfold with_quality in Hrun.
      destruct (str_in "quality" (map fst kw)); [done|].
      rewrite try_save_run in Hrun.
      destruct (Image_save env work fmt _) as [d2|e]; [|done].
      injection Hrun as _ <-.
      exists (t1 ++ [EvSave work fmt
                       (("quality", PyInt (Z.max MIN_QUALITY q1)) :: kw)]).
      simpl. rewrite Ht1, <- app_assoc. split; [done|].
      rewrite saved_sizes_app. simpl. rewrite last_snoc. f_equal.
      by apply new_size_fix.
    + apply IH in Hrun as (t2 & Ht2 & Hlast); [|done].
      exists (t1 ++ t2). rewrite Ht2, Ht1, <- app_assoc. split; [done|].
      by rewrite saved_sizes_app, last_app, Hlast.
Qed.

(** Every run of the PNG shrink loop, step by step. *)
Lemma png_loop_steps n : forall p work data w r w',
  png_loop env n p work data w = (r, w') ->
  at_least_1x1 (size work) ->
  exists tr,
    log w' = log w ++ tr
    /\ png_sizes (size work) (saved_sizes tr)
    /\ (forall d, r = Val (PngBreak d) ->
          last (size work :: saved_sizes tr) = Some (1, 1)).
Proof.
  induction n as [|n IH]; intros p work data w r w' Hrun H1.
  - injection Hrun as <- <-. exists []. rewrite app_nil_r.
    split; [done|]. split; [|done]. repeat split; repeat constructor.
  - simpl in Hrun. case_bool_decide as Hfix.
    + injection Hrun as <- <-. exists []. rewrite app_nil_r.
      split; [done|]. split; [repeat split; repeat constructor|].
      intros d _. simpl. f_equal. by apply new_size_fix.
    + unfold bind at 1 in Hrun. rewrite try_save_run in Hrun.
      set (work' := resize env work (new_size_of (size work))) in *.
      assert (Hstep : one_step (size work) (size work'))
        by (by apply new_size_one_step).
      assert (H1' : at_least_1x1 (size work')) by apply new_size_at_least.
      assert (Hfrom : shrunk_from (size work) (size work'))
        by (apply shrunk_from_step, shrunk_from_refl).
      assert (Hone : png_sizes (size work) [size work']).
      { split; [|split; [constructor; [exact H1'|constructor]
                        |constructor; [exact Hfrom|constructor]]].
        apply Sorted_cons; [apply Sorted_cons; constructor|].
        by apply HdRel_cons. }
      destruct (Image_save env work' "PNG" kw_png) as [d|e].
      * destruct (len d <=? TARGET_SIZE).
        -- injection Hrun as <- <-.
           exists [EvSave work' "PNG" kw_png; EvWrite p d]. simpl.
           rewrite <- app_assoc. split; [done|]. split; [exact Hone|done].
        -- apply IH in Hrun as (tr & Hlog & (Hs & Ha & Hf) & Hlast); [|done].
           exists (EvSave work' "PNG" kw_png :: tr). simpl in Hlog.
           rewrite Hlog, <- app_assoc. split; [done|].
           change (saved_sizes (EvSave work' "PNG" kw_png :: tr))
             with (size work' :: saved_sizes tr).
           split.
           ++ split; [constructor; [done|by constructor]|].
              split; [by constructor|]. constructor; [done|].
              eapply Forall_impl; [exact Hf|]. intros s.
              apply shrunk_from_step.
           ++ intros d' Hd'. rewrite last_cons. by rewrite (Hlast d' Hd').
      * injection Hrun as <- <-. exists [EvSave work' "PNG" kw_png].
        split; [done|]. split; [exact Hone|done].
Qed.

Lemma png_sizes_run s0 l :
  at_least_1x1 s0 -> png_sizes s0 l -> shrinking_run s0 (s0 :: l).
Proof.
  intros H0 (Hs & Ha & Hf).
  assert (Hall : Forall at_least_1x1 (s0 :: l)) by by constructor.
  split; [|split; [|split]].
  - eapply (Sorted_change one_step same_or_step (fun _ => True));
      [by right| |exact Hs]. by apply Forall_true.
  - constructor; [|constructor; apply no_larger_refl].
    eapply (Sorted_change one_step no_larger at_least_1x1);
      [apply one_step_no_larger|exact Hall|exact Hs].
  - exact Hall.
  - constructor; [by exists 0%nat|].
    eapply Forall_impl; [exact Hf|]. intros s. by apply shrunk_from_scaled.
Qed.

(** *** How the sizes of a whole run compose *)

Lemma encodes_weaken {A} (P Q : list (Z * Z) -> Prop) (m : M A) :
  (forall l, P l -> Q l) -> encodes P m -> encodes Q m.
Proof.
  intros Himp Hm w r w' Hrun. apply Hm in Hrun as (tr & Hlog & HP).
  exists tr. split; [done|]. by apply Himp.
Qed.

Lemma encodes_bind {A B} (P Q R : list (Z * Z) -> Prop)
    (m : M A) (k : A -> M B) :
  encodes P m -> (forall a, encodes Q (k a)) ->
  (forall l1, P l1 -> R l1) ->
  (forall l1 l2, P l1 -> Q l2 -> R (l1 ++ l2)) ->
  encodes R (bind m k).
Proof.
  intros Hm Hk H1 H2 w r w' Hrun.
  apply bind_inv in Hrun as [(a & w1 & Hm1 & Hk1)|[(e & Hm1 & _)|[Hm1 _]]].
  - apply Hm in Hm1 as (t1 & Hl1 & HP).
    apply Hk in Hk1 as (t2 & Hl2 & HQ).
    exists (t1 ++ t2). rewrite Hl2, Hl1, app_assoc. split; [done|].
    rewrite saved_sizes_app. by apply H2.
  - apply Hm in Hm1 as (t1 & Hl1 & HP). exists t1. split; [done|].
    by apply H1.
  - apply Hm in Hm1 as (t1 & Hl1 & HP). exists t1. split; [done|].
    by apply H1.
Qed.

Lemma encodes_try {A} (P Q R : list (Z * Z) -> Prop)
    (m : M A) (h : exn -> M A) :
  encodes P m -> (forall e, encodes Q (h e)) ->
  (forall l1, P l1 -> R l1) ->
  (forall l1 l2, P l1 -> Q l2 -> R (l1 ++ l2)) ->
  encodes R (try_except m h).
Proof.
  intros Hm Hh H1 H2 w r w' Hrun. unfold try_except in Hrun.
  destruct (m w) as [[a|e|] w1] eqn:Hm1.
  - injection Hrun as <- <-. apply Hm in Hm1 as (t1 & Hl1 & HP).
    exists t1. split; [done|]. by apply H1.
  - apply Hm in Hm1 as (t1 & Hl1 & HP).
    apply Hh in Hrun as (t2 & Hl2 & HQ).
    exists (t1 ++ t2). rewrite Hl2, Hl1, app_assoc. split; [done|].
    rewrite saved_sizes_app. by apply H2.
  - injection Hrun as <- <-. apply Hm in Hm1 as (t1 & Hl1 & HP).
    exists t1. split; [done|]. by apply H1.
Qed.

Lemma encodes_nothing {A} (m : M A) :
  journal (fun e => saved_size e = None) m -> encodes (eq []) m.
Proof.
  intros Hm w r w' Hrun. apply Hm in Hrun as (tr & Hlog & _ & Hall).
  exists tr. split; [done|]. symmetry. clear Hlog.
  induction Hall as [|x tr Hx _ IH]; [done|].
  unfold saved_sizes in *. simpl. by rewrite Hx.
Qed.

Lemma encodes_write path data : encodes (eq []) (write_file path data).
Proof. by apply encodes_nothing, journal_write. Qed.

Lemma encodes_ret {A} (a : A) : encodes (eq []) (ret a).
Proof. apply encodes_nothing, journal_ret. Qed.

Lemma encodes_replace new p data msg :
  encodes (eq []) (replace_by new p data msg).
Proof.
  apply encodes_nothing. unfold replace_by.
  apply journal_bind; [by apply journal_write|]. intros _.
  apply journal_bind; [by apply journal_remove|]. intros _.
  by apply journal_print.
Qed.

Lemma encodes_search img fmt kw :
  at_least_1x1 (size img) ->
  encodes (search_sizes env (size img))
          (_progressive_compress env img fmt true kw).
Proof.
  intros H1 w r w' Hrun.
  destruct (search_run img fmt kw w H1) as (tr & Hsnd & _ & Hsizes).
  rewrite Hrun in Hsnd. simpl in Hsnd. subst w'. by exists tr.
Qed.

Lemma encodes_try_save img fmt kw :
  encodes (eq [size img]) (_try_save_to_bytes env img fmt kw).
Proof.
  intros w r w' Hrun. rewrite try_save_run in Hrun.
  injection Hrun as _ <-. by exists [EvSave img fmt kw].
Qed.

Lemma encodes_png_loop n p work data :
  at_least_1x1 (size work) ->
  encodes (png_sizes (size work)) (png_loop env n p work data).
Proof.
  intros H1 w r w' Hrun.
  apply png_loop_steps in Hrun as (tr & Hlog & Hs & _); [|done].
  by exists tr.
Qed.

Lemma search_sizes_nil s0 : search_sizes env s0 [].
Proof. split; [apply shrinking_run_nil|done]. Qed.

Lemma two_runs_one s0 l : search_sizes env s0 l -> two_runs env s0 l.
Proof.
  intros [Hrun _]. exists l, []. rewrite app_nil_r.
  split; [done|]. split; [done|]. split; [apply shrinking_run_nil|done].
Qed.

Lemma two_runs_two s0 l1 l2 :
  shrinking_run s0 l1 -> search_sizes env s0 l2 -> two_runs env s0 (l1 ++ l2).
Proof. intros H1 [H2 Hd]. by exists l1, l2. Qed.

(** A search and what follows it when nothing else is encoded. *)
Lemma encodes_search_then {B} img fmt kw (k : bytes -> M B) :
  at_least_1x1 (size img) ->
  (forall d, encodes (eq []) (k d)) ->
  encodes (search_sizes env (size img))
          (bind (_progressive_compress env img fmt true kw) k).
Proof.
  intros H1 Hk.
  eapply encodes_bind; [by apply encodes_search|exact Hk|done|].
  intros l1 l2 Hl1 <-. by rewrite app_nil_r.
Qed.

(** The sizes of everything [compress_body] encodes for a readable file. *)
Lemma compress_body_sizes p w content img :
  fs w !! p = Some content ->
  Image_open env p content = Ok img ->
  at_least_1x1 (size img) ->
  exists tr,
    log (snd (compress_body env p w)) = log w ++ tr
    /\ two_runs env (size img) (saved_sizes tr).
Proof.
  intros Hp Himg H1.
  assert (Hfrom : forall (m : M unit),
             compress_body env p w = m w ->
             encodes (two_runs env (size img)) m ->
             exists tr,
               log (snd (compress_body env p w)) = log w ++ tr
               /\ two_runs env (size img) (saved_sizes tr)).
  { intros m -> Hm. destruct (m w) as [r w'] eqn:Hrun. by apply Hm in Hrun. }
  assert (Hsearch : forall {B} src fmt kw (k : bytes -> M B),
             size src = size img ->
             (forall d, encodes (eq []) (k d)) ->
             encodes (search_sizes env (size img))
                     (bind (_progressive_compress env src fmt true kw) k)).
  { intros B src fmt kw k Hsize Hk. rewrite <- Hsize.
    apply encodes_search_then; [by rewrite Hsize|done]. }
  destruct (str_in (lower (snd (splitext p))) [".jpg"; ".jpeg"]) eqn:Hjpg.
  { eapply Hfrom; [by eapply jpeg_body|].
    eapply encodes_weaken; [apply two_runs_one|].
    apply Hsearch; [done|]. intros d. apply encodes_write. }
  destruct (String.eqb (lower (snd (splitext p))) ".png") eqn:Hpng.
  { apply String.eqb_eq in Hpng. destruct (has_alpha env img) eqn:Halpha.
    - eapply Hfrom; [by eapply transparent_png_body|].
      eapply (encodes_bind (eq [size img])
                (fun l => exists l1 l2,
                     l = l1 ++ l2 /\ png_sizes (size img) l1
                     /\ search_sizes env (size img) l2)).
      + apply (encodes_try_save (copy img)).
      + intros d. destruct (len d <=? TARGET_SIZE).
        * eapply encodes_weaken; [|apply encodes_write].
          intros l <-. exists [], []. split; [done|].
          split; [repeat split; repeat constructor|apply search_sizes_nil].
        * eapply (encodes_bind (png_sizes (size img))
                    (search_sizes env (size img))).
          -- by apply (encodes_png_loop _ _ (copy img)).
          -- intros [|d'].
             ++ eapply encodes_weaken; [|apply encodes_ret].
                intros l <-. apply search_sizes_nil.
             ++ apply Hsearch; [done|]. intros d2. apply encodes_replace.
          -- intros l1 Hl1. exists l1, []. rewrite app_nil_r.
             split; [done|]. split; [done|apply search_sizes_nil].
          -- intros l1 l2 Hl1 Hl2. by exists l1, l2.
      + intros l1 <-. exists [size img], []. split; [done|].
        split; [|split; [apply shrinking_run_nil|done]].
        apply (png_sizes_run (size img) [] H1).
        repeat split; repeat constructor.
      + intros l1 l2 <- (a & b & -> & Ha & Hb).
        change ([size img] ++ a ++ b) with ((size img :: a) ++ b).
        apply two_runs_two; [by apply png_sizes_run|done].
    - eapply Hfrom; [by eapply opaque_png_body|].
      eapply encodes_weaken; [apply two_runs_one|].
      apply Hsearch; [done|]. intros d. apply encodes_replace. }
  destruct (String.eqb (lower (snd (splitext p))) ".webp") eqn:Hwebp.
  { apply String.eqb_eq in Hwebp. eapply Hfrom; [by eapply webp_body|].
    eapply encodes_weaken; [apply two_runs_one|].
    apply Hsearch; [done|]. intros d. apply encodes_write. }
  eapply Hfrom.
  { eapply other_body; [|done|done]. rewrite four_extensions.
    by rewrite Hjpg, Hpng, Hwebp. }
  eapply (encodes_try (search_sizes env (size img))
            (search_sizes env (size img))).
  - apply Hsearch; [done|]. intros d. apply encodes_write.
  - intros _. apply Hsearch; [done|]. intros d. apply encodes_write.
  - apply two_runs_one.
  - intros l1 l2 [Hl1 _] Hl2. by apply two_runs_two.
Qed.

Lemma compress_image_sizes p w :
  saved_sizes (new_events w (compress_image env p w))
  = saved_sizes (new_events w (compress_body env p w)).
Proof.
  rewrite compress_image_run.
  destruct (compress_body_tidy env p w) as (tr & Hlog & _).
  destruct (compress_body env p w) as [[[]|e|] w1]; try done.
  simpl in Hlog.
  rewrite (new_events_spec w (Raise e, w1) tr) by done.
  rewrite (new_events_spec w (Val tt, add_log w1 [EvPrint (MsgFailed p e)])
             (tr ++ [EvPrint (MsgFailed p e)]))
    by (simpl; by rewrite Hlog, <- app_assoc).
  rewrite saved_sizes_app. simpl. by rewrite app_nil_r.
Qed.

End Sizes.

(** C4: the sizes of the encodings, in order.  In one run of the search
    every event is an encoding; from one encoding to the next the size is
    the same or is exactly one downscale of it (both dimensions times nine
    tenths, rounded down, at least one pixel, and then different); no size
    exceeds the input or falls below 1x1; and a result over budget is
    encoded at 1x1.  In the PNG loop every encoding is one downscale of the
    one before, and the loop gives up only at 1x1.  Over one whole file the
    encodings form at most two such runs, each starting again at the size of
    the image, and with the dictionary registry there is only one. *)
Theorem dimensions_never_grow env img fmt kw w :
  at_least_1x1 (size img) ->
  (List.length
     (saved_sizes (new_events w (_progressive_compress env img fmt true kw w)))
   = List.length (new_events w (_progressive_compress env img fmt true kw w))
   /\ shrinking_run (size img)
        (saved_sizes
           (new_events w (_progressive_compress env img fmt true kw w)))
   /\ (forall data w',
         _progressive_compress env img fmt true kw w = (Val data, w') ->
         TARGET_SIZE < len data ->
         last (saved_sizes
                 (new_events w (_progressive_compress env img fmt true kw w)))
         = Some (1, 1)))
  /\ (forall p data n,
        Sorted one_step
          (size img
           :: saved_sizes (new_events w (png_loop env n p (copy img) data w)))
        /\ shrinking_run (size img)
             (saved_sizes (new_events w (png_loop env n p (copy img) data w)))
        /\ (forall d w',
              png_loop env n p (copy img) data w = (Val (PngBreak d), w') ->
              last (size img
                    :: saved_sizes
                         (new_events w (png_loop env n p (copy img) data w)))
              = Some (1, 1)))
  /\ (forall p content,
        fs w !! p = Some content ->
        Image_open env p content = Ok img ->
        two_runs env (size img)
          (saved_sizes (new_events w (compress_image env p w)))).
Proof.
  intros H1. split; [|split].
  - destruct (search_run env img fmt kw w H1) as (tr & Hsnd & Hlen & Hrun & _).
    rewrite (new_events_spec w _ tr) by (by rewrite Hsnd).
    split; [done|]. split; [done|]. intros data w' Hval Hbig.
    rewrite progressive_compress_unfold in Hval.
    pose proof Hval as Hlast.
    apply scale_loop_over_budget_last in Hlast as (t & Hlog & Hlast); [|done].
    rewrite progressive_compress_unfold, Hval in Hsnd. simpl in Hsnd.
    subst w'. simpl in Hlog. apply app_inv_head in Hlog. by subst t.
  - intros p data n.
    destruct (png_loop env n p (copy img) data w) as [r w'] eqn:Hrun.
    apply png_loop_steps in Hrun as (tr & Hlog & Hs & Hlast); [|done].
    rewrite (new_events_spec w (r, w') tr) by done.
    change (size (copy img)) with (size img) in Hs, Hlast.
    split; [by destruct Hs|]. split.
    + pose proof (png_sizes_run (size img) _ H1 Hs) as (Ha & Hb & Hc & Hd).
      split; [by apply Sorted_inv in Ha as [? _]|].
      split; [by apply Sorted_inv in Hb as [? _]|].
      split; [by apply Forall_cons in Hc as [_ ?]|].
      by apply Forall_cons in Hd as [_ ?].
    + intros d w0 [= -> _]. by apply (Hlast d).
  - intros p content Hp Himg. rewrite compress_image_sizes.
    destruct (compress_body_sizes env p w content img Hp Himg H1)
      as (tr & Hlog & Htwo).
    by rewrite (new_events_spec w _ tr).
Qed.

Lemma dimensions_never_grow_witness :
  let env := demo_env 600000 true in
  let w := demo_world "a.png" (demo_file 3 2 true 600000) in
  let img := {| size := (3, 2); mode := "RGBA"; format := Some "PNG";
                pixels := demo_file 3 2 true 600000 |} in
  at_least_1x1 (size img)
  /\ fs w !! "a.png" = Some (demo_file 3 2 true 600000)
  /\ Image_open env "a.png" (demo_file 3 2 true 600000) = Ok img
  /\ saved_sizes (new_events w (compress_image env "a.png" w))
     = [(3, 2); (2, 1); (1, 1)]
  /\ saved_sizes
       (new_events w (png_loop env 5 "a.png" (copy img) (Bytes 0 0) w))
     = [(2, 1); (1, 1)]
  /\ Sorted one_step
       (size img
        :: saved_sizes
             (new_events w (png_loop env 5 "a.png" (copy img) (Bytes 0 0) w)))
  /\ two_runs env (size img)
       (saved_sizes (new_events w (compress_image env "a.png" w))).
Proof.
  intros env w img.
  assert (H1 : at_least_1x1 (size img)) by (unfold at_least_1x1; simpl; lia).
  assert (H2 : fs w !! "a.png" = Some (demo_file 3 2 true 600000))
    by reflexivity.
  assert (H3 : Image_open env "a.png" (demo_file 3 2 true 600000) = Ok img)
    by reflexivity.
  split; [exact H1|]. split; [exact H2|]. split; [exact H3|].
  split; [reflexivity|]. split; [reflexivity|].
  destruct (dimensions_never_grow env img "PNG" kw_png w H1)
    as (_ & Hpng & Hfile).
  split.
  - exact (proj1 (Hpng "a.png" (Bytes 0 0) 5%nat)).
  - exact (Hfile "a.png" _ H2 H3).
Defined.
